(** * bbcat-dsp: the multi-channel convolution engine (Convolver.cpp)

  A shallow embedding of [ConvolverManager] and [Convolver] from
  src/Convolver.cpp, and the properties of the engine's specification
  checked against it.

  Conventions of the embedding:
  - [uint_t] is a 32-bit unsigned integer: a [Z] with the wrap-around
    written out ([UInt.wrap]);
  - [double] and [float] are IEEE-754 binary64 and binary32 values, taken
    from the Standard Library's executable specification [SpecFloat];
  - buffers are lists, read with [!!!] and written with [<[i:=x]>];
  - the partitioned block convolver and the fractional-sample reader are
    external libraries: they appear as interfaces (type classes). *)

From Stdlib Require Import ZArith QArith Qround Bool List Lia.
From Stdlib Require Import Floats.SpecFloat.
From stdpp Require Import base list.

#[local] Open Scope Z_scope.

(** ** 32-bit unsigned arithmetic *)

Module UInt.

Definition modulus : Z := 2 ^ 32.

Definition wrap (z : Z) : Z := z mod modulus.

Definition add (a b : Z) : Z := wrap (a + b).
Definition sub (a b : Z) : Z := wrap (a - b).
Definition mul (a b : Z) : Z := wrap (a * b).
(** Division and remainder by zero are undefined in C++; here they yield
    what [Z.div] and [Z.modulo] yield. *)
Definition div (a b : Z) : Z := a / b.
Definition rem (a b : Z) : Z := a mod b.

Definition in_range (z : Z) : Prop := 0 <= z < modulus.

End UInt.

(** ** Floating point: binary64 ([double]) and binary32 ([float]) *)

Module FP.

Definition double := spec_float.
Definition float := spec_float.

Definition dprec : Z := 53.
Definition demax : Z := 1024.
Definition fprec : Z := 24.
Definition femax : Z := 128.

Definition dadd : double -> double -> double := SFadd dprec demax.
Definition dsub : double -> double -> double := SFsub dprec demax.
Definition dmul : double -> double -> double := SFmul dprec demax.
Definition ddiv : double -> double -> double := SFdiv dprec demax.
Definition dltb : double -> double -> bool := SFltb.
Definition deqb : double -> double -> bool := SFeqb.

Definition fadd : float -> float -> float := SFadd fprec femax.
Definition fmul : float -> float -> float := SFmul fprec femax.

Definition dzero : double := S754_zero false.
Definition fzero : float := S754_zero false.
Definition done : double := SFone dprec demax.
Definition fone : float := SFone fprec femax.

(** [(double)n] for an integer [n]. *)
Definition double_of_Z (n : Z) : double := binary_normalize dprec demax n 0 false.

(** Implicit conversion of a [float] to [double] (exact). *)
Definition double_of_float (x : float) : double :=
  match x with
  | S754_finite s m e => binary_round dprec demax s m e
  | _ => x
  end.

(** Conversion of a [double] to [float] on assignment (round to nearest). *)
Definition float_of_double (x : double) : float :=
  match x with
  | S754_finite s m e => binary_round fprec femax s m e
  | _ => x
  end.

(** The integer [floor x], [ceil x] and [x] truncated towards zero, of a
    finite [x]. *)
Definition Zfloor (x : double) : option Z :=
  match x with
  | S754_zero _ => Some 0
  | S754_finite s m e => Some (Z.shiftl (cond_Zopp s (Zpos m)) e)
  | _ => None
  end.

Definition Zceil (x : double) : option Z :=
  match x with
  | S754_zero _ => Some 0
  | S754_finite s m e => Some (- Z.shiftl (cond_Zopp (negb s) (Zpos m)) e)
  | _ => None
  end.

Definition Ztrunc (x : double) : option Z :=
  match x with
  | S754_zero _ => Some 0
  | S754_finite s m e => Some (cond_Zopp s (Z.shiftl (Zpos m) e))
  | _ => None
  end.

(** [(uint_t)x]: the value truncated towards zero.  C++ leaves the
    conversion undefined when the truncated value is not a [uint_t] (and for
    NaN and the infinities); the embedding then wraps (resp. yields 0). *)
Definition uint_of_double (x : double) : Z :=
  match Ztrunc x with
  | Some z => UInt.wrap z
  | None => 0
  end.

(** [(uint_t)floor(x)] and [(uint_t)ceil(x)]: [floor] and [ceil] return the
    integer as a [double], exactly, and the conversion reads it back. *)
Definition uint_of_floor (x : double) : Z :=
  match Zfloor x with
  | Some z => UInt.wrap z
  | None => 0
  end.

Definition uint_of_ceil (x : double) : Z :=
  match Zceil x with
  | Some z => UInt.wrap z
  | None => 0
  end.

(** The macros [MIN] and [MAX] (bbcat-base/misc.h, not part of these
    sources) in their usual form: [((a) < (b)) ? (a) : (b)] and
    [((a) > (b)) ? (a) : (b)]. *)
Definition MIN (a b : double) : double := if dltb a b then a else b.
Definition MAX (a b : double) : double := if dltb b a then a else b.

Definition umin (a b : Z) : Z := if a <? b then a else b.

#[global] Instance float_inhabited : Inhabited spec_float := populate (S754_zero false).

End FP.

(** ** The [for (i = 0; i < n; i++)] loop over a [uint_t] counter *)

Fixpoint for_upto {A : Type} (fuel : nat) (i : Z) (body : Z -> A -> A) (s : A) : A :=
  match fuel with
  | O => s
  | S k => for_upto k (i + 1) body (body i s)
  end.

Definition for_loop {A : Type} (n : Z) (body : Z -> A -> A) (s : A) : A :=
  for_upto (Z.to_nat n) 0 body s.

(** Reading and writing a buffer at a [uint_t] index.  An index outside the
    buffer is undefined behaviour in C++; here the read yields 0 and the
    write does nothing. *)
Definition rd (buf : list FP.float) (i : Z) : FP.float := buf !!! Z.to_nat i.
Definition wr (buf : list FP.float) (i : Z) (x : FP.float) : list FP.float :=
  <[Z.to_nat i := x]> buf.

(** ** Sizes fixed when a convolver is created *)

(** [uint_t Convolver::maxadditionaldelay = 2400;] *)
Definition maxadditionaldelay : Z := 2400.

(** The silence threshold of the constructor:
  [maxzeroblocks = partitions + (maxadditionaldelay / blocksize) + 1]. *)
Definition calc_maxzeroblocks (partitions blocksize : Z) : Z :=
  UInt.add (UInt.add partitions (UInt.div maxadditionaldelay blocksize)) 1.

(** The length of the delay memory in [Convolver::Process]:
  [delaylen = (1 + ((maxdelay + blocksize - 1) / blocksize)) * blocksize]. *)
Definition calc_delaylen (blocksize : Z) : Z :=
  UInt.mul
    (UInt.add 1 (UInt.div (UInt.sub (UInt.add maxadditionaldelay blocksize) 1) blocksize))
    blocksize.

(** ** The external libraries

    [BlockConvolver] (the uniform partitioned convolver with its [Filter]
    objects) and FractionalSample.h are not part of these sources. *)

Class BlockConvolverLib := {
  (** a [BlockConvolver::Filter] object; a [const Filter *] is the object it
      points to, and pointer comparison is identity of the objects *)
  Filter : Type;
  Filter_eq_dec :: EqDecision Filter;
  BlockConvolver : Type;
  (** [BlockConvolver(ctx, blocksize, partitions)] *)
  new_convolver : Z -> Z -> BlockConvolver;
  set_filter : BlockConvolver -> Filter -> BlockConvolver;
  crossfade_filter : BlockConvolver -> Filter -> BlockConvolver;
  (** [filter_block(in, out)]: the new state and the block written to [out] *)
  filter_block : BlockConvolver -> list FP.float -> BlockConvolver * list FP.float
}.

Class FractionalSampleLib := {
  FractionalSampleAdditionalDelayRequired : Z;
  (** [FractionalSample(buffer, channel, channels, length, pos)] *)
  FractionalSample : list FP.float -> Z -> Z -> Z -> FP.double -> FP.double
}.

(** ** The per-channel worker: [class Convolver] *)

Module Convolver.
Import FP.

Section Worker.
Context `{BlockConvolverLib} `{FractionalSampleLib}.

(** The members of the object, the two signals, and the variables of
    [Process] that live across the iterations of its loop. *)
Record t := mk {
  startsignal : bool;
  donesignal : bool;
  thread : bool;
  blocksize : Z;
  partitions : Z;
  zeroblocks : Z;
  maxzeroblocks : Z;
  convindex : Z;
  input : list float;
  output : list float;
  outputdelay : double;
  outputlevel : double;
  hqproc : bool;
  quitthread : bool;
  convolver : BlockConvolver;
  current_filter : option Filter;
  filter : option Filter;
  (* locals of Process *)
  delaypos : Z;
  delay : list float;
  level1 : double;
  delay1 : double
}.

(** [Convolver::Convolver(ctx, _convindex, _blocksize, _partitions, _delay)],
    with the thread it creates run up to its first wait.  The two buffers and
    [hqproc] are left uninitialised by the constructor; they are zero and
    [false] here. *)
Definition new (_convindex _blocksize _partitions : Z) (_delay : double) : t :=
  {| startsignal := false;
     donesignal := false;
     thread := true;
     blocksize := _blocksize;
     partitions := _partitions;
     zeroblocks := 0;
     maxzeroblocks := calc_maxzeroblocks _partitions _blocksize;
     convindex := _convindex;
     input := replicate (Z.to_nat _blocksize) fzero;
     output := replicate (Z.to_nat _blocksize) fzero;
     outputdelay := _delay;
     outputlevel := done;
     hqproc := false;
     quitthread := false;
     convolver := new_convolver _blocksize _partitions;
     current_filter := None;
     filter := None;
     delaypos := 0;
     delay := replicate (Z.to_nat (calc_delaylen _blocksize)) fzero;
     level1 := done;
     delay1 := dzero |}.

(** The members that [StartConvolution] writes. *)
Definition with_start (w : t) (inp : list float) (zb : Z) (sig : bool) : t :=
  {| startsignal := sig; donesignal := donesignal w; thread := thread w;
     blocksize := blocksize w; partitions := partitions w;
     zeroblocks := zb; maxzeroblocks := maxzeroblocks w; convindex := convindex w;
     input := inp; output := output w;
     outputdelay := outputdelay w; outputlevel := outputlevel w;
     hqproc := hqproc w; quitthread := quitthread w;
     convolver := convolver w; current_filter := current_filter w; filter := filter w;
     delaypos := delaypos w; delay := delay w; level1 := level1 w; delay1 := delay1 w |}.

(** The de-interleaving loop: [input[i] = _input[i * inputchannels];
    nonzero |= (input[i] != 0.0);] *)
Definition copy_input (_input : list float) (inputchannels : Z) (i : Z)
    (acc : list float * bool) : list float * bool :=
  let x := rd _input (UInt.mul i inputchannels) in
  (wr (fst acc) i x, snd acc || negb (deqb (double_of_float x) dzero)).

Definition StartConvolution (w : t) (_input : list float) (inputchannels : Z) : t :=
  let '(inp, nonzero) :=
    for_loop (blocksize w) (copy_input _input inputchannels) (input w, false) in
  let zb :=
    if nonzero then 0
    else if zeroblocks w <? maxzeroblocks w then UInt.add (zeroblocks w) 1
    else zeroblocks w in
  with_start w inp zb (if zb <? maxzeroblocks w then true else startsignal w).

(** [IsProcessing()] *)
Definition IsProcessing (w : t) : bool := zeroblocks w <? maxzeroblocks w.

Definition with_donesignal (w : t) (sig : bool) : t :=
  {| startsignal := startsignal w; donesignal := sig; thread := thread w;
     blocksize := blocksize w; partitions := partitions w;
     zeroblocks := zeroblocks w; maxzeroblocks := maxzeroblocks w; convindex := convindex w;
     input := input w; output := output w;
     outputdelay := outputdelay w; outputlevel := outputlevel w;
     hqproc := hqproc w; quitthread := quitthread w;
     convolver := convolver w; current_filter := current_filter w; filter := filter w;
     delaypos := delaypos w; delay := delay w; level1 := level1 w; delay1 := delay1 w |}.

(** The mixing loop: [_output[i * outputchannels] += output[i] * level;]
    where [_output] is the buffer [out] at offset [off]. *)
Definition mix_sample (w : t) (off outputchannels : Z) (level : float) (i : Z)
    (out : list float) : list float :=
  let k := off + UInt.mul i outputchannels in
  wr out k (fadd (rd out k) (fmul (rd (output w) i) level)).

(** [EndConvolution(_output, outputchannels, level)], [_output] being
    [out + off].  The wait on [donesignal] returns once the thread has
    signalled, and clears the signal. *)
Definition EndConvolution (w : t) (out : list float) (off outputchannels : Z)
    (level : float) : t * list float :=
  if zeroblocks w <? maxzeroblocks w then
    (with_donesignal w false,
     for_loop (blocksize w) (mix_sample w off outputchannels level) out)
  else (w, out).

(** [SetParameters(level, delay, hqproc)] *)
Definition SetParameters (w : t) (_level _delay : double) (_hqproc : bool) : t :=
  {| startsignal := startsignal w; donesignal := donesignal w; thread := thread w;
     blocksize := blocksize w; partitions := partitions w;
     zeroblocks := zeroblocks w; maxzeroblocks := maxzeroblocks w; convindex := convindex w;
     input := input w; output := output w;
     outputdelay := _delay; outputlevel := _level;
     hqproc := _hqproc; quitthread := quitthread w;
     convolver := convolver w; current_filter := current_filter w; filter := filter w;
     delaypos := delaypos w; delay := delay w; level1 := level1 w; delay1 := delay1 w |}.

Definition with_filter (w : t) (f : option Filter) : t :=
  {| startsignal := startsignal w; donesignal := donesignal w; thread := thread w;
     blocksize := blocksize w; partitions := partitions w;
     zeroblocks := zeroblocks w; maxzeroblocks := maxzeroblocks w; convindex := convindex w;
     input := input w; output := output w;
     outputdelay := outputdelay w; outputlevel := outputlevel w;
     hqproc := hqproc w; quitthread := quitthread w;
     convolver := convolver w; current_filter := current_filter w; filter := f;
     delaypos := delaypos w; delay := delay w; level1 := level1 w; delay1 := delay1 w |}.

(** [SetFilter(newfilter)]: [if (&newfilter != filter) filter = &newfilter;] *)
Definition SetFilter (w : t) (newfilter : Filter) : t :=
  if decide (Some newfilter <> filter w) then with_filter w (Some newfilter) else w.

(** *** The processing thread *)

(** [delaylen] and the extended [maxdelay] of [Process]:
    [maxdelay = delaylen - blocksize - 1 - FractionalSampleAdditionalDelayRequired()]. *)
Definition delaylen (w : t) : Z := calc_delaylen (blocksize w).

Definition maxdelay (w : t) : Z :=
  UInt.sub (UInt.sub (UInt.sub (delaylen w) (blocksize w)) 1)
           FractionalSampleAdditionalDelayRequired.

(** Writing a block of [n] samples at [dest = delay + pos]. *)
Definition store_block (mem : list float) (pos n : Z) (blk : list float) : list float :=
  for_loop n (fun i m => wr m (pos + i) (rd blk i)) mem.

(** [Convolver::Convolve(dest)]: pick up a new filter (set it the first time,
    crossfade afterwards), then [convolver.filter_block(input, dest)].
    Returns the convolver, the current filter and the block for [dest]. *)
Definition Convolve (w : t) : BlockConvolver * option Filter * list float :=
  let '(c, cur) :=
    match filter w with
    | Some f =>
        if decide (filter w <> current_filter w) then
          (match current_filter w with
           | None => set_filter (convolver w) f
           | Some _ => crossfade_filter (convolver w) f
           end, filter w)
        else (convolver w, current_filter w)
    | None => (convolver w, current_filter w)
    end in
  let '(c', blk) := filter_block c (input w) in
  (c', cur, blk).

(** The interpolation coefficients of sample [i]:
    [b = (double)i / (double)blocksize, a = 1.0 - b]. *)
Definition coef_b (B i : Z) : double := ddiv (double_of_Z i) (double_of_Z B).
Definition coef_a (B i : Z) : double := dsub done (coef_b B i).

(** [a * x1 + b * x2] *)
Definition ramp (B i : Z) (x1 x2 : double) : double :=
  dadd (dmul (coef_a B i) x1) (dmul (coef_b B i) x2).

(** The body of the high-quality loop:
    [output[i] = level * FractionalSample(delay, 0, 1, delaylen, fpos);] *)
Definition hq_sample (B D : Z) (mem : list float) (fpos1 fpos2 lev1 lev2 : double)
    (i : Z) (out : list float) : list float :=
  let fpos := ramp B i fpos1 fpos2 in
  let level := ramp B i lev1 lev2 in
  wr out i (float_of_double (dmul level (FractionalSample mem 0 1 D fpos))).

(** The body of the low-quality loop:
    [output[i] = level * delay[(uint_t)fpos % delaylen];] *)
Definition lq_sample (B D : Z) (mem : list float) (fpos1 fpos2 lev1 lev2 : double)
    (i : Z) (out : list float) : list float :=
  let fpos := ramp B i fpos1 fpos2 in
  let level := ramp B i lev1 lev2 in
  wr out i (float_of_double
              (dmul level (double_of_float (rd mem (UInt.rem (uint_of_double fpos) D))))).

(** One iteration of the loop of [Process], from the return of
    [startsignal.Wait()] (with [quitthread] false) to [donesignal.Signal()]. *)
Definition Process_block (w : t) : t :=
  let B := blocksize w in
  let D := delaylen w in
  (* decide whether there's any need to perform convolution *)
  let '(c, cur, mem) :=
    if zeroblocks w <? partitions w then
      let '(c, cur, blk) := Convolve w in
      (c, cur, store_block (delay w) (delaypos w) B blk)
    else
      (convolver w, current_filter w,
       store_block (delay w) (delaypos w) B (replicate (Z.to_nat B) fzero)) in
  (* process delay memory using specified delay *)
  let pos1 := UInt.add (delaypos w) D in
  let level2 := outputlevel w in
  let delay2 := MIN (outputdelay w) (double_of_Z (maxdelay w)) in
  let fpos1 := dsub (double_of_Z pos1) (delay1 w) in
  let fpos2 := dsub (double_of_Z (UInt.add pos1 B)) delay2 in
  let out :=
    if hqproc w
    then for_loop B (hq_sample B D mem fpos1 fpos2 (level1 w) level2) (output w)
    else for_loop B (lq_sample B D mem fpos1 fpos2 (level1 w) level2) (output w) in
  {| startsignal := false; donesignal := true; thread := thread w;
     blocksize := blocksize w; partitions := partitions w;
     zeroblocks := zeroblocks w; maxzeroblocks := maxzeroblocks w; convindex := convindex w;
     input := input w; output := out;
     outputdelay := outputdelay w; outputlevel := outputlevel w;
     hqproc := hqproc w; quitthread := quitthread w;
     convolver := c; current_filter := cur; filter := filter w;
     (* advance delay position by a block *)
     delaypos := UInt.rem (UInt.add (delaypos w) B) D;
     delay := mem; level1 := level2; delay1 := delay2 |}.

Definition thread_exit (w : t) : t :=
  {| startsignal := false; donesignal := donesignal w; thread := false;
     blocksize := blocksize w; partitions := partitions w;
     zeroblocks := zeroblocks w; maxzeroblocks := maxzeroblocks w; convindex := convindex w;
     input := input w; output := output w;
     outputdelay := outputdelay w; outputlevel := outputlevel w;
     hqproc := hqproc w; quitthread := quitthread w;
     convolver := convolver w; current_filter := current_filter w; filter := filter w;
     delaypos := delaypos w; delay := delay w; level1 := level1 w; delay1 := delay1 w |}.

(** What the thread does when it is scheduled: blocked in
    [startsignal.Wait()] until the signal is set; then it leaves the loop on
    [quitthread], or processes one block. *)
Definition Process_step (w : t) : t :=
  if thread w && startsignal w then
    if quitthread w then thread_exit w else Process_block w
  else w.

(** [StopThread()]: set [quitthread], release the thread and join it. *)
Definition StopThread (w : t) : t :=
  if thread w then
    thread_exit
      {| startsignal := true; donesignal := donesignal w; thread := thread w;
         blocksize := blocksize w; partitions := partitions w;
         zeroblocks := zeroblocks w; maxzeroblocks := maxzeroblocks w;
         convindex := convindex w;
         input := input w; output := output w;
         outputdelay := outputdelay w; outputlevel := outputlevel w;
         hqproc := hqproc w; quitthread := true;
         convolver := convolver w; current_filter := current_filter w; filter := filter w;
         delaypos := delaypos w; delay := delay w; level1 := level1 w; delay1 := delay1 w |}
  else w.

(** The operations on a worker, and the states a worker reaches from its
    construction. *)
Inductive op :=
| OpStart (_input : list float) (inputchannels : Z)
| OpEnd (out : list float) (off outputchannels : Z) (level : float)
| OpSetParameters (_level _delay : double) (_hqproc : bool)
| OpSetFilter (newfilter : Filter)
| OpProcess
| OpStop.

Definition apply_op (o : op) (w : t) : t :=
  match o with
  | OpStart i c => StartConvolution w i c
  | OpEnd out off c l => fst (EndConvolution w out off c l)
  | OpSetParameters l d h => SetParameters w l d h
  | OpSetFilter f => SetFilter w f
  | OpProcess => Process_step w
  | OpStop => StopThread w
  end.

Inductive reachable : t -> Prop :=
| reach_new i B P d : reachable (new i B P d)
| reach_op o w : reachable w -> reachable (apply_op o w).

End Worker.
End Convolver.

(** *** Well-formed workers *)

Section WorkerInvariant.
Context `{BlockConvolverLib}.

(** What holds of a worker in every state it reaches. *)
Record worker_invariant (w : Convolver.t) : Prop := {
  inv_maxzeroblocks :
    Convolver.maxzeroblocks w =
    calc_maxzeroblocks (Convolver.partitions w) (Convolver.blocksize w);
  inv_zeroblocks : 0 <= Convolver.zeroblocks w <= Convolver.maxzeroblocks w;
  inv_input : length (Convolver.input w) = Z.to_nat (Convolver.blocksize w);
  inv_output : length (Convolver.output w) = Z.to_nat (Convolver.blocksize w);
  inv_delay : length (Convolver.delay w) = Z.to_nat (calc_delaylen (Convolver.blocksize w))
}.

(** A well-formed worker of block size [B]. *)
Definition worker_wf (B : Z) (w : Convolver.t) : Prop :=
  worker_invariant w /\ Convolver.blocksize w = B.

(** Two states of a worker that differ at most in what a tick does not look
    at when it mixes: same block size, same counters, same blocks. *)
Definition same_audio (w1 w2 : Convolver.t) : Prop :=
  Convolver.blocksize w2 = Convolver.blocksize w1 /\
  Convolver.zeroblocks w2 = Convolver.zeroblocks w1 /\
  Convolver.maxzeroblocks w2 = Convolver.maxzeroblocks w1 /\
  Convolver.input w2 = Convolver.input w1 /\
  Convolver.output w2 = Convolver.output w1.

End WorkerInvariant.

(** ** The manager: [class ConvolverManager] *)

Module ConvolverManager.
Import FP.

(** [FILTER_FADE], times in seconds *)
Record FILTER_FADE := {
  fade_in_start : double;
  fade_in_length : double;
  fade_out_start : double;
  fade_out_length : double
}.

Definition defaultfade : FILTER_FADE :=
  {| fade_in_start := dzero; fade_in_length := dzero;
     fade_out_start := dzero; fade_out_length := dzero |}.

(** [CalcPartitions(fade, samplerate, filterlen, blocksize, start, len)]:
    the returned number of partitions, and the two reference results
    [start] and [len]. *)
Definition CalcPartitions (fade : FILTER_FADE) (samplerate : double)
    (filterlen blocksize : Z) : Z * Z * Z :=
  let start := uint_of_floor (dmul (MAX (fade_in_start fade) dzero) samplerate) in
  let len :=
    if deqb (dadd (fade_out_start fade) (fade_out_length fade)) dzero
    then UInt.sub filterlen start
    else
      let len0 :=
        uint_of_ceil
          (dmul (MAX (dsub (dadd (fade_out_start fade) (fade_out_length fade))
                           (fade_in_start fade)) dzero)
                samplerate) in
      umin len0 (UInt.sub filterlen start) in
  (UInt.div (UInt.sub (UInt.add len blocksize) 1) blocksize, start, len).

(** [PARAMETERS] *)
Record PARAMETERS := {
  irindex : Z;
  delay : double;
  level : double
}.

(** a value-initialised [PARAMETERS], as [parameters.resize] creates them *)
Definition PARAMETERS_zero : PARAMETERS :=
  {| irindex := 0; delay := dzero; level := dzero |}.

(** What [ERROR(...)] sends to the diagnostics channel. *)
Inductive diagnostic :=
| ErrPartitionSizeAfterConvolvers
| ErrOutOfBoundsIR (ir : Z)
| ErrOutOfBoundsConvolver (convolver : Z).

Section Manager.
Context `{BlockConvolverLib} `{FractionalSampleLib}.

Record t := mk {
  blocksize : Z;
  partitions : Z;
  convolvers : list Convolver.t;
  filters : list Filter;
  (** pairs (dynamic delay, static delay) *)
  irdelays : list (double * double);
  parameters : list PARAMETERS;
  delayscale : double;
  maxdelay : double;
  audioscale : float;
  hqproc : bool;
  updateparameters : bool;
  errors : list diagnostic
}.

Definition size {A} (v : list A) : Z := Z.of_nat (length v).

(** [ConvolverManager(partitionsize)] ([maxdelay] is not initialised by the
    constructor; it is zero here). *)
Definition new (partitionsize : Z) : t :=
  {| blocksize := partitionsize; partitions := 0;
     convolvers := []; filters := []; irdelays := []; parameters := [];
     delayscale := done; maxdelay := dzero; audioscale := fone;
     hqproc := true; updateparameters := true; errors := [] |}.

Definition with_convolvers (m : t) (cs : list Convolver.t) : t :=
  {| blocksize := blocksize m; partitions := partitions m;
     convolvers := cs; filters := filters m; irdelays := irdelays m;
     parameters := parameters m; delayscale := delayscale m; maxdelay := maxdelay m;
     audioscale := audioscale m; hqproc := hqproc m;
     updateparameters := updateparameters m; errors := errors m |}.

Definition with_parameters (m : t) (ps : list PARAMETERS) : t :=
  {| blocksize := blocksize m; partitions := partitions m;
     convolvers := convolvers m; filters := filters m; irdelays := irdelays m;
     parameters := ps; delayscale := delayscale m; maxdelay := maxdelay m;
     audioscale := audioscale m; hqproc := hqproc m;
     updateparameters := updateparameters m; errors := errors m |}.

Definition with_updateparameters (m : t) (b : bool) : t :=
  {| blocksize := blocksize m; partitions := partitions m;
     convolvers := convolvers m; filters := filters m; irdelays := irdelays m;
     parameters := parameters m; delayscale := delayscale m; maxdelay := maxdelay m;
     audioscale := audioscale m; hqproc := hqproc m;
     updateparameters := b; errors := errors m |}.

Definition with_irdelays (m : t) (ds : list (double * double)) (md : double) : t :=
  {| blocksize := blocksize m; partitions := partitions m;
     convolvers := convolvers m; filters := filters m; irdelays := ds;
     parameters := parameters m; delayscale := delayscale m; maxdelay := md;
     audioscale := audioscale m; hqproc := hqproc m;
     updateparameters := updateparameters m; errors := errors m |}.

Definition report (m : t) (e : diagnostic) : t :=
  {| blocksize := blocksize m; partitions := partitions m;
     convolvers := convolvers m; filters := filters m; irdelays := irdelays m;
     parameters := parameters m; delayscale := delayscale m; maxdelay := maxdelay m;
     audioscale := audioscale m; hqproc := hqproc m;
     updateparameters := updateparameters m; errors := errors m ++ [e] |}.

(** [SetPartitionSize(partitionsize)] *)
Definition SetPartitionSize (m : t) (partitionsize : Z) : t :=
  if size (convolvers m) =? 0 then
    {| blocksize := partitionsize; partitions := partitions m;
       convolvers := convolvers m; filters := filters m; irdelays := irdelays m;
       parameters := parameters m; delayscale := delayscale m; maxdelay := maxdelay m;
       audioscale := audioscale m; hqproc := hqproc m;
       updateparameters := updateparameters m; errors := errors m |}
  else report m ErrPartitionSizeAfterConvolvers.

(** [LoadIRDelays(filename)]; [file] is the list of pairs that [fscanf]
    reads from the file, or [None] when there is no file name or the file
    cannot be opened. *)
Definition LoadIRDelays (m : t) (file : option (list (double * double))) : t :=
  let m0 := with_irdelays m [] dzero in
  match file with
  | Some pairs => with_updateparameters (with_irdelays m0 (irdelays m0 ++ pairs) dzero) true
  | None => m0
  end.

(** The loop of [SetIRDelays]:
    [irdelays[i] = pair(delays_dynamic[i], delays_static[i]);
     maxdelay = MAX(maxdelay, irdelays[i].first + irdelays[i].second);] *)
Definition set_delay (delays_dynamic delays_static : list double) (i : Z)
    (acc : list (double * double) * double) : list (double * double) * double :=
  let p := (delays_dynamic !!! Z.to_nat i, delays_static !!! Z.to_nat i) in
  (<[Z.to_nat i := p]> (fst acc), MAX (snd acc) (dadd (fst p) (snd p))).

(** [SetIRDelays(delays_dynamic, num_delays, delays_static)] *)
Definition SetIRDelays (m : t) (delays_dynamic : list double) (num_delays : Z)
    (delays_static : list double) : t :=
  let m0 := with_irdelays m [] dzero in
  if negb (num_delays =? 0) then
    let resized := replicate (Z.to_nat num_delays) (dzero, dzero) in
    let '(ds, md) :=
      for_loop (size resized) (set_delay delays_dynamic delays_static) (resized, dzero) in
    with_irdelays m0 ds md
  else m0.

(** [SetDelayScale(scale)] and [EnableHQProcessing(enable)] (Convolver.h) *)
Definition SetDelayScale (m : t) (scale : double) : t :=
  {| blocksize := blocksize m; partitions := partitions m;
     convolvers := convolvers m; filters := filters m; irdelays := irdelays m;
     parameters := parameters m; delayscale := scale; maxdelay := maxdelay m;
     audioscale := audioscale m; hqproc := hqproc m;
     updateparameters := true; errors := errors m |}.

Definition EnableHQProcessing (m : t) (enable : bool) : t :=
  {| blocksize := blocksize m; partitions := partitions m;
     convolvers := convolvers m; filters := filters m; irdelays := irdelays m;
     parameters := parameters m; delayscale := delayscale m; maxdelay := maxdelay m;
     audioscale := audioscale m; hqproc := enable;
     updateparameters := true; errors := errors m |}.

(** The delay of an IR: if a delay is available for this IR, scale the
    dynamic part by delayscale and add to static part:
    [(ir < irdelays.size()) ? irdelays[ir].second + (irdelays[ir].first * delayscale) : 0.0] *)
Definition scaled_delay (m : t) (ir : Z) : double :=
  if ir <? size (irdelays m) then
    match irdelays m !! Z.to_nat ir with
    | Some p => dadd (snd p) (dmul (fst p) (delayscale m))
    | None => dzero
    end
  else dzero.

(** [UpdateConvolverParameters(convolver)].  [parameters] has an entry for
    every convolver; were it shorter, the C++ would read outside the vector,
    and the embedding leaves the manager as it is. *)
Definition UpdateConvolverParameters (m : t) (convolver : Z) : t :=
  if convolver <? size (convolvers m) then
    match parameters m !! Z.to_nat convolver, convolvers m !! Z.to_nat convolver with
    | Some params, Some conv =>
        let ir := irindex params in
        if ir <? size (filters m) then
          match filters m !! Z.to_nat ir with
          | Some f =>
              let d := scaled_delay m ir in
              let conv1 := Convolver.SetFilter conv f in
              let conv2 :=
                Convolver.SetParameters conv1 (level params) (dadd d (delay params))
                                        (hqproc m) in
              with_convolvers m (<[Z.to_nat convolver := conv2]> (convolvers m))
          | None => m
          end
        else m
    | _, _ => m
    end
  else m.

(** [SelectIR(convolver, ir, level, delay)] *)
Definition SelectIR (m : t) (convolver ir : Z) (_level _delay : double) : bool * t :=
  if convolver <? size (convolvers m) then
    if ir <? size (filters m) then
      let m1 :=
        with_parameters m
          (<[Z.to_nat convolver := {| irindex := ir; delay := _delay; level := _level |}]>
             (parameters m)) in
      (true, UpdateConvolverParameters m1 convolver)
    else (false, report m (ErrOutOfBoundsIR ir))
  else (false, report m (ErrOutOfBoundsConvolver convolver)).

(** [parameters.resize(n)] *)
Definition resize_parameters (ps : list PARAMETERS) (n : Z) : list PARAMETERS :=
  take (Z.to_nat n) ps ++ replicate (Z.to_nat n - length ps) PARAMETERS_zero.

(** The first loop of [SetConvolverCount]: create convolvers, each with the
    default IR selected ([SelectIR(convolvers.size() - 1, 0)], level 1.0,
    delay 0.0). *)
Fixpoint create_convolvers (fuel : nat) (m : t) : t :=
  match fuel with
  | O => m
  | S k =>
      let conv := Convolver.new (size (convolvers m)) (blocksize m) (partitions m) dzero in
      let m1 := with_convolvers m (convolvers m ++ [conv]) in
      create_convolvers k (snd (SelectIR m1 (size (convolvers m1) - 1) 0 done dzero))
  end.

(** [SetConvolverCount(nconvolvers)] *)
Definition SetConvolverCount (m : t) (nconvolvers : Z) : t :=
  let m1 := with_parameters m (resize_parameters (parameters m) nconvolvers) in
  let m2 := create_convolvers (Z.to_nat nconvolvers - length (convolvers m1)) m1 in
  (* delete excessive convolvers *)
  with_convolvers m2 (take (Z.to_nat nconvolvers) (convolvers m2)).

(** The body of the first loop of [Convolve]:
    [if (updateparameters) UpdateConvolverParameters(i);
     convolvers[i]->StartConvolution(input + i / outputchannels, inputchannels);] *)
Definition start_convolver (input : list float) (inputchannels outputchannels : Z)
    (i : Z) (m : t) : t :=
  let m1 := if updateparameters m then UpdateConvolverParameters m i else m in
  match convolvers m1 !! Z.to_nat i with
  | Some conv =>
      with_convolvers m1
        (<[Z.to_nat i :=
             Convolver.StartConvolution conv
               (drop (Z.to_nat (UInt.div i outputchannels)) input) inputchannels]>
           (convolvers m1))
  | None => m1
  end.

(** The body of the second loop:
    [convolvers[i]->EndConvolution(output + (i % outputchannels), outputchannels, audioscale);] *)
Definition end_convolver (outputchannels : Z) (i : Z) (acc : t * list float)
    : t * list float :=
  let '(m, out) := acc in
  match convolvers m !! Z.to_nat i with
  | Some conv =>
      let '(conv', out') :=
        Convolver.EndConvolution conv out (UInt.rem i outputchannels) outputchannels
                                 (audioscale m) in
      (with_convolvers m (<[Z.to_nat i := conv']> (convolvers m)), out')
  | None => acc
  end.

(** [Convolve(input, output, inputchannels, outputchannels)].  Between the
    two loops every thread that was released processes its block; the wait
    in [EndConvolution] returns after that. *)
Definition Convolve (m : t) (input output : list float)
    (inputchannels outputchannels : Z) : t * list float :=
  (* start parallel convolving on all channels *)
  let m1 :=
    for_loop (size (convolvers m)) (start_convolver input inputchannels outputchannels) m in
  (* clear flag *)
  let m2 := with_updateparameters m1 false in
  let m3 := with_convolvers m2 (Convolver.Process_step <$> convolvers m2) in
  (* now process outputs *)
  for_loop (size (convolvers m3)) (end_convolver outputchannels) (m3, output).

(** What a loader of the library ([CreateIRs], [LoadIRsSndFile],
    [LoadIRsSOFA]) leaves in the manager, whatever the data it reads: the
    filters are replaced, [partitions] is the count it computed (or the old
    one, when it created no filter), and it may have requested an update. *)
Definition with_library (m : t) (fs : list Filter) (P : Z) (update : bool) : t :=
  {| blocksize := blocksize m; partitions := P;
     convolvers := convolvers m; filters := fs; irdelays := irdelays m;
     parameters := parameters m; delayscale := delayscale m; maxdelay := maxdelay m;
     audioscale := audioscale m; hqproc := hqproc m;
     updateparameters := updateparameters m || update; errors := errors m |}.

(** The operations on a manager, and the states a manager reaches from its
    construction. *)
Inductive op :=
| OpSetPartitionSize (partitionsize : Z)
| OpLoadLibrary (fs : list Filter) (P : Z) (update : bool)
| OpLoadIRDelays (file : option (list (double * double)))
| OpSetIRDelays (delays_dynamic : list double) (num_delays : Z) (delays_static : list double)
| OpSetDelayScale (scale : double)
| OpEnableHQProcessing (enable : bool)
| OpSetConvolverCount (nconvolvers : Z)
| OpSelectIR (convolver ir : Z) (_level _delay : double)
| OpConvolve (input output : list float) (inputchannels outputchannels : Z).

Definition apply_op (o : op) (m : t) : t :=
  match o with
  | OpSetPartitionSize n => SetPartitionSize m n
  | OpLoadLibrary fs P u => with_library m fs P u
  | OpLoadIRDelays file => LoadIRDelays m file
  | OpSetIRDelays dd n ds => SetIRDelays m dd n ds
  | OpSetDelayScale s => SetDelayScale m s
  | OpEnableHQProcessing b => EnableHQProcessing m b
  | OpSetConvolverCount n => SetConvolverCount m n
  | OpSelectIR c ir l d => snd (SelectIR m c ir l d)
  | OpConvolve i o ic oc => fst (Convolve m i o ic oc)
  end.

Inductive reachable : t -> Prop :=
| reach_new partitionsize : reachable (new partitionsize)
| reach_op o m : reachable m -> reachable (apply_op o m).

(** A well-formed manager: one parameter entry per convolver, and every
    convolver well formed with the block size of the manager. *)
Definition manager_wf (m : t) : Prop :=
  length (parameters m) = length (convolvers m) /\
  Forall (worker_wf (blocksize m)) (convolvers m).

End Manager.
End ConvolverManager.

(** The specification's readings of the same two quantities, with the
  rounding as the specification writes it. *)
Module Spec.

Definition ceil_ratio (a b : Z) : Z := Qceiling (a # Z.to_pos b).
Definition floor_ratio (a b : Z) : Z := Qfloor (a # Z.to_pos b).

(** [max_zero_blocks = P + ceil(max_extra_delay / B) + 1] *)
Definition max_zero_blocks (P B : Z) : Z := P + ceil_ratio maxadditionaldelay B + 1.

(** [D = (1 + ceil((max_extra_delay + B - 1)/B)) * B] (section 4.6) *)
Definition delay_line_size (B : Z) : Z :=
  (1 + ceil_ratio (maxadditionaldelay + B - 1) B) * B.

(** [D = ceil((max_extra_delay + B)/B) * B] (section 3) *)
Definition delay_line_size_sec3 (B : Z) : Z :=
  ceil_ratio (maxadditionaldelay + B) B * B.

Section WithLibraries.
Context `{BlockConvolverLib} `{FractionalSampleLib}.

(** The silence gate of [StartConvolution]: the block is de-interleaved from
    the input; [zeroblocks] is reset to 0 when one of the [blocksize] samples
    of the block is non-zero, and is otherwise incremented by one, saturating
    at [maxzeroblocks]; the call signals the start exactly when the updated
    counter is below [maxzeroblocks] (so a worker whose signal was clear has
    it set if and only if the counter is below the threshold); and
    [0 <= zeroblocks <= maxzeroblocks] after every operation. *)
Definition silence_gate (w : Convolver.t) (_input : list FP.float) (inputchannels : Z)
    : Prop :=
  let w' := Convolver.StartConvolution w _input inputchannels in
  let B := Convolver.blocksize w in
  let nonzero k :=
    FP.deqb (FP.double_of_float (rd (Convolver.input w') k)) FP.dzero = false in
  (forall k, 0 <= k < B ->
     rd (Convolver.input w') k = rd _input (UInt.mul k inputchannels)) /\
  ((exists k, 0 <= k < B /\ nonzero k) -> Convolver.zeroblocks w' = 0) /\
  ((forall k, 0 <= k < B -> ~ nonzero k) ->
     Convolver.zeroblocks w' =
     Z.min (Convolver.zeroblocks w + 1) (Convolver.maxzeroblocks w)) /\
  Convolver.maxzeroblocks w' = Convolver.maxzeroblocks w /\
  Convolver.startsignal w' =
    (Convolver.startsignal w
     || (Convolver.zeroblocks w' <? Convolver.maxzeroblocks w')) /\
  (Convolver.startsignal w = false ->
     (Convolver.startsignal w' = true <->
      Convolver.zeroblocks w' < Convolver.maxzeroblocks w')) /\
  (forall o, 0 <= Convolver.zeroblocks (Convolver.apply_op o w)
               <= Convolver.maxzeroblocks (Convolver.apply_op o w)).

(** The interpolation of sample [n] of a processed block, in the words of
    the specification: [pos1 = delay_pos + D - prev_delay],
    [pos2 = (delay_pos + B) + D - cur_delay], [a = 1 - n/B], [b = n/B],
    [pos = a * pos1 + b * pos2], [g = a * prev_gain + b * cur_gain]; the delay
    line is read at [floor(pos) mod D] (or, with high quality, at the
    fractional position) and scaled by [g]; [cur_delay] is clamped to
    [D - B - 1 - fractional_extra_delay]; then [delay_pos] advances by [B]
    modulo [D], and the previous delay and gain become the current ones. *)
Definition block_interpolation (w : Convolver.t) (n : Z) : Prop :=
  let B := Convolver.blocksize w in
  let D := Convolver.delaylen w in
  let w' := Convolver.Process_block w in
  let line := Convolver.delay w' in
  let prev_delay := Convolver.delay1 w in
  let prev_gain := Convolver.level1 w in
  let cur_gain := Convolver.outputlevel w in
  let limit := D - B - 1 - FractionalSampleAdditionalDelayRequired in
  let cur_delay := FP.MIN (Convolver.outputdelay w) (FP.double_of_Z limit) in
  let pos1 := FP.dsub (FP.double_of_Z (Convolver.delaypos w + D)) prev_delay in
  let pos2 := FP.dsub (FP.double_of_Z (Convolver.delaypos w + B + D)) cur_delay in
  let b := FP.ddiv (FP.double_of_Z n) (FP.double_of_Z B) in
  let a := FP.dsub FP.done b in
  let pos := FP.dadd (FP.dmul a pos1) (FP.dmul b pos2) in
  let g := FP.dadd (FP.dmul a prev_gain) (FP.dmul b cur_gain) in
  Z.of_nat (length line) = D /\
  (Convolver.hqproc w = false ->
   forall k, FP.Zfloor pos = Some k -> 0 <= k < UInt.modulus ->
     rd (Convolver.output w') n
     = FP.float_of_double (FP.dmul g (FP.double_of_float (rd line (k mod D))))) /\
  (Convolver.hqproc w = true ->
     rd (Convolver.output w') n
     = FP.float_of_double (FP.dmul g (FractionalSample line 0 1 D pos))) /\
  FP.dltb (FP.double_of_Z limit) cur_delay = false /\
  Convolver.delaypos w' = (Convolver.delaypos w + B) mod D /\
  Convolver.delay1 w' = cur_delay /\
  Convolver.level1 w' = cur_gain.

(** The contract of [SelectIR]: it returns true exactly when both indices
    are in range; it then stores the parameters and updates that worker, and
    only that worker; otherwise it returns false and leaves the parameter
    table and the workers unchanged. *)
Definition select_ir (m : ConvolverManager.t) (convolver ir : Z)
    (_level _delay : FP.double) : Prop :=
  let r := ConvolverManager.SelectIR m convolver ir _level _delay in
  (fst r = true <->
   convolver < ConvolverManager.size (ConvolverManager.convolvers m) /\
   ir < ConvolverManager.size (ConvolverManager.filters m)) /\
  (fst r = true ->
     ConvolverManager.parameters (snd r) !! Z.to_nat convolver
       = Some {| ConvolverManager.irindex := ir;
                 ConvolverManager.delay := _delay;
                 ConvolverManager.level := _level |} /\
     (forall j, j <> Z.to_nat convolver ->
        ConvolverManager.parameters (snd r) !! j = ConvolverManager.parameters m !! j) /\
     (exists conv f,
        ConvolverManager.convolvers m !! Z.to_nat convolver = Some conv /\
        ConvolverManager.filters m !! Z.to_nat ir = Some f /\
        ConvolverManager.convolvers (snd r) !! Z.to_nat convolver
          = Some (Convolver.SetParameters (Convolver.SetFilter conv f) _level
                    (FP.dadd (ConvolverManager.scaled_delay m ir) _delay)
                    (ConvolverManager.hqproc m))) /\
     (forall j, j <> Z.to_nat convolver ->
        ConvolverManager.convolvers (snd r) !! j = ConvolverManager.convolvers m !! j) /\
     ConvolverManager.errors (snd r) = ConvolverManager.errors m) /\
  (fst r = false ->
     ConvolverManager.parameters (snd r) = ConvolverManager.parameters m /\
     ConvolverManager.convolvers (snd r) = ConvolverManager.convolvers m /\
     ConvolverManager.updateparameters (snd r) = ConvolverManager.updateparameters m).

(** What one worker adds to sample [n] of output channel [c]: with
    [gated = false], every worker of that channel adds its output sample
    scaled by [scale]; with [gated = true], only a worker that is processing
    ([zeroblocks < maxzeroblocks]) does. *)
Definition add_worker (gated : bool) (ws : list Convolver.t)
    (scale : FP.float) (outputchannels c n : Z) (i : Z) (acc : FP.float) : FP.float :=
  match ws !! Z.to_nat i with
  | Some w =>
      if (i mod outputchannels =? c) && (negb gated || Convolver.IsProcessing w)
      then FP.fadd acc (FP.fmul (rd (Convolver.output w) n) scale)
      else acc
  | None => acc
  end.

(** Sample [n] of output channel [c] after the workers [ws], in the order of
    their indices, have added to [x0]. *)
Definition channel_mix (gated : bool) (ws : list Convolver.t)
    (scale : FP.float) (outputchannels c n : Z) (x0 : FP.float) : FP.float :=
  for_loop (Z.of_nat (length ws)) (add_worker gated ws scale outputchannels c n) x0.

(** The routing of one tick: every worker [i] holds channel
    [floor(i / outputchannels)] of the interleaved input, and every output
    sample is the one given accumulated with the contributions of the
    workers of its channel. *)
Definition tick_routing (gated : bool) (B : Z)
    (ws' : list Convolver.t) (scale : FP.float)
    (input output output' : list FP.float) (inputchannels outputchannels : Z) : Prop :=
  (forall i w' n, ws' !! Z.to_nat i = Some w' -> 0 <= i -> 0 <= n < B ->
     rd (Convolver.input w') n = rd input (n * inputchannels + i / outputchannels)) /\
  (forall n c, 0 <= n < B -> 0 <= c < outputchannels ->
     rd output' (n * outputchannels + c)
     = channel_mix gated ws' scale outputchannels c n (rd output (n * outputchannels + c))).

End WithLibraries.

End Spec.

(** ** Concrete libraries and states, for the examples below *)

Module Examples.
Import FP.

(** A block convolver whose filters are all the unit impulse: every block
    passes through unchanged.  A filter is told apart by a number. *)
Definition passthrough : BlockConvolverLib :=
  {| Filter := Z;
     BlockConvolver := unit;
     new_convolver := fun _ _ => tt;
     set_filter := fun c _ => c;
     crossfade_filter := fun c _ => c;
     filter_block := fun c blk => (c, blk) |}.

(** A fractional-sample reader that needs no additional delay and reads the
    sample below the position. *)
Definition nearest : FractionalSampleLib :=
  {| FractionalSampleAdditionalDelayRequired := 0;
     FractionalSample := fun buf _ _ len pos =>
       double_of_float (rd buf (UInt.rem (uint_of_double pos) len)) |}.

(** The double [n / d]. *)
Definition ratio (n d : Z) : double := ddiv (double_of_Z n) (double_of_Z d).

Definition f1 : float := fone.
Definition f2 : float := float_of_double (double_of_Z 2).

#[local] Existing Instances passthrough nearest.

(** A worker of block size 4 with 2 partitions, as constructed, and after
    the start of a block. *)
Definition worker0 : Convolver.t := Convolver.new 0 4 2 dzero.
Definition block0 : list float := [f1; fzero; f2; fzero].
Definition worker1 : Convolver.t := Convolver.StartConvolution worker0 block0 1.

(** A worker of block size 128 with 2 partitions. *)
Definition worker128 : Convolver.t := Convolver.new 0 128 2 dzero.

(** A manager of block size 4 after its delays (dynamic, static) and a
    library of two filters of two partitions have been installed, before any
    convolver exists; then with two convolvers; then with IR 1 selected for
    convolver 1. *)
Definition filters2 : list Filter := [8; 5].

Definition library : ConvolverManager.t :=
  ConvolverManager.apply_op (ConvolverManager.OpLoadLibrary filters2 2 true)
    (ConvolverManager.apply_op
       (ConvolverManager.OpSetIRDelays [ratio 3 2; ratio 1 2] 2 [double_of_Z 2; dzero])
       (ConvolverManager.apply_op (ConvolverManager.OpEnableHQProcessing false)
          (ConvolverManager.new 4))).

Definition manager2 : ConvolverManager.t :=
  ConvolverManager.apply_op (ConvolverManager.OpSetConvolverCount 2) library.

Definition params1 : ConvolverManager.PARAMETERS :=
  {| ConvolverManager.irindex := 1;
     ConvolverManager.delay := double_of_Z 4;
     ConvolverManager.level := ratio 1 2 |}.


Definition manager3 : ConvolverManager.t :=
  ConvolverManager.apply_op
    (ConvolverManager.OpSelectIR 1 (ConvolverManager.irindex params1)
       (ConvolverManager.level params1) (ConvolverManager.delay params1))
    manager2.

(** Convolver [i] of a manager. *)
Definition nth_convolver (m : ConvolverManager.t) (i : nat) : Convolver.t :=
  nth i (ConvolverManager.convolvers m) (Convolver.new 0 0 0 dzero).

(** The same manager after the library has been replaced by a single filter:
    the IR index 1 stored for convolver 1 is now out of range. *)
Definition reloaded : ConvolverManager.t :=
  ConvolverManager.with_library manager3 [8] 2 true.

(** One tick on a mono input into a cleared stereo output. *)
Definition stereo_silence : list float := replicate 8 fzero.
Definition tick2 : ConvolverManager.t * list float :=
  ConvolverManager.Convolve manager3 block0 stereo_silence 1 2.

(** The manager after a tick (the update flag is then clear), and after new
    delays have been installed with [SetIRDelays]. *)
Definition after_tick : ConvolverManager.t := fst tick2.
Definition new_delays : ConvolverManager.t :=
  ConvolverManager.SetIRDelays after_tick
    [double_of_Z 5; double_of_Z 6] 2 [double_of_Z 7; double_of_Z 8].


(** The silence gate at work: block size 7, one filter of one partition,
    one convolver with a delay of 2400 samples.  A block of ones goes in,
    followed by blocks of silence. *)
Definition mono : ConvolverManager.t :=
  ConvolverManager.with_library
    (ConvolverManager.EnableHQProcessing (ConvolverManager.new 7) false) [7] 1 true.

Definition ones7 : list float := replicate 7 fone.
Definition zeros7 : list float := replicate 7 fzero.

Definition mono_tick (inp : list float) (m : ConvolverManager.t) : ConvolverManager.t :=
  fst (ConvolverManager.Convolve m inp zeros7 1 1).

Definition mono_started : ConvolverManager.t :=
  mono_tick ones7
    (snd (ConvolverManager.SelectIR (ConvolverManager.SetConvolverCount mono 1)
            0 0 done (double_of_Z 2400))).

(** After 343 blocks of silence the delayed block has just come out; the
    next block of silence closes the gate. *)
Definition mono_flushed : ConvolverManager.t := Nat.iter 343 (mono_tick zeros7) mono_started.

End Examples.

(** ** More of the manager: fades, [CreateIRs] and the SOFA layout *)

(** [cos] of the C library. *)
Class LibM := {
  cos : FP.double -> FP.double
}.

(** The constructor of a filter,
    [BlockConvolver::Filter(ctx, blocksize, len, data)]. *)
Class FilterLib `{BlockConvolverLib} := {
  make_filter : Z -> Z -> list FP.float -> Filter
}.

Module IRLibrary.
Import FP.
Import ConvolverManager.

(** [M_PI] and [.5] as doubles. *)
Definition M_PI : double := S754_finite false 7074237752028440 (-51).
Definition half : double := S754_finite false 4503599627370496 (-53).

(** [std::vector<float>::resize(n)]: the first [n] elements are kept, new
    elements are zero. *)
Definition resize (v : list float) (n : Z) : list float :=
  take (Z.to_nat n) v ++ replicate (Z.to_nat n - length v) fzero.

Section Fades.
Context `{LibM}.

(** The body of the two loops of [CreateFades]:
    [v = MIN((double)i * scale, 1.0); fade[i] = (float)(.5 - .5 * cos(v * M_PI));] *)
Definition fade_sample (scale : double) (i : Z) (v : list float) : list float :=
  let x := MIN (dmul (double_of_Z i) scale) done in
  wr v i (float_of_double (dsub half (dmul half (cos (dmul x M_PI))))).

(** One half of [CreateFades], which treats the fade in and the fade out
    alike: [len = (uint_t)ceil(length * samplerate); fade.resize(len);
    if (len) { scale = 1.0 / (length * samplerate); for (...) ... }] *)
Definition create_fade (fade_length samplerate : double) (v0 : list float)
    : list float :=
  let len := uint_of_ceil (dmul fade_length samplerate) in
  let v := resize v0 len in
  if negb (len =? 0) then
    let scale := ddiv done (dmul fade_length samplerate) in
    for_loop len (fade_sample scale) v
  else v.

(** [CreateFades(fade, samplerate, fadein, fadeout)]; the two vectors are
    passed by reference, and are returned. *)
Definition CreateFades (fade : FILTER_FADE) (samplerate : double)
    (fadein fadeout : list float) : list float * list float :=
  (create_fade (fade_in_length fade) samplerate fadein,
   create_fade (fade_out_length fade) samplerate fadeout).

End Fades.

(** The two loops of [ApplyFades]: [data[i] *= fadein[i];] and
    [data[len - 1 - i] *= fadeout[i];] *)
Definition fade_in_sample (fadein : list float) (i : Z) (data : list float)
    : list float :=
  wr data i (fmul (rd data i) (rd fadein i)).

Definition fade_out_sample (len : Z) (fadeout : list float) (i : Z) (data : list float)
    : list float :=
  let k := UInt.sub (UInt.sub len 1) i in
  wr data k (fmul (rd data k) (rd fadeout i)).

(** [ApplyFades(data, len, fadein, fadeout)] *)
Definition ApplyFades (data : list float) (len : Z) (fadein fadeout : list float)
    : list float :=
  let data1 := for_loop (size fadein) (fade_in_sample fadein) data in
  for_loop (size fadeout) (fade_out_sample len fadeout) data1.

(** [memcpy(dst, src + off, n * sizeof(float))] *)
Definition copy_block (src : list float) (off n : Z) (dst : list float) : list float :=
  for_loop n (fun k d => wr d k (rd src (off + k))) dst.

Section Loader.
Context `{BlockConvolverLib} `{!FilterLib} `{LibM}.

(** The body of the loop of [CreateIRs]: copy IR [i] from
    [irdata + i * irlength + filterstart] into the buffer, fade it, and append
    its filter. *)
Definition create_ir (irdata : list float) (irlength filterstart filterlen blocksize : Z)
    (fadein fadeout : list float) (i : Z) (acc : list float * list Filter)
    : list float * list Filter :=
  let '(buffer, fs) := acc in
  let buffer1 := copy_block irdata (UInt.mul i irlength + filterstart) filterlen buffer in
  let buffer2 := ApplyFades buffer1 filterlen fadein fadeout in
  (buffer2, fs ++ [make_filter blocksize filterlen buffer2]).

(** [CreateIRs(irdata, numirs, irlength, fade)] *)
Definition CreateIRs (m : t) (irdata : list float) (numirs irlength : Z)
    (fade : FILTER_FADE) : t :=
  if negb (numirs =? 0) && negb (irlength =? 0) then
    let samplerate := double_of_Z 48000 in
    let '(P, filterstart, filterlen) :=
      CalcPartitions fade samplerate irlength (blocksize m) in
    let '(fadein, fadeout) := CreateFades fade samplerate [] [] in
    let buffer := resize [] filterlen in
    let '(_, fs) :=
      for_loop numirs
        (create_ir irdata irlength filterstart filterlen (blocksize m) fadein fadeout)
        (buffer, []) in
    {| blocksize := blocksize m; partitions := P;
       convolvers := convolvers m; filters := fs; irdelays := irdelays m;
       parameters := parameters m; delayscale := delayscale m; maxdelay := maxdelay m;
       audioscale := audioscale m; hqproc := hqproc m;
       (* force update of parameters *)
       updateparameters := true; errors := errors m |}
  else
    {| blocksize := blocksize m; partitions := partitions m;
       convolvers := convolvers m; filters := []; irdelays := irdelays m;
       parameters := parameters m; delayscale := delayscale m; maxdelay := maxdelay m;
       audioscale := audioscale m; hqproc := hqproc m;
       updateparameters := updateparameters m; errors := errors m |}.

(** [NumIRs()] and [SamplesBuffered()] *)
Definition NumIRs (m : t) : Z := size (filters m).

Definition SamplesBuffered (m : t) : Z :=
  UInt.add (UInt.mul (blocksize m) (partitions m)) maxadditionaldelay.

End Loader.

(** [GetSOFAOffset(file, emitter, measurement, receiver)], where [nr] and
    [ne] are the numbers of receivers and of emitters of the file:
    [measurement * nr * ne + receiver * ne + emitter]. *)
Definition GetSOFAOffset (nr ne : Z) (emitter measurement receiver : Z) : Z :=
  UInt.add (UInt.add (UInt.mul (UInt.mul measurement nr) ne) (UInt.mul receiver ne))
           emitter.

End IRLibrary.

(** ** Sequences of operations on a worker *)

Section WorkerRuns.
Context `{BlockConvolverLib} `{FractionalSampleLib}.

(** The operations [ops] applied to a worker, first to last. *)
Definition run_worker (ops : list Convolver.op) (w : Convolver.t) : Convolver.t :=
  fold_left (fun w o => Convolver.apply_op o w) ops w.

(** A block of silence for a worker of block size [B]: the [B] samples that
    [StartConvolution] reads compare equal to [0.0]. *)
Definition silent_block (B : Z) (_input : list FP.float) (inputchannels : Z) : Prop :=
  forall k, 0 <= k < B ->
    FP.deqb (FP.double_of_float (rd _input (UInt.mul k inputchannels))) FP.dzero = true.

(** Every block started by [ops] is silent. *)
Definition starts_silent (B : Z) (ops : list Convolver.op) : Prop :=
  Forall (fun o => match o with
                   | Convolver.OpStart i c => silent_block B i c
                   | _ => True
                   end) ops.

(** The number of blocks started by [ops]. *)
Definition is_start (o : Convolver.op) : bool :=
  match o with
  | Convolver.OpStart _ _ => true
  | _ => false
  end.

Definition count_starts (ops : list Convolver.op) : Z :=
  Z.of_nat (length (List.filter is_start ops)).

End WorkerRuns.

(** A double that is neither a NaN nor an infinity. *)
Definition is_finite (x : FP.double) : bool :=
  match x with
  | S754_zero _ | S754_finite _ _ _ => true
  | _ => false
  end.

(** ** What one tick does to one worker *)

Section PerWorker.
Context `{BlockConvolverLib} `{FractionalSampleLib}.
Import FP.
Import ConvolverManager.

(** The worker that [UpdateConvolverParameters(j)] leaves at index [j], [w]
    being the worker it finds there. *)
Definition updated_worker (m : t) (j : nat) (w : Convolver.t) : Convolver.t :=
  match parameters m !! j with
  | Some params =>
      let ir := irindex params in
      if ir <? size (filters m) then
        match filters m !! Z.to_nat ir with
        | Some f =>
            Convolver.SetParameters (Convolver.SetFilter w f) (level params)
              (dadd (scaled_delay m ir) (delay params)) (hqproc m)
        | None => w
        end
      else w
  | None => w
  end.

(** What [Convolve] does with worker [j]: the update if it is pending, the
    start on the worker's input channel, the block processed by the thread,
    and the end. *)
Definition tick_worker (m : t) (input : list float) (inputchannels outputchannels : Z)
    (j : nat) (w : Convolver.t) : Convolver.t :=
  let w1 := if updateparameters m then updated_worker m j w else w in
  let w2 :=
    Convolver.StartConvolution w1
      (drop (Z.to_nat (UInt.div (Z.of_nat j) outputchannels)) input) inputchannels in
  let w3 := Convolver.Process_step w2 in
  if Convolver.IsProcessing w3 then Convolver.with_donesignal w3 false else w3.

(** The worker that [SetConvolverCount] creates at index [i]:
    [new Convolver(i, blocksize, partitions)] followed by [SelectIR(i, 0)]. *)
Definition default_worker (m : t) (i : Z) : Convolver.t :=
  let conv := Convolver.new i (blocksize m) (partitions m) dzero in
  match filters m !! 0%nat with
  | Some f =>
      Convolver.SetParameters (Convolver.SetFilter conv f) done
        (dadd (scaled_delay m 0) dzero) (hqproc m)
  | None => conv
  end.

Definition default_parameters : PARAMETERS :=
  {| irindex := 0; delay := dzero; level := done |}.

(** The members [SetConvolverCount] reads when it creates a convolver. *)
Definition same_library (m m' : t) : Prop :=
  blocksize m' = blocksize m /\ partitions m' = partitions m /\
  filters m' = filters m /\ irdelays m' = irdelays m /\
  delayscale m' = delayscale m /\ hqproc m' = hqproc m.

End PerWorker.

(** ** Loading the library from a SOFA file *)

Module SOFAFile.
Import FP.
Import ConvolverManager.
Import IRLibrary.

(** What [LoadIRsSOFA] reads from the [SOFA] object: the results of
    [get_ir_length], [get_num_emitters], [get_num_measurements],
    [get_num_receivers], [get_samplerate] (as the [double] the loader holds)
    and [get_all_irs]. *)
Record SOFA := {
  get_ir_length : Z;
  get_num_emitters : Z;
  get_num_measurements : Z;
  get_num_receivers : Z;
  get_samplerate : double;
  get_all_irs : list float
}.

(** [GetSOFAOffset(file, emitter, measurement, receiver)] *)
Definition offset (file : SOFA) (emitter measurement receiver : Z) : Z :=
  GetSOFAOffset (get_num_receivers file) (get_num_emitters file)
                emitter measurement receiver.

(** [CopyIRData(file, index, filterstart, filterlen, buffer)]:
    [buffer.resize(filterlen);
     memcpy(&buffer[0], &allirdata[index * ir_len + filterstart], ...);] *)
Definition CopyIRData (file : SOFA) (index filterstart filterlen : Z)
    (buffer : list float) : list float :=
  copy_block (get_all_irs file)
    (UInt.add (UInt.mul index (get_ir_length file)) filterstart) filterlen
    (resize buffer filterlen).

Section Loader.
Context `{BlockConvolverLib} `{!FilterLib} `{LibM}.

(** The body of the innermost loop of [LoadIRsSOFA]. *)
Definition load_ir (file : SOFA) (blocksize filterstart filterlen : Z)
    (fadein fadeout : list float) (im ir ie : Z) (fs : list Filter) : list Filter :=
  let buffer := CopyIRData file (offset file ie im ir) filterstart filterlen [] in
  let irdata1 := ApplyFades buffer filterlen fadein fadeout in
  fs ++ [make_filter blocksize filterlen irdata1].

(** [LoadIRsSOFA(file, fade)]; the filters are appended to those the manager
    holds ([LoadSOFA] clears them first). *)
Definition LoadIRsSOFA (m : t) (file : SOFA) (fade : FILTER_FADE) : t :=
  let irlength := get_ir_length file in
  let ne := get_num_emitters file in
  let nm := get_num_measurements file in
  let nr := get_num_receivers file in
  let samplerate := get_samplerate file in
  let '(P, filterstart, filterlen) :=
    CalcPartitions fade samplerate irlength (blocksize m) in
  let '(fadein, fadeout) := CreateFades fade samplerate [] [] in
  let fs :=
    for_loop nm (fun im =>                      (* measurements *)
      for_loop nr (fun ir =>                    (* receivers *)
        for_loop ne                             (* emitters *)
          (load_ir file (blocksize m) filterstart filterlen fadein fadeout im ir)))
      (filters m) in
  {| blocksize := blocksize m; partitions := P;
     convolvers := convolvers m; filters := fs; irdelays := irdelays m;
     parameters := parameters m; delayscale := delayscale m; maxdelay := maxdelay m;
     audioscale := audioscale m; hqproc := hqproc m;
     (* force update of parameters *)
     updateparameters := true; errors := errors m |}.

End Loader.
End SOFAFile.

(** ** Static convolvers *)

Module StaticConvolvers.
Import FP.
Import ConvolverManager.
Import IRLibrary.
Import SOFAFile.

(** [STATIC_CONVOLVER_DATA] (Convolver.h) *)
Record STATIC_CONVOLVER_DATA := {
  samplerate : double;
  filterstart : Z;
  filterlen : Z;
  fadein : list float;
  fadeout : list float
}.

Section Static.
Context `{BlockConvolverLib} `{FractionalSampleLib} `{!FilterLib} `{LibM}.

(** [PrepareStaticConvolvers(convolverdata, irlength, samplerate, fade)]:
    the existing convolvers are deleted one by one and the parameters cleared;
    [convolverdata] is passed by reference, and is returned. *)
Definition PrepareStaticConvolvers (m : t) (convolverdata : STATIC_CONVOLVER_DATA)
    (irlength : Z) (_samplerate : double) (fade : FILTER_FADE)
    : t * STATIC_CONVOLVER_DATA :=
  (* calculate number of partitions and filter start/length *)
  let '(P, start, len) := CalcPartitions fade _samplerate irlength (blocksize m) in
  (* create fades *)
  let '(fin, fout) :=
    CreateFades fade _samplerate (fadein convolverdata) (fadeout convolverdata) in
  ({| blocksize := blocksize m; partitions := P;
      convolvers := []; filters := filters m; irdelays := irdelays m;
      parameters := []; delayscale := delayscale m; maxdelay := maxdelay m;
      audioscale := audioscale m; hqproc := hqproc m;
      updateparameters := updateparameters m; errors := errors m |},
   {| samplerate := _samplerate; filterstart := start; filterlen := len;
      fadein := fin; fadeout := fout |}).

(** [CreateStaticConvolver(file, index, delay, convolverdata)].  The sizes
    of the vectors are converted to [uint_t]. *)
Definition CreateStaticConvolver (m : t) (file : SOFA) (index : Z) (_delay : double)
    (convolverdata : STATIC_CONVOLVER_DATA) : t :=
  (* take copy of IR data in order to apply fades *)
  let buffer :=
    CopyIRData file index (filterstart convolverdata) (filterlen convolverdata) [] in
  (* apply fades and create filter *)
  let irdata :=
    ApplyFades buffer (UInt.wrap (size buffer))
               (fadein convolverdata) (fadeout convolverdata) in
  let fs := filters m ++ [make_filter (blocksize m) (UInt.wrap (size buffer)) irdata] in
  let delay1 := dmul _delay (samplerate convolverdata) in
  (* set up new convolver *)
  let params :=
    {| irindex := UInt.wrap (size fs - 1); delay := delay1; level := done |} in
  let conv :=
    Convolver.new (UInt.wrap (size (convolvers m))) (blocksize m) (partitions m) delay1 in
  let conv1 := Convolver.SetParameters conv (level params) (delay params) (hqproc m) in
  {| blocksize := blocksize m; partitions := partitions m;
     convolvers := convolvers m ++ [conv1]; filters := fs; irdelays := irdelays m;
     parameters := parameters m ++ [params]; delayscale := delayscale m;
     maxdelay := maxdelay m; audioscale := audioscale m; hqproc := hqproc m;
     updateparameters := updateparameters m; errors := errors m |}.

End Static.
End StaticConvolvers.

(** ** More concrete states, for the examples below *)

Module MoreExamples.
Import FP.

#[local] Existing Instances Examples.passthrough Examples.nearest.

(** A filter constructor for [passthrough], whose filters are numbers: the
    filter of a response is the position of its first non-zero sample. *)
Fixpoint leading_zeros (data : list float) : Z :=
  match data with
  | x :: rest => if deqb (double_of_float x) dzero then 1 + leading_zeros rest else 0
  | [] => 0
  end.

Definition first_sample : FilterLib :=
  {| make_filter := fun _ _ data => leading_zeros data |}.

(** The first two terms of the series of the cosine, for [cos]. *)
Definition short_cos : LibM :=
  {| cos := fun x => dsub done (dmul IRLibrary.half (dmul x x)) |}.

#[local] Existing Instances first_sample short_cos.

Definition zeros (n : nat) : list float := replicate n fzero.

(** A worker of block size 1200 with one partition: its gate closes after
    [1 + 2400 / 1200 + 1 = 4] blocks of silence. *)
Definition worker1200 : Convolver.t := Convolver.new 0 1200 1 dzero.

Definition silent_starts : list Convolver.op :=
  [Convolver.OpStart (zeros 1200) 1; Convolver.OpProcess;
   Convolver.OpStart (zeros 1200) 1; Convolver.OpStart (zeros 1200) 1;
   Convolver.OpStart (zeros 1200) 1; Convolver.OpProcess].

Definition gated_worker : Convolver.t := run_worker silent_starts worker1200.

(** [worker0] after two blocks of silence, as many as it has partitions. *)
Definition two_silent : list Convolver.op :=
  [Convolver.OpStart (zeros 4) 1; Convolver.OpStart (zeros 4) 1].

Definition flushed_worker : Convolver.t := run_worker two_silent Examples.worker0.

(** [worker0] with a filter set and a block started. *)
Definition filter_set : list Convolver.op :=
  [Convolver.OpSetFilter 8; Convolver.OpStart Examples.block0 1].

Definition fresh_filter : Convolver.t := run_worker filter_set Examples.worker0.

(** The manager [mono_flushed] after one more block of silence: its
    convolver is gated. *)
Definition mono_gated : ConvolverManager.t :=
  Examples.mono_tick Examples.zeros7 Examples.mono_flushed.

(** A new manager of block size 4, and two IRs of 4 samples, the second of
    which starts one sample late. *)
Definition empty4 : ConvolverManager.t := ConvolverManager.new 4.

Definition irdata8 : list float :=
  [Examples.f1; fzero; fzero; fzero; fzero; Examples.f2; fzero; fzero].


(** No fade, but the filter starts 1.5 samples into the IR (at 48 kHz). *)
Definition late_fade : ConvolverManager.FILTER_FADE :=
  {| ConvolverManager.fade_in_start := Examples.ratio 3 96000;
     ConvolverManager.fade_in_length := dzero;
     ConvolverManager.fade_out_start := dzero;
     ConvolverManager.fade_out_length := dzero |}.

(** Four samples and two fades of one sample. *)
Definition data4 : list float := [Examples.f1; Examples.f2; Examples.f1; Examples.f2].
Definition fade_of_one : list float := [float_of_double IRLibrary.half].

(** A SOFA file of 2 measurements, 2 receivers and 3 emitters, with IRs of
    two samples; IR [k] starts with a zero for an odd [k]. *)
Definition sofa12 : SOFAFile.SOFA :=
  {| SOFAFile.get_ir_length := 2;
     SOFAFile.get_num_emitters := 3;
     SOFAFile.get_num_measurements := 2;
     SOFAFile.get_num_receivers := 2;
     SOFAFile.get_samplerate := double_of_Z 48000;
     SOFAFile.get_all_irs :=
       (fun k => float_of_double (double_of_Z ((k + 2) mod 4))) <$> seqZ 0 24 |}.

(** The manager [empty4] prepared for static convolvers on the IRs of
    [sofa12], with the default fade, and a delay of one millisecond. *)
Definition blank_data : StaticConvolvers.STATIC_CONVOLVER_DATA :=
  {| StaticConvolvers.samplerate := dzero;
     StaticConvolvers.filterstart := 0;
     StaticConvolvers.filterlen := 0;
     StaticConvolvers.fadein := [];
     StaticConvolvers.fadeout := [] |}.

Definition prepared : ConvolverManager.t * StaticConvolvers.STATIC_CONVOLVER_DATA :=
  StaticConvolvers.PrepareStaticConvolvers empty4 blank_data 2 (double_of_Z 48000)
    ConvolverManager.defaultfade.

Definition millisecond : double := Examples.ratio 1 1000.

End MoreExamples.

(** * Properties *)

(** ** Arithmetic *)

Lemma wrap_small z : UInt.in_range z -> UInt.wrap z = z.
Proof. unfold UInt.in_range, UInt.wrap. intros. now apply Z.mod_small. Qed.

Lemma wrap_range z : UInt.in_range (UInt.wrap z).
Proof. unfold UInt.in_range, UInt.wrap, UInt.modulus. apply Z.mod_pos_bound. lia. Qed.

Lemma modulus_eq : UInt.modulus = 4294967296.
Proof. reflexivity. Qed.

Lemma floor_ratio_div a b : 0 < b -> Spec.floor_ratio a b = a / b.
Proof.
  intros Hb. unfold Spec.floor_ratio, Qfloor. simpl.
  now rewrite Z2Pos.id.
Qed.

Lemma ceil_ratio_div a b : 0 < b -> Spec.ceil_ratio a b = (a + b - 1) / b.
Proof.
  intros Hb. unfold Spec.ceil_ratio, Qceiling, Qfloor. simpl.
  rewrite Z2Pos.id by assumption.
  replace (a + b - 1) with (- (- a - b + 1)) by lia.
  pose proof (Z.div_mod (- a) b ltac:(lia)) as E1.
  pose proof (Z.mod_pos_bound (- a) b Hb) as B1.
  pose proof (Z.div_mod (- (- a - b + 1)) b ltac:(lia)) as E2.
  pose proof (Z.mod_pos_bound (- (- a - b + 1)) b Hb) as B2.
  nia.
Qed.

(** Without overflow the silence threshold is [P + floor(2400/B) + 1]. *)
Lemma calc_maxzeroblocks_floor P B :
  0 < B -> 0 <= P -> P + maxadditionaldelay / B + 1 < UInt.modulus ->
  calc_maxzeroblocks P B = P + Spec.floor_ratio maxadditionaldelay B + 1.
Proof.
  intros HB HP Hov. rewrite floor_ratio_div by assumption.
  unfold calc_maxzeroblocks, UInt.add, UInt.div.
  assert (0 <= maxadditionaldelay / B) by (apply Z.div_pos; unfold maxadditionaldelay; lia).
  rewrite (wrap_small (P + _)) by (unfold UInt.in_range; lia).
  apply wrap_small. unfold UInt.in_range. lia.
Qed.

(** Without overflow the delay memory has [(1 + floor((2400 + B - 1)/B)) * B]
    samples. *)
Lemma calc_delaylen_floor B :
  0 < B < 2 ^ 31 ->
  calc_delaylen B = (1 + Spec.floor_ratio (maxadditionaldelay + B - 1) B) * B.
Proof.
  intros HB. rewrite floor_ratio_div by lia.
  unfold calc_delaylen, UInt.mul, UInt.add, UInt.sub, UInt.div.
  pose proof modulus_eq as M.
  assert (E31 : 2 ^ 31 = 2147483648) by reflexivity.
  unfold maxadditionaldelay in *.
  rewrite (wrap_small (2400 + B)) by (unfold UInt.in_range; lia).
  rewrite (wrap_small (2400 + B - 1)) by (unfold UInt.in_range; lia).
  assert (Hq : 0 <= (2400 + B - 1) / B) by (apply Z.div_pos; lia).
  assert (Hq2 : (2400 + B - 1) / B * B <= 2400 + B - 1).
  { rewrite Z.mul_comm. apply Z.mul_div_le. lia. }
  assert (Hq3 : (2400 + B - 1) / B <= 2400).
  { apply Z.div_le_upper_bound; nia. }
  rewrite (wrap_small (1 + _)) by (unfold UInt.in_range; lia).
  apply wrap_small. unfold UInt.in_range.
  split; [nia|].
  destruct (Z_lt_le_dec B 2400) as [Hs|Hl].
  - nia.
  - assert ((2400 + B - 1) / B <= 1).
    { apply Z.lt_succ_r. apply Z.div_lt_upper_bound; lia. }
    nia.
Qed.

(** The two readings of the specification that agree with the code: the
    rounded-up quotient of section 3, [ceil((2400 + B)/B) * B]. *)
Lemma delay_line_size_sec3_floor B :
  0 < B ->
  Spec.delay_line_size_sec3 B = (1 + Spec.floor_ratio (maxadditionaldelay + B - 1) B) * B.
Proof.
  intros HB. unfold Spec.delay_line_size_sec3.
  rewrite ceil_ratio_div, floor_ratio_div by assumption.
  f_equal.
  replace (maxadditionaldelay + B + B - 1) with (maxadditionaldelay + B - 1 + 1 * B) by lia.
  rewrite Z.div_add by lia. lia.
Qed.

(** ** Loops and buffers *)

(** A loop invariant, indexed by the counter. *)
Lemma for_upto_invariant {A : Type} (Inv : Z -> A -> Prop) (body : Z -> A -> A) :
  (forall i s, Inv i s -> Inv (i + 1) (body i s)) ->
  forall fuel i s, Inv i s -> Inv (i + Z.of_nat fuel) (for_upto fuel i body s).
Proof.
  intros Hstep fuel. induction fuel as [|k IH]; intros i s Hi.
  - simpl. now rewrite Z.add_0_r.
  - cbn [for_upto]. replace (i + Z.of_nat (S k)) with (i + 1 + Z.of_nat k) by lia.
    apply IH. now apply Hstep.
Qed.

Lemma for_loop_invariant {A : Type} (Inv : Z -> A -> Prop) (body : Z -> A -> A) n s :
  0 <= n ->
  (forall i s, 0 <= i < n -> Inv i s -> Inv (i + 1) (body i s)) ->
  Inv 0 s -> Inv n (for_loop n body s).
Proof.
  intros Hn Hstep H0. unfold for_loop.
  pose proof (for_upto_invariant
                (fun i s => 0 <= i /\ (i <= n -> Inv i s)) body) as L.
  specialize (L ltac:(intros i s' [Hi Hs]; split; [lia|]; intros Hle;
                      apply Hstep; [lia | apply Hs; lia])).
  specialize (L (Z.to_nat n) 0 s ltac:(split; [lia | intros _; exact H0])).
  rewrite Z2Nat.id in L by assumption. simpl in L. apply L. lia.
Qed.

Lemma rd_wr_eq (buf : list FP.float) i x :
  0 <= i < Z.of_nat (length buf) -> rd (wr buf i x) i = x.
Proof.
  intros Hi. unfold rd, wr. apply list_lookup_total_insert_eq. lia.
Qed.

Lemma rd_wr_ne (buf : list FP.float) i j x :
  0 <= i -> 0 <= j -> i <> j -> rd (wr buf i x) j = rd buf j.
Proof.
  intros Hi Hj Hne. unfold rd, wr. apply list_lookup_total_insert_ne. lia.
Qed.

Lemma length_wr (buf : list FP.float) i x : length (wr buf i x) = length buf.
Proof. apply length_insert. Qed.

(** A loop that writes [f i] to element [i] of a buffer fills elements
    [0 .. n-1] and leaves the length and the other elements alone. *)
Lemma for_loop_fill (f : Z -> list FP.float -> FP.float) n (buf : list FP.float) :
  0 <= n <= Z.of_nat (length buf) ->
  (forall i b1 b2, length b1 = length b2 ->
     (forall j, i <= j -> rd b1 j = rd b2 j) -> f i b1 = f i b2) ->
  let res := for_loop n (fun i b => wr b i (f i b)) buf in
  length res = length buf /\
  (forall k, 0 <= k < n -> rd res k = f k buf) /\
  (forall k, n <= k -> rd res k = rd buf k).
Proof.
  intros Hn Hf res. subst res.
  apply (for_loop_invariant
           (fun i b => length b = length buf /\
                       (forall k, 0 <= k < i -> rd b k = f k buf) /\
                       (forall k, i <= k -> rd b k = rd buf k))).
  - lia.
  - intros i b Hi (Hlen & Hlow & Hhigh). rewrite length_wr. split; [assumption|].
    split.
    + intros k Hk. destruct (Z.eq_dec k i) as [->|Hne].
      * rewrite rd_wr_eq by lia. apply Hf; [assumption|]. intros j Hj. now apply Hhigh.
      * rewrite rd_wr_ne by lia. apply Hlow. lia.
    + intros k Hk. rewrite rd_wr_ne by lia. apply Hhigh. lia.
  - split; [reflexivity|]. split; [intros; lia | reflexivity].
Qed.

(** ** The worker *)

Section WorkerProperties.
Context `{BlockConvolverLib} `{FractionalSampleLib}.
Import FP.

Lemma length_store_block mem pos n blk :
  length (Convolver.store_block mem pos n blk) = length mem.
Proof.
  unfold Convolver.store_block, for_loop.
  pose proof (for_upto_invariant (fun _ m => length m = length mem)
                (fun i m => wr m (pos + i) (rd blk i))) as L.
  apply (L ltac:(intros i s Hs; cbn beta in *; now rewrite length_wr) _ 0 mem eq_refl).
Qed.

(** The de-interleaving loop of [StartConvolution]. *)
Lemma copy_input_loop (_input : list float) inputchannels n (inp0 : list float) :
  0 <= n <= Z.of_nat (length inp0) ->
  let res := for_loop n (Convolver.copy_input _input inputchannels) (inp0, false) in
  length (fst res) = length inp0 /\
  (forall k, 0 <= k < n -> rd (fst res) k = rd _input (UInt.mul k inputchannels)) /\
  (snd res = true <->
   exists k, 0 <= k < n /\
     deqb (double_of_float (rd _input (UInt.mul k inputchannels))) dzero = false).
Proof.
  intros Hn res. subst res.
  apply (for_loop_invariant
     (fun i (acc : list float * bool) =>
        length (fst acc) = length inp0 /\
        (forall k, 0 <= k < i -> rd (fst acc) k = rd _input (UInt.mul k inputchannels)) /\
        (snd acc = true <->
         exists k, 0 <= k < i /\
           deqb (double_of_float (rd _input (UInt.mul k inputchannels))) dzero = false))).
  - lia.
  - intros i [inp nz] Hi (Hlen & Hcopy & Hnz). cbn [Convolver.copy_input fst snd] in *.
    rewrite length_wr. split; [assumption|]. split.
    + intros k Hk. destruct (Z.eq_dec k i) as [->|Hne].
      * rewrite rd_wr_eq by lia. reflexivity.
      * rewrite rd_wr_ne by lia. apply Hcopy. lia.
    + rewrite orb_true_iff, negb_true_iff, Hnz. split.
      * intros [(k & Hk & Hz) | Hz]; [exists k | exists i]; (split; [lia | assumption]).
      * intros (k & Hk & Hz). destruct (Z.eq_dec k i) as [->|Hne].
        -- now right.
        -- left. exists k. split; [lia | assumption].
  - cbn. split; [reflexivity|]. split; [intros; lia|].
    split; [discriminate | intros (k & Hk & _); lia].
Qed.

Lemma length_copy_input_loop (_input : list float) inputchannels n (inp0 : list float) :
  length (fst (for_loop n (Convolver.copy_input _input inputchannels) (inp0, false)))
  = length inp0.
Proof.
  unfold for_loop.
  pose proof (for_upto_invariant
                (fun _ (acc : list float * bool) => length (fst acc) = length inp0)
                (Convolver.copy_input _input inputchannels)) as L.
  apply (L ltac:(intros i [inp nz] Hs; cbn [Convolver.copy_input fst snd] in *;
                 now rewrite length_wr) _ 0 (inp0, false) eq_refl).
Qed.

Lemma StartConvolution_invariant w _input inputchannels :
  worker_invariant w ->
  worker_invariant (Convolver.StartConvolution w _input inputchannels).
Proof.
  intros [Hm Hz Hi Ho Hd]. unfold Convolver.StartConvolution.
  pose proof (length_copy_input_loop _input inputchannels (Convolver.blocksize w)
                (Convolver.input w)) as L.
  destruct (for_loop _ _ _) as [inp nz]. cbn [fst snd] in L.
  constructor; cbn; try assumption; try congruence.
  destruct nz; [lia|].
  destruct (Z.ltb_spec (Convolver.zeroblocks w) (Convolver.maxzeroblocks w)); [|lia].
  unfold UInt.add. rewrite wrap_small; [lia|].
  pose proof (wrap_range (UInt.wrap (Convolver.partitions w +
                UInt.div maxadditionaldelay (Convolver.blocksize w)) + 1)) as R.
  unfold calc_maxzeroblocks, UInt.add in Hm. rewrite <- Hm in R.
  unfold UInt.in_range in *. lia.
Qed.

Lemma new_invariant i B P d : worker_invariant (Convolver.new i B P d).
Proof.
  constructor; cbn; try reflexivity; try apply length_replicate.
  pose proof (wrap_range (UInt.add P (UInt.div maxadditionaldelay B) + 1)) as R.
  unfold UInt.in_range in R. unfold calc_maxzeroblocks. unfold UInt.add at 1. lia.
Qed.

Lemma length_sample_loop (body : Z -> list float -> list float) n (out : list float) :
  (forall i b, length (body i b) = length b) ->
  length (for_loop n body out) = length out.
Proof.
  intros Hb. unfold for_loop.
  pose proof (for_upto_invariant (fun _ m => length m = length out) body) as L.
  apply (L ltac:(intros i s Hs; cbn beta in *; now rewrite Hb) _ 0 out eq_refl).
Qed.

Lemma Process_block_invariant w :
  worker_invariant w -> worker_invariant (Convolver.Process_block w).
Proof.
  intros [Hm Hz Hi Ho Hd]. unfold Convolver.Process_block.
  destruct (Convolver.zeroblocks w <? Convolver.partitions w).
  - destruct (Convolver.Convolve w) as [[c cur] blk].
    constructor; cbn; try assumption.
    + destruct (Convolver.hqproc w); rewrite length_sample_loop; try assumption;
        intros; apply length_wr.
    + now rewrite length_store_block.
  - constructor; cbn; try assumption.
    + destruct (Convolver.hqproc w); rewrite length_sample_loop; try assumption;
        intros; apply length_wr.
    + now rewrite length_store_block.
Qed.

Lemma apply_op_invariant o w :
  worker_invariant w -> worker_invariant (Convolver.apply_op o w).
Proof.
  intros Hw. destruct o; cbn [Convolver.apply_op].
  - now apply StartConvolution_invariant.
  - unfold Convolver.EndConvolution.
    destruct (Convolver.zeroblocks w <? Convolver.maxzeroblocks w); cbn [fst];
      [destruct Hw; constructor; cbn; assumption | assumption].
  - destruct Hw; constructor; cbn; assumption.
  - unfold Convolver.SetFilter. destruct (decide _); [|assumption].
    destruct Hw; constructor; cbn; assumption.
  - unfold Convolver.Process_step.
    destruct (Convolver.thread w && Convolver.startsignal w); [|assumption].
    destruct (Convolver.quitthread w).
    + destruct Hw; constructor; cbn; assumption.
    + now apply Process_block_invariant.
  - unfold Convolver.StopThread. destruct (Convolver.thread w); [|assumption].
    destruct Hw; constructor; cbn; assumption.
Qed.

Lemma reachable_invariant w : Convolver.reachable w -> worker_invariant w.
Proof.
  induction 1 as [i B P d | o w Hr IH].
  - apply new_invariant.
  - now apply apply_op_invariant.
Qed.

(** The block size and the partition count of a worker never change. *)
Lemma apply_op_sizes o w :
  Convolver.blocksize (Convolver.apply_op o w) = Convolver.blocksize w /\
  Convolver.partitions (Convolver.apply_op o w) = Convolver.partitions w.
Proof.
  destruct o; cbn [Convolver.apply_op].
  - unfold Convolver.StartConvolution. destruct (for_loop _ _ _). now cbn.
  - unfold Convolver.EndConvolution. now destruct (_ <? _).
  - now cbn.
  - unfold Convolver.SetFilter. now destruct (decide _).
  - unfold Convolver.Process_step, Convolver.Process_block.
    destruct (_ && _); [|easy]. destruct (Convolver.quitthread w); [easy|].
    destruct (_ <? _); [destruct (Convolver.Convolve w) as [[? ?] ?]|]; now cbn.
  - unfold Convolver.StopThread. now destruct (Convolver.thread w).
Qed.

(** *** The silence gate *)

(** C2. [StartConvolution] de-interleaves the block, resets [zeroblocks] to 0
    when one of the [blocksize] samples of the block is non-zero and otherwise
    increments it, saturating at [maxzeroblocks]; it signals the thread exactly
    when the updated counter is below [maxzeroblocks]; and the counter stays
    within [0, maxzeroblocks] under every operation. *)
Theorem StartConvolution_silence_gate w _input inputchannels :
  Convolver.reachable w -> Spec.silence_gate w _input inputchannels.
Proof.
  intros Hr. unfold Spec.silence_gate. cbv zeta.
  pose proof (reachable_invariant w Hr) as Hw.
  destruct Hw as [Hm Hz Hi Ho Hd].
  assert (Hops : forall o, 0 <= Convolver.zeroblocks (Convolver.apply_op o w)
                             <= Convolver.maxzeroblocks (Convolver.apply_op o w)).
  { intros o. apply inv_zeroblocks, reachable_invariant. now constructor. }
  assert (Hinc : Convolver.zeroblocks w < Convolver.maxzeroblocks w ->
                 UInt.add (Convolver.zeroblocks w) 1 = Convolver.zeroblocks w + 1).
  { intros Hlt. unfold UInt.add. apply wrap_small.
    pose proof (wrap_range (UInt.wrap (Convolver.partitions w +
                  UInt.div maxadditionaldelay (Convolver.blocksize w)) + 1)) as R.
    unfold calc_maxzeroblocks, UInt.add in Hm. rewrite <- Hm in R.
    unfold UInt.in_range in *. lia. }
  unfold Convolver.StartConvolution.
  set (B := Convolver.blocksize w) in *.
  assert (L : let res := for_loop B (Convolver.copy_input _input inputchannels)
                           (Convolver.input w, false) in
              (forall k, 0 <= k < B -> rd (fst res) k = rd _input (UInt.mul k inputchannels)) /\
              (snd res = true <->
               exists k, 0 <= k < B /\
                 deqb (double_of_float (rd _input (UInt.mul k inputchannels))) dzero = false)).
  { destruct (Z_le_gt_dec 0 B) as [HB|HB].
    - apply (copy_input_loop _input inputchannels B (Convolver.input w)). lia.
    - (* no sample to copy *)
      unfold for_loop. rewrite Z2Nat.nonpos by lia. cbn.
      split; [intros; lia|]. split; [discriminate | intros (k & Hk & _); lia]. }
  cbv zeta in L. destruct (for_loop _ _ _) as [inp nz]. cbn [fst snd] in L.
  destruct L as (Hcopy & Hnz). cbn.
  set (zb' := if nz then 0
              else if Convolver.zeroblocks w <? Convolver.maxzeroblocks w
                   then UInt.add (Convolver.zeroblocks w) 1
                   else Convolver.zeroblocks w).
  assert (Hzb' : zb' = if nz then 0
                       else Z.min (Convolver.zeroblocks w + 1) (Convolver.maxzeroblocks w)).
  { subst zb'. destruct nz; [reflexivity|].
    destruct (Z.ltb_spec (Convolver.zeroblocks w) (Convolver.maxzeroblocks w)).
    - rewrite Hinc by assumption. lia.
    - lia. }
  split; [exact Hcopy|]. split; [|split; [|split; [reflexivity|split; [|split; [|exact Hops]]]]].
  - intros (k & Hk & Hnzk). rewrite Hcopy in Hnzk by assumption.
    assert (nz = true) as Enz by (apply Hnz; eauto). rewrite Hzb', Enz. reflexivity.
  - intros Hall. rewrite Hzb'. destruct nz; [|reflexivity].
    destruct (proj1 Hnz eq_refl) as (k & Hk & Hnzk).
    exfalso. apply (Hall k Hk). now rewrite Hcopy.
  - destruct (zb' <? Convolver.maxzeroblocks w);
      [now rewrite orb_true_r | now rewrite orb_false_r].
  - intros Hidle. rewrite Hidle.
    destruct (Z.ltb_spec zb' (Convolver.maxzeroblocks w)); split; intros; try easy; lia.
Qed.

(** C3 (as amended). The silence threshold of a worker with [P] partitions and
    block size [B] is [P + floor(2400 / B) + 1]: the quotient is rounded down. *)
Theorem maxzeroblocks_rounds_down w :
  Convolver.reachable w ->
  0 < Convolver.blocksize w -> 0 <= Convolver.partitions w ->
  Convolver.partitions w + Spec.floor_ratio maxadditionaldelay (Convolver.blocksize w) + 1
    < UInt.modulus ->
  maxadditionaldelay = 2400 /\
  Convolver.maxzeroblocks w =
  Convolver.partitions w + Spec.floor_ratio maxadditionaldelay (Convolver.blocksize w) + 1.
Proof.
  intros Hr HB HP Hov. split; [reflexivity|].
  rewrite (inv_maxzeroblocks w (reachable_invariant w Hr)).
  apply calc_maxzeroblocks_floor; try assumption.
  now rewrite <- floor_ratio_div.
Qed.

(** C7 (as amended). The delay memory of a worker has
    [(1 + floor((2400 + B - 1) / B)) * B] samples, the quotient being rounded
    down; this is [ceil((2400 + B) / B) * B], the size section 3 gives. *)
Theorem delay_line_length w :
  Convolver.reachable w ->
  0 < Convolver.blocksize w < 2 ^ 31 ->
  let B := Convolver.blocksize w in
  Z.of_nat (length (Convolver.delay w))
    = (1 + Spec.floor_ratio (maxadditionaldelay + B - 1) B) * B /\
  Z.of_nat (length (Convolver.delay w)) = Spec.delay_line_size_sec3 B /\
  Convolver.delaylen w = Z.of_nat (length (Convolver.delay w)).
Proof.
  intros Hr HB B. subst B.
  rewrite (inv_delay w (reachable_invariant w Hr)).
  pose proof (wrap_range ((UInt.add 1 (UInt.div (UInt.sub (UInt.add maxadditionaldelay
                 (Convolver.blocksize w)) 1) (Convolver.blocksize w)))
                 * Convolver.blocksize w)) as R.
  fold (UInt.mul (UInt.add 1 (UInt.div (UInt.sub (UInt.add maxadditionaldelay
                 (Convolver.blocksize w)) 1) (Convolver.blocksize w)))
                 (Convolver.blocksize w)) in R.
  fold (calc_delaylen (Convolver.blocksize w)) in R. unfold UInt.in_range in R.
  rewrite Z2Nat.id by lia.
  rewrite delay_line_size_sec3_floor by lia.
  rewrite <- calc_delaylen_floor by assumption.
  easy.
Qed.

End WorkerProperties.

(** ** The manager *)

Section ManagerProperties.
Context `{BlockConvolverLib} `{FractionalSampleLib}.
Import FP.
Import ConvolverManager.

Lemma lookup_size {A} (v : list A) (i : Z) (x : A) :
  0 <= i -> v !! Z.to_nat i = Some x -> i < size v.
Proof.
  intros Hi Hx. apply lookup_lt_Some in Hx. unfold size. lia.
Qed.

Lemma size_lookup {A} (v : list A) (i : Z) :
  0 <= i < size v -> exists x, v !! Z.to_nat i = Some x.
Proof.
  intros Hi. apply lookup_lt_is_Some. unfold size in Hi. lia.
Qed.

(** C10. When the IR index stored for a worker is not below the number of
    loaded filters, [UpdateConvolverParameters] changes nothing: not the
    worker, not any other part of the manager, and nothing is reported; the
    first loop of [Convolve] then starts the worker with the filter, level,
    delay and quality flag it had. *)
Theorem UpdateConvolverParameters_stale_ir m convolver params :
  parameters m !! Z.to_nat convolver = Some params ->
  size (filters m) <= irindex params ->
  UpdateConvolverParameters m convolver = m /\
  forall conv input inputchannels outputchannels,
    convolvers m !! Z.to_nat convolver = Some conv ->
    exists conv',
      convolvers (start_convolver input inputchannels outputchannels convolver m)
        !! Z.to_nat convolver = Some conv' /\
      Convolver.filter conv' = Convolver.filter conv /\
      Convolver.outputlevel conv' = Convolver.outputlevel conv /\
      Convolver.outputdelay conv' = Convolver.outputdelay conv /\
      Convolver.hqproc conv' = Convolver.hqproc conv /\
      errors (start_convolver input inputchannels outputchannels convolver m) = errors m.
Proof.
  intros Hp Hir.
  assert (E : UpdateConvolverParameters m convolver = m).
  { unfold UpdateConvolverParameters. rewrite Hp.
    destruct (convolver <? size (convolvers m)); [|reflexivity].
    destruct (convolvers m !! Z.to_nat convolver); [|reflexivity].
    destruct (Z.ltb_spec (irindex params) (size (filters m))); [lia | reflexivity]. }
  split; [exact E|].
  intros conv input inch outch Hc. unfold start_convolver.
  assert (E' : (if updateparameters m then UpdateConvolverParameters m convolver else m) = m)
    by (destruct (updateparameters m); [exact E | reflexivity]).
  rewrite E', Hc. cbn [convolvers with_convolvers errors].
  eexists. split.
  - apply list_lookup_insert_eq. now apply lookup_lt_Some in Hc.
  - unfold Convolver.StartConvolution. destruct (for_loop _ _ _). now cbn.
Qed.

(** C4. For a worker whose stored IR index has a filter and a delay entry,
    [UpdateConvolverParameters] passes to the worker the delay
    [static + dynamic * delayscale + extra delay], the stored level and the
    manager's quality flag, and selects the filter of that index. *)
Theorem UpdateConvolverParameters_effective_delay m convolver params conv f dynamic static :
  0 <= convolver -> 0 <= irindex params ->
  parameters m !! Z.to_nat convolver = Some params ->
  convolvers m !! Z.to_nat convolver = Some conv ->
  filters m !! Z.to_nat (irindex params) = Some f ->
  irdelays m !! Z.to_nat (irindex params) = Some (dynamic, static) ->
  exists conv',
    convolvers (UpdateConvolverParameters m convolver) !! Z.to_nat convolver = Some conv' /\
    Convolver.outputdelay conv' =
      dadd (dadd static (dmul dynamic (delayscale m))) (delay params) /\
    Convolver.outputlevel conv' = level params /\
    Convolver.hqproc conv' = hqproc m /\
    Convolver.filter conv' = Some f.
Proof.
  intros Hc Hir Hp Hconv Hf Hd.
  unfold UpdateConvolverParameters, scaled_delay. rewrite Hp, Hconv, Hf, Hd.
  pose proof (lookup_size _ _ _ Hc Hconv) as L1.
  pose proof (lookup_size _ _ _ Hir Hf) as L2.
  pose proof (lookup_size _ _ _ Hir Hd) as L3.
  destruct (Z.ltb_spec convolver (size (convolvers m))); [|lia].
  destruct (Z.ltb_spec (irindex params) (size (filters m))); [|lia].
  destruct (Z.ltb_spec (irindex params) (size (irdelays m))); [|lia].
  cbn [convolvers with_convolvers fst snd].
  eexists. split.
  - apply list_lookup_insert_eq. now apply lookup_lt_Some in Hconv.
  - cbn. repeat split. unfold Convolver.SetFilter.
    destruct (decide _) as [Hne|Heq]; cbn; [reflexivity|].
    destruct (decide (Some f = Convolver.filter conv)); [congruence | contradiction].
Qed.

(** C6. [SelectIR] succeeds exactly when both indices are in range.  It then
    stores the three parameters and updates that worker: the worker gets the
    filter of that index, the level, the quality flag of the manager and the
    IR's scaled delay plus the given delay, and no other worker changes.
    Otherwise it fails, and leaves the parameters and the workers as they
    were. *)
Theorem SelectIR_spec m convolver ir _level _delay :
  0 <= convolver -> 0 <= ir ->
  length (parameters m) = length (convolvers m) ->
  Spec.select_ir m convolver ir _level _delay.
Proof.
  intros Hc Hir Hlen. unfold Spec.select_ir. cbv zeta. unfold SelectIR.
  destruct (Z.ltb_spec convolver (size (convolvers m))) as [Hlt|Hge].
  - destruct (Z.ltb_spec ir (size (filters m))) as [Hlt2|Hge2]; cbn [fst snd].
    + split; [easy|]. split; [|discriminate]. intros _.
      destruct (size_lookup (convolvers m) convolver ltac:(lia)) as [conv Hconv].
      destruct (size_lookup (filters m) ir ltac:(lia)) as [f Hf].
      assert (Hn : (Z.to_nat convolver < length (parameters m))%nat)
        by (unfold size in Hlt; lia).
      unfold UpdateConvolverParameters.
      cbn [convolvers parameters filters with_parameters].
      rewrite list_lookup_insert_eq by exact Hn. rewrite Hconv. cbn [irindex].
      destruct (Z.ltb_spec convolver (size (convolvers m))); [|lia].
      destruct (Z.ltb_spec ir (size (filters m))); [|lia].
      rewrite Hf. cbn [parameters convolvers with_convolvers errors level delay hqproc].
      split; [now apply list_lookup_insert_eq|].
      split; [intros j Hj; now apply list_lookup_insert_ne|].
      split.
      * exists conv, f. split; [reflexivity|]. split; [reflexivity|].
        rewrite list_lookup_insert_eq by (now apply lookup_lt_Some in Hconv).
        reflexivity.
      * split; [intros j Hj; now apply list_lookup_insert_ne | reflexivity].
    + split; [split; [discriminate | lia]|]. split; [discriminate|]. now intros _.
  - cbn [fst snd]. split; [split; [discriminate | lia]|]. split; [discriminate|]. now intros _.
Qed.

(** *** The update flag *)

Lemma SetDelayScale_sets_flag m scale : updateparameters (SetDelayScale m scale) = true.
Proof. reflexivity. Qed.

Lemma EnableHQProcessing_sets_flag m enable :
  updateparameters (EnableHQProcessing m enable) = true.
Proof. reflexivity. Qed.

Lemma LoadIRDelays_sets_flag m pairs :
  updateparameters (LoadIRDelays m (Some pairs)) = true.
Proof. reflexivity. Qed.

(** [LoadIRDelays] without a readable file clears the delays and leaves the
    flag alone. *)
Lemma LoadIRDelays_no_file m :
  irdelays (LoadIRDelays m None) = [] /\
  updateparameters (LoadIRDelays m None) = updateparameters m.
Proof. split; reflexivity. Qed.

(** C9 (the code departs from the claim). [SetIRDelays] replaces the delay
    table and leaves the update flag as it was: it does not request the
    update that [LoadIRDelays] and [LoadDelaysSOFA] request after they have
    replaced the table. *)
Theorem SetIRDelays_leaves_update_flag m delays_dynamic num_delays delays_static :
  updateparameters (SetIRDelays m delays_dynamic num_delays delays_static)
  = updateparameters m.
Proof.
  unfold SetIRDelays. destruct (negb (num_delays =? 0)); [|reflexivity].
  destruct (for_loop _ _ _). reflexivity.
Qed.

Lemma start_convolver_flag input inputchannels outputchannels i m :
  updateparameters (start_convolver input inputchannels outputchannels i m)
  = updateparameters m.
Proof.
  unfold start_convolver.
  assert (E : updateparameters
                (if updateparameters m then UpdateConvolverParameters m i else m)
              = updateparameters m).
  { destruct (updateparameters m) eqn:Hu; [|assumption].
    unfold UpdateConvolverParameters.
    destruct (_ <? _); [|assumption].
    destruct (parameters m !! _); [|assumption].
    destruct (convolvers m !! _); [|assumption].
    destruct (_ <? _); [|assumption].
    destruct (filters m !! _); [|assumption].
    exact Hu. }
  destruct (convolvers _ !! _); exact E.
Qed.

Lemma end_convolver_flag outputchannels i acc :
  updateparameters (fst (end_convolver outputchannels i acc))
  = updateparameters (fst acc).
Proof.
  unfold end_convolver. destruct acc as [m out].
  destruct (convolvers m !! Z.to_nat i); [|reflexivity].
  destruct (Convolver.EndConvolution _ _ _ _ _). reflexivity.
Qed.

(** The flag is consumed by [Convolve]: it is clear afterwards. *)
Lemma Convolve_clears_flag m input output inputchannels outputchannels :
  updateparameters (fst (Convolve m input output inputchannels outputchannels)) = false.
Proof.
  unfold Convolve, for_loop.
  match goal with
  | |- updateparameters (fst (for_upto ?n 0 ?body ?s0)) = false =>
      pose proof (for_upto_invariant
                    (fun _ (acc : t * list float) => updateparameters (fst acc) = false)
                    body) as L;
      apply (L ltac:(intros i s Hs; cbn beta in *; now rewrite end_convolver_flag)
               n 0 s0 eq_refl)
  end.
Qed.

End ManagerProperties.

(** ** Floating-point comparisons and conversions *)

Lemma SFltb_irrefl x : SFltb x x = false.
Proof.
  unfold SFltb, SFcompare.
  destruct x as [s|s| |s m e]; try destruct s; try reflexivity;
    rewrite Z.compare_refl, Pos.compare_cont_refl; reflexivity.
Qed.

Lemma SFltb_asym x y : SFltb x y = true -> SFltb y x = false.
Proof.
  unfold SFltb, SFcompare.
  destruct x as [s1|s1| |s1 m1 e1], y as [s2|s2| |s2 m2 e2];
    try destruct s1; try destruct s2; try discriminate; try reflexivity.
  - rewrite (Z.compare_antisym e1 e2). destruct (e1 ?= e2) eqn:E; cbn; try discriminate;
      try reflexivity.
    fold (Pos.compare m1 m2). fold (Pos.compare m2 m1).
    rewrite (Pos.compare_antisym m1 m2). destruct (m1 ?= m2)%positive; cbn;
      try discriminate; reflexivity.
  - rewrite (Z.compare_antisym e1 e2). destruct (e1 ?= e2) eqn:E; cbn; try discriminate;
      try reflexivity.
    fold (Pos.compare m1 m2). fold (Pos.compare m2 m1).
    rewrite (Pos.compare_antisym m1 m2). destruct (m1 ?= m2)%positive; cbn;
      try discriminate; reflexivity.
Qed.

(** [MIN(x, bound)] never exceeds [bound]. *)
Lemma MIN_clamps x bound : FP.dltb bound (FP.MIN x bound) = false.
Proof.
  unfold FP.MIN, FP.dltb. destruct (SFltb x bound) eqn:E.
  - now apply SFltb_asym.
  - apply SFltb_irrefl.
Qed.

(** The conversion to [uint_t] of a non-negative value within range is its
    floor. *)
Lemma uint_of_double_floor x z :
  FP.Zfloor x = Some z -> 0 <= z < UInt.modulus -> FP.uint_of_double x = z.
Proof.
  unfold FP.Zfloor, FP.uint_of_double, FP.Ztrunc.
  destruct x as [s|s| |s m e]; try discriminate.
  - intros [= <-] _. reflexivity.
  - intros [= <-] Hz. destruct s; cbn [cond_Zopp] in *.
    + exfalso. destruct Hz as [Hz _]. apply Z.shiftl_nonneg in Hz. lia.
    + now apply wrap_small.
Qed.



(** ** The filter build *)

Section FilterBuild.
Import FP.
Import ConvolverManager.


End FilterBuild.

(** ** The processing of a block *)

Section ProcessProperties.
Context `{BlockConvolverLib} `{FractionalSampleLib}.
Import FP.

(** Below [2^30] samples per block nothing overflows in [Process]. *)
Lemma calc_delaylen_blocks B :
  0 < B < 2 ^ 30 ->
  exists K, 2 <= K /\ calc_delaylen B = K * B /\ K * B < 2 ^ 31.
Proof.
  intros HB. assert (E30 : 2 ^ 30 = 1073741824) by reflexivity.
  assert (E31 : 2 ^ 31 = 2147483648) by reflexivity.
  exists (1 + (maxadditionaldelay + B - 1) / B).
  rewrite calc_delaylen_floor, floor_ratio_div by lia.
  unfold maxadditionaldelay.
  assert (Hq : 0 <= (2400 + B - 1) / B) by (apply Z.div_pos; lia).
  assert (Hq1 : 1 <= (2400 + B - 1) / B).
  { apply Z.div_le_lower_bound; lia. }
  assert (Hq2 : (2400 + B - 1) / B * B <= 2400 + B - 1).
  { rewrite Z.mul_comm. apply Z.mul_div_le. lia. }
  split; [lia|]. split; [reflexivity|]. nia.
Qed.

(** The write position stays on a block boundary inside the delay memory. *)
Lemma reachable_delaypos w :
  Convolver.reachable w ->
  0 < Convolver.blocksize w < 2 ^ 30 ->
  0 <= Convolver.delaypos w /\
  Convolver.delaypos w + Convolver.blocksize w <= calc_delaylen (Convolver.blocksize w) /\
  (Convolver.blocksize w | Convolver.delaypos w).
Proof.
  induction 1 as [i B P d | o w Hr IH]; intros HB.
  - cbn in *. destruct (calc_delaylen_blocks B HB) as (K & HK & -> & _).
    split; [lia|]. split; [nia|]. apply Z.divide_0_r.
  - destruct (apply_op_sizes o w) as [EB _]. rewrite EB in *.
    specialize (IH HB).
    destruct o; cbn [Convolver.apply_op]; try exact IH.
    + unfold Convolver.StartConvolution. destruct (for_loop _ _ _). exact IH.
    + unfold Convolver.EndConvolution. destruct (_ <? _); exact IH.
    + unfold Convolver.SetFilter. destruct (decide _); exact IH.
    + unfold Convolver.Process_step.
      destruct (_ && _); [|exact IH]. destruct (Convolver.quitthread w); [exact IH|].
      assert (E : Convolver.delaypos (Convolver.Process_block w)
                  = UInt.rem (UInt.add (Convolver.delaypos w) (Convolver.blocksize w))
                             (Convolver.delaylen w)).
      { unfold Convolver.Process_block.
        destruct (_ <? _); [destruct (Convolver.Convolve w) as [[? ?] ?]|]; reflexivity. }
      rewrite E. unfold Convolver.delaylen, UInt.rem, UInt.add.
      destruct (calc_delaylen_blocks _ HB) as (K & HK & EK & HK31).
      destruct IH as (Hpos & Hle & k & Hk). rewrite EK in *.
      assert (E31 : 2 ^ 31 = 2147483648) by reflexivity.
      pose proof modulus_eq as M.
      rewrite wrap_small by (unfold UInt.in_range; lia).
      rewrite Hk in *.
      replace (k * Convolver.blocksize w + Convolver.blocksize w)
        with ((k + 1) * Convolver.blocksize w) in * by lia.
      rewrite Zmult_mod_distr_r.
      assert (0 <= (k + 1) mod K < K) by (apply Z.mod_pos_bound; lia).
      split; [nia|]. split; [nia|]. now exists ((k + 1) mod K).
    + unfold Convolver.StopThread. destruct (Convolver.thread w); exact IH.
Qed.

(** The sample loops of [Process] compute element [n] of the output block
    from the delay memory. *)
Lemma lq_loop_sample B D mem fpos1 fpos2 lev1 lev2 (out : list float) n :
  0 <= n < B -> B <= Z.of_nat (length out) ->
  rd (for_loop B (Convolver.lq_sample B D mem fpos1 fpos2 lev1 lev2) out) n =
  float_of_double
    (dmul (Convolver.ramp B n lev1 lev2)
          (double_of_float
             (rd mem (UInt.rem (uint_of_double (Convolver.ramp B n fpos1 fpos2)) D)))).
Proof.
  intros Hn Hlen.
  pose proof (for_loop_fill
    (fun i _ => float_of_double
       (dmul (Convolver.ramp B i lev1 lev2)
             (double_of_float
                (rd mem (UInt.rem (uint_of_double (Convolver.ramp B i fpos1 fpos2)) D)))))
    B out ltac:(lia) ltac:(reflexivity)) as (_ & L & _).
  exact (L n Hn).
Qed.

Lemma hq_loop_sample B D mem fpos1 fpos2 lev1 lev2 (out : list float) n :
  0 <= n < B -> B <= Z.of_nat (length out) ->
  rd (for_loop B (Convolver.hq_sample B D mem fpos1 fpos2 lev1 lev2) out) n =
  float_of_double
    (dmul (Convolver.ramp B n lev1 lev2)
          (FractionalSample mem 0 1 D (Convolver.ramp B n fpos1 fpos2))).
Proof.
  intros Hn Hlen.
  pose proof (for_loop_fill
    (fun i _ => float_of_double
       (dmul (Convolver.ramp B i lev1 lev2)
             (FractionalSample mem 0 1 D (Convolver.ramp B i fpos1 fpos2))))
    B out ltac:(lia) ltac:(reflexivity)) as (_ & L & _).
  exact (L n Hn).
Qed.

(** The state after [Process_block], field by field. *)
Lemma Process_block_fields w :
  let w' := Convolver.Process_block w in
  let B := Convolver.blocksize w in
  let D := Convolver.delaylen w in
  let pos1 := UInt.add (Convolver.delaypos w) D in
  let delay2 := MIN (Convolver.outputdelay w) (double_of_Z (Convolver.maxdelay w)) in
  let fpos1 := dsub (double_of_Z pos1) (Convolver.delay1 w) in
  let fpos2 := dsub (double_of_Z (UInt.add pos1 B)) delay2 in
  Convolver.output w' =
    (if Convolver.hqproc w
     then for_loop B (Convolver.hq_sample B D (Convolver.delay w') fpos1 fpos2
                        (Convolver.level1 w) (Convolver.outputlevel w))
                   (Convolver.output w)
     else for_loop B (Convolver.lq_sample B D (Convolver.delay w') fpos1 fpos2
                        (Convolver.level1 w) (Convolver.outputlevel w))
                   (Convolver.output w)) /\
  Convolver.delaypos w' = UInt.rem (UInt.add (Convolver.delaypos w) B) D /\
  Convolver.delay1 w' = delay2 /\
  Convolver.level1 w' = Convolver.outputlevel w /\
  Convolver.donesignal w' = true.
Proof.
  cbv zeta. unfold Convolver.Process_block.
  destruct (_ <? _); [destruct (Convolver.Convolve w) as [[? ?] ?]|]; cbn; easy.
Qed.

(** C1. A processed block is read from the delay line by linear
    interpolation across the block: sample [n] uses [a = 1 - n/B], [b = n/B],
    the position [a * pos1 + b * pos2] with
    [pos1 = delaypos + D - prev_delay] and [pos2 = delaypos + B + D - cur_delay],
    and the gain [a * prev_gain + b * cur_gain]; without high quality it reads
    the sample at [floor(pos) mod D] and scales it by the gain (with high
    quality it scales the fractional sample at [pos]); the delay used is clamped
    to [D - B - 1 - FractionalSampleAdditionalDelayRequired]; afterwards the
    write position has advanced by [B] modulo [D], and the previous delay and
    gain are the ones just used. *)
Theorem Process_block_interpolation w n :
  Convolver.reachable w ->
  0 < Convolver.blocksize w < 2 ^ 30 ->
  0 <= FractionalSampleAdditionalDelayRequired
    < Convolver.delaylen w - Convolver.blocksize w ->
  0 <= n < Convolver.blocksize w ->
  Spec.block_interpolation w n.
Proof.
  intros Hr HB HF Hn. unfold Spec.block_interpolation. cbv zeta.
  pose proof (reachable_invariant w Hr) as Hinv.
  pose proof (Process_block_invariant w Hinv) as Hinv'.
  destruct (reachable_delaypos w Hr HB) as (Hp0 & Hple & _).
  destruct (calc_delaylen_blocks _ HB) as (K & HK & EK & HK31).
  pose proof (Process_block_fields w) as F. cbv zeta in F.
  destruct F as (Fout & Fpos & Fd1 & Fl1 & _).
  assert (E31 : 2 ^ 31 = 2147483648) by reflexivity.
  pose proof modulus_eq as M.
  unfold Convolver.delaylen in *.
  set (B := Convolver.blocksize w) in *.
  set (D := calc_delaylen B) in *.
  assert (Epos1 : UInt.add (Convolver.delaypos w) D = Convolver.delaypos w + D).
  { unfold UInt.add. apply wrap_small. unfold UInt.in_range. lia. }
  assert (Epos2 : UInt.add (Convolver.delaypos w + D) B = Convolver.delaypos w + B + D).
  { unfold UInt.add. rewrite wrap_small by (unfold UInt.in_range; lia). lia. }
  assert (Emax : Convolver.maxdelay w = D - B - 1 - FractionalSampleAdditionalDelayRequired).
  { unfold Convolver.maxdelay, Convolver.delaylen, UInt.sub. fold B. fold D.
    rewrite (wrap_small (D - B)) by (unfold UInt.in_range; lia).
    rewrite (wrap_small (D - B - 1)) by (unfold UInt.in_range; lia).
    apply wrap_small. unfold UInt.in_range. lia. }
  rewrite Epos1, Epos2, Emax in *.
  assert (Elen : Z.of_nat (length (Convolver.delay (Convolver.Process_block w))) = D).
  { rewrite (inv_delay _ Hinv').
    destruct (apply_op_sizes Convolver.OpProcess w) as [_ _].
    assert (EB : Convolver.blocksize (Convolver.Process_block w) = B).
    { unfold Convolver.Process_block.
      destruct (_ <? _); [destruct (Convolver.Convolve w) as [[? ?] ?]|]; reflexivity. }
    rewrite EB. fold D. lia. }
  assert (Hout : B <= Z.of_nat (length (Convolver.output w))).
  { rewrite (inv_output _ Hinv). fold B. lia. }
  split; [exact Elen|]. split; [|split; [|split; [|split; [|split]]]].
  - intros Hq k Hk Hkr. rewrite Fout, Hq.
    rewrite lq_loop_sample by assumption.
    unfold Convolver.ramp, Convolver.coef_a, Convolver.coef_b.
    rewrite (uint_of_double_floor _ k Hk Hkr). reflexivity.
  - intros Hq. rewrite Fout, Hq.
    rewrite hq_loop_sample by assumption. reflexivity.
  - apply MIN_clamps.
  - rewrite Fpos. unfold UInt.rem, UInt.add.
    rewrite wrap_small by (unfold UInt.in_range; lia). reflexivity.
  - exact Fd1.
  - exact Fl1.
Qed.

End ProcessProperties.

(** ** One tick of the manager *)

Lemma for_upto_succ {A : Type} (body : Z -> A -> A) fuel i s :
  for_upto (S fuel) i body s = body (i + Z.of_nat fuel) (for_upto fuel i body s).
Proof.
  revert i s. induction fuel as [|k IH]; intros i s.
  - cbn. now rewrite Z.add_0_r.
  - cbn [for_upto] in *. rewrite IH. f_equal. lia.
Qed.

Lemma for_loop_succ {A : Type} (body : Z -> A -> A) n s :
  0 <= n -> for_loop (n + 1) body s = body n (for_loop n body s).
Proof.
  intros Hn. unfold for_loop.
  replace (Z.to_nat (n + 1)) with (S (Z.to_nat n)) by lia.
  rewrite for_upto_succ. f_equal. lia.
Qed.

Lemma for_loop_ext {A : Type} (body1 body2 : Z -> A -> A) n s :
  (forall i x, 0 <= i < n -> body1 i x = body2 i x) ->
  for_loop n body1 s = for_loop n body2 s.
Proof.
  intros Hext. destruct (Z_le_gt_dec 0 n) as [Hn|Hn].
  - apply (for_loop_invariant (fun i x => x = for_loop i body2 s)); try assumption.
    + intros i x Hi ->. rewrite for_loop_succ by lia. now apply Hext.
    + reflexivity.
  - unfold for_loop. now rewrite Z2Nat.nonpos by lia.
Qed.

(** A frame and a channel determine the index in an interleaved buffer, and
    the index determines them. *)
Lemma interleaved_index_inj a b c d k :
  0 <= c < k -> 0 <= d < k -> a * k + c = b * k + d -> a = b /\ c = d.
Proof.
  intros Hc Hd E. destruct (Z.lt_trichotomy a b) as [Hlt|[Heq|Hgt]].
  - exfalso. assert (b * k >= (a + 1) * k) by nia. lia.
  - subst. lia.
  - exfalso. assert (a * k >= (b + 1) * k) by nia. lia.
Qed.

Section TickProperties.
Context `{BlockConvolverLib} `{FractionalSampleLib}.
Import FP.
Import ConvolverManager.

(** The mixing loop of [EndConvolution] adds the output block to one channel
    of the interleaved buffer and leaves the other channels alone. *)
Lemma mix_loop_effect w off outputchannels lvl (out : list float) B :
  0 <= B -> 0 <= off < outputchannels ->
  B * outputchannels <= Z.of_nat (length out) ->
  B * outputchannels <= UInt.modulus ->
  let out' := for_loop B (Convolver.mix_sample w off outputchannels lvl) out in
  length out' = length out /\
  forall n c, 0 <= n < B -> 0 <= c < outputchannels ->
    rd out' (n * outputchannels + c) =
    if c =? off
    then fadd (rd out (n * outputchannels + c)) (fmul (rd (Convolver.output w) n) lvl)
    else rd out (n * outputchannels + c).
Proof.
  intros HB Hoff Hlen Hov out'. subst out'.
  assert (L : length (for_loop B (Convolver.mix_sample w off outputchannels lvl) out)
               = length out /\
       forall n c, 0 <= n < B -> 0 <= c < outputchannels ->
         rd (for_loop B (Convolver.mix_sample w off outputchannels lvl) out)
            (n * outputchannels + c) =
         if (c =? off) && (n <? B)
         then fadd (rd out (n * outputchannels + c)) (fmul (rd (Convolver.output w) n) lvl)
         else rd out (n * outputchannels + c)).
  { apply (for_loop_invariant
      (fun i (o : list float) =>
         length o = length out /\
         forall n c, 0 <= n < B -> 0 <= c < outputchannels ->
           rd o (n * outputchannels + c) =
           if (c =? off) && (n <? i)
           then fadd (rd out (n * outputchannels + c))
                     (fmul (rd (Convolver.output w) n) lvl)
           else rd out (n * outputchannels + c))).
    - assumption.
    - intros i o Hi (Hl & Hrd). unfold Convolver.mix_sample.
      assert (Emul : UInt.mul i outputchannels = i * outputchannels).
      { unfold UInt.mul. apply wrap_small. unfold UInt.in_range.
        pose proof modulus_eq.
        assert (i * outputchannels <= (B - 1) * outputchannels)
          by (apply Z.mul_le_mono_nonneg_r; lia).
        nia. }
      rewrite Emul, length_wr. split; [assumption|].
      intros n c Hn Hc.
      destruct (Z.eq_dec (n * outputchannels + c) (off + i * outputchannels)) as [E|NE].
      + assert (n = i /\ c = off) as [-> ->]
          by (apply (interleaved_index_inj n i c off outputchannels); lia).
        rewrite E, rd_wr_eq by nia.
        rewrite Z.eqb_refl. destruct (Z.ltb_spec i (i + 1)); [|lia]. cbn [andb].
        rewrite <- E, Hrd by lia. rewrite Z.eqb_refl, Z.ltb_irrefl. reflexivity.
      + rewrite rd_wr_ne by nia. rewrite Hrd by assumption.
        destruct (Z.eqb_spec c off) as [->|Hc']; [|reflexivity]. cbn [andb].
        assert (n <> i) by (intros ->; lia).
        destruct (Z.ltb_spec n i), (Z.ltb_spec n (i + 1)); try reflexivity; lia.
    - split; [reflexivity|]. intros n c Hn Hc.
      destruct (Z.ltb_spec n 0); [lia|]. now rewrite andb_false_r. }
  destruct L as [Hl Hrd]. split; [assumption|].
  intros n c Hn Hc. rewrite Hrd by assumption.
  destruct (Z.ltb_spec n B); [|lia]. now rewrite andb_true_r.
Qed.

(** What the first loop does to the workers. *)
Lemma StartConvolution_input w _input inputchannels k :
  worker_invariant w -> 0 <= k < Convolver.blocksize w ->
  rd (Convolver.input (Convolver.StartConvolution w _input inputchannels)) k
  = rd _input (UInt.mul k inputchannels).
Proof.
  intros Hw Hk. unfold Convolver.StartConvolution.
  pose proof (copy_input_loop _input inputchannels (Convolver.blocksize w)
                (Convolver.input w)) as L.
  rewrite (inv_input w Hw) in L. specialize (L ltac:(lia)).
  destruct (for_loop _ _ _) as [inp nz]. cbn [fst snd] in L.
  destruct L as (_ & Hcopy & _). cbn. now apply Hcopy.
Qed.

Lemma StartConvolution_wf B w _input inputchannels :
  worker_wf B w -> worker_wf B (Convolver.StartConvolution w _input inputchannels).
Proof.
  intros [Hw HB]. split.
  - now apply StartConvolution_invariant.
  - rewrite <- HB. apply (apply_op_sizes (Convolver.OpStart _input inputchannels) w).
Qed.

Lemma UpdateConvolverParameters_convolvers m j :
  audioscale (UpdateConvolverParameters m j) = audioscale m /\
  (convolvers (UpdateConvolverParameters m j) = convolvers m \/
   exists w f l d h,
     convolvers m !! Z.to_nat j = Some w /\
     convolvers (UpdateConvolverParameters m j)
     = <[Z.to_nat j := Convolver.SetParameters (Convolver.SetFilter w f) l d h]>
         (convolvers m)).
Proof.
  unfold UpdateConvolverParameters.
  destruct (_ <? _); [|now split; [|left]].
  destruct (parameters m !! _) as [params|]; [|now split; [|left]].
  destruct (convolvers m !! _) as [w|] eqn:Ew; [|now split; [|left]].
  destruct (_ <? _); [|now split; [|left]].
  destruct (filters m !! _) as [f|]; [|now split; [|left]].
  split; [reflexivity|]. right. cbn. eauto 10.
Qed.

Lemma update_wf B w f l d h :
  worker_wf B w ->
  worker_wf B (Convolver.SetParameters (Convolver.SetFilter w f) l d h).
Proof.
  intros [Hw HB]. split.
  - apply (apply_op_invariant (Convolver.OpSetParameters l d h)).
    now apply (apply_op_invariant (Convolver.OpSetFilter f)).
  - cbn. unfold Convolver.SetFilter. now destruct (decide _).
Qed.

Lemma start_convolver_convolvers input inputchannels outputchannels j m w B :
  convolvers m !! Z.to_nat j = Some w -> worker_wf B w ->
  exists w0,
    worker_wf B w0 /\
    audioscale (start_convolver input inputchannels outputchannels j m) = audioscale m /\
    convolvers (start_convolver input inputchannels outputchannels j m)
    = <[Z.to_nat j :=
          Convolver.StartConvolution w0
            (drop (Z.to_nat (UInt.div j outputchannels)) input) inputchannels]>
        (convolvers m).
Proof.
  intros Hw Hwf. unfold start_convolver.
  set (m1 := if updateparameters m then UpdateConvolverParameters m j else m).
  assert (Hm1 : audioscale m1 = audioscale m /\
                (convolvers m1 = convolvers m \/
                 exists w f l d h,
                   convolvers m !! Z.to_nat j = Some w /\
                   convolvers m1
                   = <[Z.to_nat j := Convolver.SetParameters (Convolver.SetFilter w f) l d h]>
                       (convolvers m))).
  { subst m1. destruct (updateparameters m).
    - apply UpdateConvolverParameters_convolvers.
    - now split; [|left]. }
  destruct Hm1 as [Ha [E | (w1 & f & l & d & h & Hw1 & E)]].
  - rewrite E, Hw. exists w. cbn. rewrite ?E. easy.
  - rewrite Hw in Hw1. injection Hw1 as <-.
    rewrite E, list_lookup_insert_eq by (now apply lookup_lt_Some in Hw).
    exists (Convolver.SetParameters (Convolver.SetFilter w f) l d h).
    split; [now apply update_wf|]. cbn. rewrite list_insert_insert_eq. easy.
Qed.

(** After the first loop every worker is well formed and holds its input
    channel. *)
Lemma start_loop input inputchannels outputchannels m B :
  0 <= B -> 0 <= inputchannels -> B * inputchannels <= UInt.modulus ->
  0 < outputchannels ->
  Forall (worker_wf B) (convolvers m) ->
  let m1 := for_loop (size (convolvers m))
              (start_convolver input inputchannels outputchannels) m in
  audioscale m1 = audioscale m /\
  length (convolvers m1) = length (convolvers m) /\
  forall (j : nat) w, convolvers m1 !! j = Some w ->
    worker_wf B w /\
    forall n, 0 <= n < B ->
      rd (Convolver.input w) n
      = rd input (n * inputchannels + Z.of_nat j / outputchannels).
Proof.
  intros HB Hic Hov Hoc Hall m1. subst m1.
  pose proof (for_loop_invariant
    (fun k mk =>
       audioscale mk = audioscale m /\
       length (convolvers mk) = length (convolvers m) /\
       forall (j : nat) w, convolvers mk !! j = Some w ->
         worker_wf B w /\
         (Z.of_nat j < k ->
          forall n, 0 <= n < B ->
            rd (Convolver.input w) n
            = rd input (n * inputchannels + Z.of_nat j / outputchannels)))
    (start_convolver input inputchannels outputchannels)
    (size (convolvers m)) m (Nat2Z.is_nonneg _)) as L.
  destruct L as (Ha & Hl & Hw).
  - intros k mk Hk (Ha & Hl & Hw).
    destruct (size_lookup (convolvers mk) k) as [w Hwk];
      [unfold size in *; rewrite Hl; exact Hk|].
    destruct (Hw _ _ Hwk) as [Hwf _].
    destruct (start_convolver_convolvers input inputchannels outputchannels k mk w B
                Hwk Hwf) as (w0 & Hwf0 & Ha' & E).
    rewrite Ha', E, length_insert. split; [assumption|]. split; [assumption|].
    intros j wj Hj. destruct (Nat.eq_dec j (Z.to_nat k)) as [->|Hne].
    + rewrite list_lookup_insert_eq in Hj by (now apply lookup_lt_Some in Hwk).
      injection Hj as <-. split; [now apply StartConvolution_wf|].
      intros _ n Hn. destruct Hwf0 as [Hinv0 HB0].
      rewrite StartConvolution_input by (rewrite ?HB0; assumption).
      unfold rd. rewrite lookup_total_drop. f_equal.
      assert (Emul : UInt.mul n inputchannels = n * inputchannels).
      { unfold UInt.mul. apply wrap_small. unfold UInt.in_range.
        pose proof modulus_eq.
        assert (n * inputchannels <= (B - 1) * inputchannels)
          by (apply Z.mul_le_mono_nonneg_r; lia).
        nia. }
      rewrite Emul. unfold UInt.div. rewrite Z2Nat.id by lia.
      assert (0 <= k / outputchannels) by (apply Z.div_pos; lia).
      assert (0 <= n * inputchannels) by nia. lia.
    + rewrite list_lookup_insert_ne in Hj by congruence.
      destruct (Hw _ _ Hj) as [Hwfj Hrj]. split; [assumption|].
      intros Hlt. apply Hrj. lia.
  - split; [reflexivity|]. split; [reflexivity|].
    intros j w Hj. split; [|intros; lia].
    rewrite Forall_lookup in Hall. now apply (Hall j).
  - split; [assumption|]. split; [assumption|].
    intros j w Hj. destruct (Hw _ _ Hj) as [Hwf Hr]. split; [assumption|].
    apply Hr. apply lookup_lt_Some in Hj. unfold size. lia.
Qed.

Lemma same_audio_refl (w : Convolver.t) : same_audio w w.
Proof. now repeat split. Qed.

Lemma Process_step_wf B w :
  worker_wf B w ->
  worker_wf B (Convolver.Process_step w) /\
  Convolver.input (Convolver.Process_step w) = Convolver.input w.
Proof.
  intros [Hw HB]. split; [split|].
  - now apply (apply_op_invariant Convolver.OpProcess).
  - rewrite <- HB. apply (apply_op_sizes Convolver.OpProcess w).
  - unfold Convolver.Process_step, Convolver.Process_block.
    destruct (_ && _); [|reflexivity]. destruct (Convolver.quitthread w); [reflexivity|].
    destruct (_ <? _); [destruct (Convolver.Convolve w) as [[? ?] ?]|]; reflexivity.
Qed.

Lemma add_worker_same_audio gated (ws1 ws2 : list Convolver.t) scale outputchannels c n i x :
  (forall w1, ws1 !! Z.to_nat i = Some w1 ->
     exists w2, ws2 !! Z.to_nat i = Some w2 /\ same_audio w1 w2) ->
  length ws1 = length ws2 ->
  Spec.add_worker gated ws1 scale outputchannels c n i x
  = Spec.add_worker gated ws2 scale outputchannels c n i x.
Proof.
  intros Hsame Hlen. unfold Spec.add_worker.
  destruct (ws1 !! Z.to_nat i) as [w1|] eqn:E1.
  - destruct (Hsame w1 eq_refl) as (w2 & -> & (_ & Hz & Hm & _ & Ho)).
    unfold Convolver.IsProcessing. now rewrite Hz, Hm, Ho.
  - apply lookup_ge_None in E1. rewrite Hlen in E1. apply lookup_ge_None in E1.
    now rewrite E1.
Qed.

(** The second loop: the workers keep their blocks, and every processing
    worker has added its block to its channel. *)
Lemma end_loop outputchannels m3 (output : list float) B :
  0 <= B -> 0 < outputchannels ->
  B * outputchannels <= Z.of_nat (length output) ->
  B * outputchannels <= UInt.modulus ->
  Forall (worker_wf B) (convolvers m3) ->
  let r := for_loop (size (convolvers m3)) (end_convolver outputchannels) (m3, output) in
  length (convolvers (fst r)) = length (convolvers m3) /\
  (forall (j : nat) w3, convolvers m3 !! j = Some w3 ->
     exists w, convolvers (fst r) !! j = Some w /\ same_audio w3 w) /\
  forall n c, 0 <= n < B -> 0 <= c < outputchannels ->
    rd (snd r) (n * outputchannels + c)
    = Spec.channel_mix true (convolvers m3) (audioscale m3) outputchannels c n
        (rd output (n * outputchannels + c)).
Proof.
  intros HB Hoc Hlen Hov Hall r. subst r.
  pose proof (for_loop_invariant
    (fun k (acc : t * list float) =>
       audioscale (fst acc) = audioscale m3 /\
       length (snd acc) = length output /\
       length (convolvers (fst acc)) = length (convolvers m3) /\
       (forall (j : nat) w3, convolvers m3 !! j = Some w3 ->
          exists w, convolvers (fst acc) !! j = Some w /\ same_audio w3 w) /\
       forall n c, 0 <= n < B -> 0 <= c < outputchannels ->
         rd (snd acc) (n * outputchannels + c)
         = for_loop k (Spec.add_worker true (convolvers m3) (audioscale m3)
                         outputchannels c n)
             (rd output (n * outputchannels + c)))
    (end_convolver outputchannels)
    (size (convolvers m3)) (m3, output) (Nat2Z.is_nonneg _)) as L.
  destruct L as (_ & _ & Hl & Hs & Hmix).
  - intros k [mk out] Hk (Ha & Hlo & Hl & Hs & Hmix). cbn [fst snd] in *.
    destruct (size_lookup (convolvers m3) k Hk) as [w3 Hw3].
    destruct (Hs _ _ Hw3) as (w & Hw & Hsame).
    pose proof Hsame as (EB & Ez & Em & Ei & Eo).
    rewrite Forall_lookup in Hall. destruct (Hall _ _ Hw3) as [_ HB3].
    unfold end_convolver. rewrite Hw. unfold Convolver.EndConvolution.
    assert (Hadd : forall n c x,
              Spec.add_worker true (convolvers m3) (audioscale m3) outputchannels c n k x
              = if (k mod outputchannels =? c)
                   && (Convolver.zeroblocks w <? Convolver.maxzeroblocks w)
                then fadd x (fmul (rd (Convolver.output w) n) (audioscale mk))
                else x).
    { intros n c x. unfold Spec.add_worker, Convolver.IsProcessing.
      rewrite Hw3, Ez, Em, Eo, Ha. reflexivity. }
    destruct (Convolver.zeroblocks w <? Convolver.maxzeroblocks w) eqn:Eproc;
      cbn [fst snd convolvers with_convolvers audioscale].
    + pose proof (mix_loop_effect w (UInt.rem k outputchannels) outputchannels
                    (audioscale mk) out (Convolver.blocksize w)) as M.
      rewrite EB, HB3 in M.
      specialize (M HB ltac:(unfold UInt.rem; apply Z.mod_pos_bound; lia)
                    ltac:(lia) Hov).
      cbv zeta in M. destruct M as [Ml Mrd]. rewrite EB, HB3.
      split; [assumption|]. split; [congruence|]. rewrite length_insert.
      split; [assumption|]. split.
      * intros j wj Hj. destruct (Nat.eq_dec j (Z.to_nat k)) as [->|Hne].
        -- rewrite list_lookup_insert_eq by (now apply lookup_lt_Some in Hw).
           rewrite Hw3 in Hj. injection Hj as <-. eexists. split; [reflexivity|].
           now repeat split.
        -- rewrite list_lookup_insert_ne by congruence. now apply Hs.
      * intros n c Hn Hc. rewrite for_loop_succ by lia.
        rewrite Hadd, andb_true_r, Mrd by assumption.
        unfold UInt.rem. rewrite (Z.eqb_sym c). rewrite <- Hmix by assumption.
        reflexivity.
    + split; [assumption|]. split; [assumption|]. rewrite length_insert.
      split; [assumption|]. split.
      * intros j wj Hj. destruct (Nat.eq_dec j (Z.to_nat k)) as [->|Hne].
        -- rewrite list_lookup_insert_eq by (now apply lookup_lt_Some in Hw).
           rewrite Hw3 in Hj. injection Hj as <-. eauto.
        -- rewrite list_lookup_insert_ne by congruence. now apply Hs.
      * intros n c Hn Hc. rewrite for_loop_succ by lia.
        rewrite Hadd, andb_false_r. now apply Hmix.
  - cbn [fst snd]. split; [reflexivity|]. split; [reflexivity|]. split; [reflexivity|].
    split; [|reflexivity]. intros j w3 Hj. exists w3. split; [assumption|].
    apply same_audio_refl.
  - split; [assumption|]. split; [assumption|]. exact Hmix.
Qed.

(** C5 (as amended). In a tick of [Convolve], worker [i] is started on
    channel [floor(i / outputchannels)] of the interleaved input, and its
    output block, scaled by [audioscale], is added to channel
    [i mod outputchannels] of the output when the worker is processing
    ([zeroblocks < maxzeroblocks] after the start); a worker gated by silence
    adds nothing. *)
Theorem Convolve_routing m input output inputchannels outputchannels B :
  0 <= B -> 0 <= inputchannels -> B * inputchannels <= UInt.modulus ->
  0 < outputchannels ->
  B * outputchannels <= Z.of_nat (length output) ->
  B * outputchannels <= UInt.modulus ->
  Forall (worker_wf B) (convolvers m) ->
  let r := Convolve m input output inputchannels outputchannels in
  Spec.tick_routing true B (convolvers (fst r)) (audioscale m)
    input output (snd r) inputchannels outputchannels.
Proof.
  intros HB Hic Hovi Hoc Hlen Hovo Hall r. subst r. unfold Convolve.
  pose proof (start_loop input inputchannels outputchannels m B HB Hic Hovi Hoc Hall) as S1.
  cbv zeta in S1.
  set (m1 := for_loop (size (convolvers m))
               (start_convolver input inputchannels outputchannels) m) in *.
  destruct S1 as (Ha1 & Hl1 & Hw1).
  set (m3 := with_convolvers (with_updateparameters m1 false)
               (Convolver.Process_step <$> convolvers (with_updateparameters m1 false))).
  assert (Ec3 : convolvers m3 = Convolver.Process_step <$> convolvers m1) by reflexivity.
  assert (Ha3 : audioscale m3 = audioscale m) by exact Ha1.
  assert (Hall3 : Forall (worker_wf B) (convolvers m3)).
  { rewrite Ec3, Forall_fmap, Forall_lookup. intros j w Hj. cbn.
    now apply Process_step_wf, (Hw1 j). }
  pose proof (end_loop outputchannels m3 output B HB Hoc Hlen Hovo Hall3) as S2.
  cbv zeta in S2. destruct S2 as (Hl2 & Hs2 & Hmix).
  set (r := for_loop (size (convolvers m3)) (end_convolver outputchannels) (m3, output)) in *.
  split.
  - intros i w' n Hw' Hi Hn.
    destruct (lookup_lt_is_Some_2 (convolvers m3) (Z.to_nat i)) as [w3 Hw3].
    { rewrite <- Hl2. now apply lookup_lt_Some in Hw'. }
    destruct (Hs2 _ _ Hw3) as (w & Hw & (_ & _ & _ & Ei & _)).
    rewrite Hw' in Hw. injection Hw as <-. rewrite Ei.
    rewrite Ec3, list_lookup_fmap in Hw3.
    destruct (convolvers m1 !! Z.to_nat i) as [w1|] eqn:E1; [|discriminate].
    injection Hw3 as <-. destruct (Hw1 _ _ E1) as [Hwf1 Hr1].
    rewrite (proj2 (Process_step_wf B w1 Hwf1)).
    rewrite Hr1 by assumption. now rewrite Z2Nat.id.
  - intros n c Hn Hc. rewrite Hmix by assumption. rewrite Ha3.
    unfold Spec.channel_mix. rewrite Hl2.
    apply for_loop_ext. intros i x Hi.
    apply add_worker_same_audio; [|now symmetry].
    intros w3 Hw3. now apply Hs2.
Qed.

(** *** The manager stays well formed *)

Lemma UpdateConvolverParameters_frame m j :
  parameters (UpdateConvolverParameters m j) = parameters m /\
  blocksize (UpdateConvolverParameters m j) = blocksize m.
Proof.
  unfold UpdateConvolverParameters.
  destruct (_ <? _); [|easy].
  destruct (parameters m !! _); [|easy].
  destruct (convolvers m !! _); [|easy].
  destruct (_ <? _); [|easy].
  destruct (filters m !! _); easy.
Qed.

Lemma UpdateConvolverParameters_wf m j :
  manager_wf m -> manager_wf (UpdateConvolverParameters m j).
Proof.
  intros [Hl Hall]. unfold manager_wf.
  destruct (UpdateConvolverParameters_frame m j) as [-> ->].
  destruct (UpdateConvolverParameters_convolvers m j)
    as [_ [-> | (w & f & l & d & h & Hw & ->)]]; [easy|].
  rewrite length_insert. split; [assumption|].
  apply Forall_insert; [assumption|]. apply update_wf.
  rewrite Forall_lookup in Hall. now apply (Hall _ _ Hw).
Qed.

Lemma SelectIR_wf m convolver ir l d :
  manager_wf m -> manager_wf (snd (SelectIR m convolver ir l d)).
Proof.
  intros Hm. unfold SelectIR.
  destruct (_ <? _); [|exact Hm]. destruct (_ <? _); [|exact Hm]. cbn [snd].
  apply UpdateConvolverParameters_wf. destruct Hm as [Hl Hall].
  split; cbn; [now rewrite length_insert | assumption].
Qed.

Lemma create_convolvers_wf fuel m :
  Forall (worker_wf (blocksize m)) (convolvers m) ->
  let m' := create_convolvers fuel m in
  blocksize m' = blocksize m /\
  length (parameters m') = length (parameters m) /\
  length (convolvers m') = (length (convolvers m) + fuel)%nat /\
  Forall (worker_wf (blocksize m)) (convolvers m').
Proof.
  revert m. induction fuel as [|k IH]; intros m Hall; cbn [create_convolvers].
  - cbv zeta. rewrite Nat.add_0_r. easy.
  - set (conv := Convolver.new (size (convolvers m)) (blocksize m) (partitions m) dzero).
    set (m1 := with_convolvers m (convolvers m ++ [conv])).
    set (m2 := snd (SelectIR m1 (size (convolvers m1) - 1) 0 done dzero)).
    assert (Hall1 : Forall (worker_wf (blocksize m1)) (convolvers m1)).
    { cbn. rewrite Forall_app. split; [assumption|].
      constructor; [|constructor]. split; [apply new_invariant | reflexivity]. }
    assert (E2 : blocksize m2 = blocksize m /\
                 length (parameters m2) = length (parameters m) /\
                 length (convolvers m2) = S (length (convolvers m)) /\
                 Forall (worker_wf (blocksize m)) (convolvers m2)).
    { subst m2. unfold SelectIR.
      destruct (_ <? _); [|cbn; rewrite length_app; cbn; split; [easy|];
                            split; [easy|]; split; [lia | exact Hall1]].
      destruct (_ <? _); [|cbn; rewrite length_app; cbn; split; [easy|];
                            split; [easy|]; split; [lia | exact Hall1]].
      cbn [snd].
      set (m1' := with_parameters m1 _).
      destruct (UpdateConvolverParameters_frame m1' (size (convolvers m1) - 1)) as [Ep Eb].
      rewrite Ep, Eb.
      assert (Hall1' : Forall (worker_wf (blocksize m)) (convolvers m1')) by exact Hall1.
      destruct (UpdateConvolverParameters_convolvers m1' (size (convolvers m1) - 1))
        as [_ [-> | (w & f & l & d & h & Hw & ->)]].
      - cbn. rewrite length_insert, length_app. cbn. split; [easy|].
        split; [easy|]. split; [lia | exact Hall1].
      - cbn. rewrite !length_insert, length_app. cbn. split; [easy|].
        split; [easy|]. split; [lia|].
        apply Forall_insert; [exact Hall1|]. apply update_wf.
        rewrite Forall_lookup in Hall1'. now apply (Hall1' _ _ Hw). }
    destruct E2 as (Eb & Ep & Ec & Hall2).
    specialize (IH m2). rewrite Eb, Ep, Ec in IH.
    destruct (IH Hall2) as (Eb' & Ep' & Ec' & Hall').
    cbv zeta. split; [assumption|]. split; [assumption|]. split; [lia | assumption].
Qed.

Lemma SetConvolverCount_wf m nconvolvers :
  manager_wf m -> manager_wf (SetConvolverCount m nconvolvers).
Proof.
  intros [Hl Hall]. unfold SetConvolverCount.
  set (m1 := with_parameters m (resize_parameters (parameters m) nconvolvers)).
  assert (Hp1 : length (parameters m1) = Z.to_nat nconvolvers).
  { cbn. unfold resize_parameters.
    rewrite length_app, length_take, length_replicate. lia. }
  pose proof (create_convolvers_wf
                (Z.to_nat nconvolvers - length (convolvers m1)) m1 Hall) as C.
  cbv zeta in C. destruct C as (Eb & Ep & Ec & Hall').
  change (convolvers m1) with (convolvers m) in *.
  change (blocksize m1) with (blocksize m) in *.
  split; cbn [parameters convolvers blocksize with_convolvers].
  - rewrite Ep, Hp1, length_take, Ec. lia.
  - rewrite Eb. now apply Forall_take.
Qed.

Lemma start_convolver_frame input inputchannels outputchannels i m :
  parameters (start_convolver input inputchannels outputchannels i m) = parameters m /\
  blocksize (start_convolver input inputchannels outputchannels i m) = blocksize m.
Proof.
  unfold start_convolver.
  assert (E : parameters (if updateparameters m then UpdateConvolverParameters m i else m)
              = parameters m /\
              blocksize (if updateparameters m then UpdateConvolverParameters m i else m)
              = blocksize m).
  { destruct (updateparameters m); [apply UpdateConvolverParameters_frame | easy]. }
  destruct (convolvers _ !! _); exact E.
Qed.

Lemma Convolve_wf m input output inputchannels outputchannels :
  manager_wf m ->
  manager_wf (fst (Convolve m input output inputchannels outputchannels)).
Proof.
  intros [Hl Hall]. unfold Convolve.
  set (B := blocksize m) in *.
  assert (L1 : let m1 := for_loop (size (convolvers m))
                           (start_convolver input inputchannels outputchannels) m in
               parameters m1 = parameters m /\ blocksize m1 = B /\
               length (convolvers m1) = length (convolvers m) /\
               Forall (worker_wf B) (convolvers m1)).
  { apply (for_loop_invariant
             (fun _ mk => parameters mk = parameters m /\ blocksize mk = B /\
                          length (convolvers mk) = length (convolvers m) /\
                          Forall (worker_wf B) (convolvers mk))).
    - apply Nat2Z.is_nonneg.
    - intros k mk Hk (Ep & Eb & El & Hk').
      destruct (start_convolver_frame input inputchannels outputchannels k mk) as [-> ->].
      split; [assumption|]. split; [assumption|].
      destruct (size_lookup (convolvers mk) k) as [w Hw];
        [unfold size in *; rewrite El; exact Hk|].
      pose proof Hk' as Hk''. rewrite Forall_lookup in Hk''.
      destruct (start_convolver_convolvers input inputchannels outputchannels k mk w B
                  Hw (Hk'' _ _ Hw)) as (w0 & Hwf0 & _ & ->).
      rewrite length_insert. split; [assumption|].
      apply Forall_insert; [assumption|]. now apply StartConvolution_wf.
    - easy. }
  cbv zeta in L1.
  set (m1 := for_loop (size (convolvers m))
               (start_convolver input inputchannels outputchannels) m) in *.
  destruct L1 as (Ep1 & Eb1 & El1 & Hall1).
  set (m3 := with_convolvers (with_updateparameters m1 false)
               (Convolver.Process_step <$> convolvers (with_updateparameters m1 false))).
  assert (Hall3 : Forall (worker_wf B) (convolvers m3)).
  { cbn. rewrite Forall_fmap. eapply Forall_impl; [exact Hall1|].
    intros w Hw. cbn. now apply Process_step_wf. }
  assert (El3 : length (convolvers m3) = length (convolvers m))
    by (cbn; now rewrite length_fmap).
  assert (L2 : let r := for_loop (size (convolvers m3)) (end_convolver outputchannels)
                          (m3, output) in
               parameters (fst r) = parameters m /\ blocksize (fst r) = B /\
               length (convolvers (fst r)) = length (convolvers m) /\
               Forall (worker_wf B) (convolvers (fst r))).
  { apply (for_loop_invariant
             (fun _ (acc : t * list float) =>
                parameters (fst acc) = parameters m /\ blocksize (fst acc) = B /\
                length (convolvers (fst acc)) = length (convolvers m) /\
                Forall (worker_wf B) (convolvers (fst acc)))).
    - apply Nat2Z.is_nonneg.
    - intros k [mk out] Hk (Ep & Eb & El & Hk'). cbn [fst] in *.
      unfold end_convolver.
      destruct (convolvers mk !! Z.to_nat k) as [w|] eqn:Hw; [|easy].
      pose proof Hk' as Hk''. rewrite Forall_lookup in Hk''.
      destruct (Hk'' _ _ Hw) as [Hinv HB].
      destruct (Convolver.EndConvolution w out (UInt.rem k outputchannels) outputchannels
                  (audioscale mk)) as [w' out'] eqn:Ew.
      cbn [fst convolvers parameters blocksize with_convolvers].
      rewrite length_insert. split; [assumption|]. split; [assumption|].
      split; [assumption|]. apply Forall_insert; [assumption|].
      assert (w' = Convolver.apply_op
                     (Convolver.OpEnd out (UInt.rem k outputchannels) outputchannels
                        (audioscale mk)) w) as -> by (cbn; now rewrite Ew).
      split; [now apply apply_op_invariant|].
      rewrite <- HB. apply apply_op_sizes.
    - cbn [fst]. easy. }
  cbv zeta in L2. destruct L2 as (Ep & Eb & El & Hall').
  unfold manager_wf. rewrite Ep, Eb, El. easy.
Qed.

(** Every manager reached from its constructor is well formed. *)
Lemma reachable_manager_wf m : reachable m -> manager_wf m.
Proof.
  induction 1 as [B | o m Hr IH].
  - split; [reflexivity | constructor].
  - destruct o; cbn [apply_op].
    + unfold SetPartitionSize. destruct (Z.eqb_spec (size (convolvers m)) 0) as [E|E].
      * destruct IH as [Hl _]. unfold size in E.
        destruct (convolvers m); [|cbn in E; lia]. split; [exact Hl | constructor].
      * exact IH.
    + exact IH.
    + unfold LoadIRDelays. destruct file; exact IH.
    + unfold SetIRDelays. destruct (negb _); [|exact IH].
      destruct (for_loop _ _ _). exact IH.
    + exact IH.
    + exact IH.
    + now apply SetConvolverCount_wf.
    + now apply SelectIR_wf.
    + now apply Convolve_wf.
Qed.

End TickProperties.

(** ** Silence *)

Lemma rd_replicate_zero n i : rd (replicate n FP.fzero) i = FP.fzero.
Proof.
  unfold rd. destruct (decide (Z.to_nat i < n)%nat) as [Hlt|Hge].
  - now apply lookup_total_replicate_2.
  - rewrite list_lookup_total_alt.
    replace (replicate n FP.fzero !! Z.to_nat i) with (@None FP.float); [reflexivity|].
    symmetry. apply lookup_replicate_None. lia.
Qed.

(** Zeros are silence, whatever the block size, the channel and the number
    of channels. *)
Lemma silent_zeros B n d inputchannels :
  silent_block B (drop d (replicate n FP.fzero)) inputchannels.
Proof.
  intros k Hk. rewrite drop_replicate, rd_replicate_zero. reflexivity.
Qed.

(** ** More about the worker *)

Section WorkerRunProperties.
Context `{BlockConvolverLib} `{FractionalSampleLib}.
Import FP.

Lemma apply_op_maxzeroblocks o w :
  Convolver.maxzeroblocks (Convolver.apply_op o w) = Convolver.maxzeroblocks w.
Proof.
  destruct o; cbn [Convolver.apply_op].
  - unfold Convolver.StartConvolution. destruct (for_loop _ _ _). reflexivity.
  - unfold Convolver.EndConvolution. now destruct (_ <? _).
  - reflexivity.
  - unfold Convolver.SetFilter. now destruct (decide _).
  - unfold Convolver.Process_step, Convolver.Process_block.
    destruct (_ && _); [|easy]. destruct (Convolver.quitthread w); [easy|].
    destruct (_ <? _); [destruct (Convolver.Convolve w) as [[? ?] ?]|]; reflexivity.
  - unfold Convolver.StopThread. now destruct (Convolver.thread w).
Qed.

Lemma apply_op_zeroblocks o w :
  is_start o = false ->
  Convolver.zeroblocks (Convolver.apply_op o w) = Convolver.zeroblocks w.
Proof.
  destruct o; cbn [Convolver.apply_op is_start]; try discriminate; intros _.
  - unfold Convolver.EndConvolution. now destruct (_ <? _).
  - reflexivity.
  - unfold Convolver.SetFilter. now destruct (decide _).
  - unfold Convolver.Process_step, Convolver.Process_block.
    destruct (_ && _); [|easy]. destruct (Convolver.quitthread w); [easy|].
    destruct (_ <? _); [destruct (Convolver.Convolve w) as [[? ?] ?]|]; reflexivity.
  - unfold Convolver.StopThread. now destruct (Convolver.thread w).
Qed.

(** A silent block moves the counter one step towards the threshold. *)
Lemma StartConvolution_silent w _input inputchannels :
  worker_invariant w ->
  silent_block (Convolver.blocksize w) _input inputchannels ->
  let w' := Convolver.StartConvolution w _input inputchannels in
  Convolver.zeroblocks w'
    = Z.min (Convolver.zeroblocks w + 1) (Convolver.maxzeroblocks w) /\
  Convolver.startsignal w'
    = (Convolver.startsignal w
       || (Convolver.zeroblocks w + 1 <? Convolver.maxzeroblocks w)).
Proof.
  intros [Hm Hz Hi Ho Hd] Hsilent. cbv zeta.
  assert (Hinc : Convolver.zeroblocks w < Convolver.maxzeroblocks w ->
                 UInt.add (Convolver.zeroblocks w) 1 = Convolver.zeroblocks w + 1).
  { intros Hlt. unfold UInt.add. apply wrap_small.
    pose proof (wrap_range (UInt.wrap (Convolver.partitions w +
                  UInt.div maxadditionaldelay (Convolver.blocksize w)) + 1)) as R.
    unfold calc_maxzeroblocks, UInt.add in Hm. rewrite <- Hm in R.
    unfold UInt.in_range in *. lia. }
  unfold Convolver.StartConvolution.
  set (B := Convolver.blocksize w) in *.
  assert (Hnz : snd (for_loop B (Convolver.copy_input _input inputchannels)
                       (Convolver.input w, false)) = false).
  { destruct (Z_le_gt_dec 0 B) as [HB|HB].
    - pose proof (copy_input_loop _input inputchannels B (Convolver.input w)
                    ltac:(lia)) as (_ & _ & L).
      destruct (snd _); [|reflexivity].
      destruct (proj1 L eq_refl) as (k & Hk & Hnzk).
      rewrite (Hsilent k Hk) in Hnzk. discriminate.
    - unfold for_loop. now rewrite Z2Nat.nonpos by lia. }
  destruct (for_loop _ _ _) as [inp nz]. cbn [snd] in Hnz. subst nz. cbn.
  destruct (Z.ltb_spec (Convolver.zeroblocks w) (Convolver.maxzeroblocks w)) as [Hlt|Hge].
  - rewrite Hinc by assumption. split; [lia|].
    destruct (Z.ltb_spec (Convolver.zeroblocks w + 1) (Convolver.maxzeroblocks w));
      [now rewrite orb_true_r | now rewrite orb_false_r].
  - split; [lia|].
    destruct (Z.ltb_spec (Convolver.zeroblocks w) (Convolver.maxzeroblocks w)); [lia|].
    destruct (Z.ltb_spec (Convolver.zeroblocks w + 1) (Convolver.maxzeroblocks w)); [lia|].
    now rewrite orb_false_r.
Qed.

Lemma run_worker_reachable ops w :
  Convolver.reachable w -> Convolver.reachable (run_worker ops w).
Proof.
  revert w. induction ops as [|o ops IH]; intros w Hw; [exact Hw|].
  cbn. apply IH. now constructor.
Qed.

(** X1. Over any run of operations in which every started block is silent,
    [zeroblocks] counts the started blocks and saturates at [maxzeroblocks];
    once that many silent blocks have been started the worker is gated. *)
Theorem silent_run_counts_blocks w ops :
  Convolver.reachable w ->
  starts_silent (Convolver.blocksize w) ops ->
  Convolver.zeroblocks (run_worker ops w)
    = Z.min (Convolver.zeroblocks w + count_starts ops) (Convolver.maxzeroblocks w) /\
  (Convolver.maxzeroblocks w - Convolver.zeroblocks w <= count_starts ops ->
   Convolver.IsProcessing (run_worker ops w) = false).
Proof.
  intros Hr Hs.
  assert (E : Convolver.zeroblocks (run_worker ops w)
              = Z.min (Convolver.zeroblocks w + count_starts ops)
                      (Convolver.maxzeroblocks w) /\
              Convolver.maxzeroblocks (run_worker ops w) = Convolver.maxzeroblocks w).
  { revert w Hr Hs. induction ops as [|o ops IH]; intros w Hr Hs.
    - cbn. pose proof (inv_zeroblocks w (reachable_invariant w Hr)).
      unfold count_starts. cbn. split; [lia | reflexivity].
    - inversion Hs as [|? ? Ho Hrest]; subst.
      destruct (apply_op_sizes o w) as [EB _].
      cbn [run_worker fold_left]. fold (run_worker ops (Convolver.apply_op o w)).
      destruct (IH (Convolver.apply_op o w) ltac:(now constructor)
                  ltac:(now rewrite EB)) as [IHz IHm].
      rewrite IHz, IHm, apply_op_maxzeroblocks. split; [|reflexivity].
      unfold count_starts in *. cbn [List.filter].
      destruct (is_start o) eqn:Eo.
      + destruct o; try discriminate. cbn [Convolver.apply_op].
        destruct (StartConvolution_silent w _input inputchannels
                    (reachable_invariant w Hr) Ho) as [-> _].
        cbn [length]. pose proof (inv_zeroblocks w (reachable_invariant w Hr)). lia.
      + rewrite apply_op_zeroblocks by assumption. reflexivity. }
  destruct E as [Ez Em]. split; [exact Ez|].
  intros Hn. unfold Convolver.IsProcessing. rewrite Ez, Em.
  apply Z.ltb_ge. lia.
Qed.

(** X2. A gated worker is not woken by silence: [StartConvolution] only
    copies the block, the thread stays blocked, [EndConvolution] returns the
    output buffer as it was, and the worker keeps its output block, its delay
    memory and its convolver. *)
Theorem gated_worker_ignores_silence w _input inputchannels out off outputchannels level :
  Convolver.reachable w ->
  Convolver.zeroblocks w = Convolver.maxzeroblocks w ->
  Convolver.startsignal w = false ->
  silent_block (Convolver.blocksize w) _input inputchannels ->
  let w' := Convolver.StartConvolution w _input inputchannels in
  Convolver.startsignal w' = false /\
  Convolver.zeroblocks w' = Convolver.maxzeroblocks w' /\
  Convolver.Process_step w' = w' /\
  Convolver.EndConvolution w' out off outputchannels level = (w', out) /\
  Convolver.output w' = Convolver.output w /\
  Convolver.delay w' = Convolver.delay w /\
  Convolver.delaypos w' = Convolver.delaypos w /\
  Convolver.convolver w' = Convolver.convolver w.
Proof.
  intros Hr Hg Hidle Hs w'.
  destruct (StartConvolution_silent w _input inputchannels
              (reachable_invariant w Hr) Hs) as [Ez Es].
  fold w' in Ez, Es.
  assert (Em : Convolver.maxzeroblocks w' = Convolver.maxzeroblocks w)
    by apply (apply_op_maxzeroblocks (Convolver.OpStart _input inputchannels)).
  assert (Ez' : Convolver.zeroblocks w' = Convolver.maxzeroblocks w') by lia.
  assert (Es' : Convolver.startsignal w' = false).
  { rewrite Es, Hidle. cbn. apply Z.ltb_ge. lia. }
  split; [exact Es'|]. split; [exact Ez'|]. split; [|split].
  - unfold Convolver.Process_step. rewrite Es'. now rewrite andb_false_r.
  - unfold Convolver.EndConvolution. rewrite Ez', Z.ltb_irrefl. reflexivity.
  - subst w'. unfold Convolver.StartConvolution. destruct (for_loop _ _ _). now cbn.
Qed.

End WorkerRunProperties.

Section DelayMemory.
Context `{BlockConvolverLib} `{FractionalSampleLib}.
Import FP.

(** [store_block] writes the block at [pos .. pos+n-1] and nothing else. *)
Lemma store_block_spec mem pos n blk :
  0 <= pos -> 0 <= n -> pos + n <= Z.of_nat (length mem) ->
  let mem' := Convolver.store_block mem pos n blk in
  length mem' = length mem /\
  (forall i, 0 <= i < n -> rd mem' (pos + i) = rd blk i) /\
  (forall k, 0 <= k -> k < pos \/ pos + n <= k -> rd mem' k = rd mem k).
Proof.
  intros Hpos Hn Hfit mem'. subst mem'. unfold Convolver.store_block.
  apply (for_loop_invariant
           (fun j (m : list float) =>
              length m = length mem /\
              (forall i, 0 <= i < j -> rd m (pos + i) = rd blk i) /\
              (forall k, 0 <= k -> k < pos \/ pos + j <= k -> rd m k = rd mem k))).
  - assumption.
  - intros j m Hj (Hlen & Hin & Hout). rewrite length_wr. split; [assumption|]. split.
    + intros i Hi. destruct (Z.eq_dec i j) as [->|Hne].
      * rewrite rd_wr_eq by lia. reflexivity.
      * rewrite rd_wr_ne by lia. apply Hin. lia.
    + intros k Hk Hfar. rewrite rd_wr_ne by lia. apply Hout; lia.
  - split; [reflexivity|]. split; [intros; lia | reflexivity].
Qed.

(** X3. When the counter of silent blocks has reached the number of
    partitions, the thread does not call the block convolver: it writes
    [blocksize] zeros at the write position of the delay memory, leaves every
    other sample of the memory, the convolver and the filter in use as they
    were, and still signals completion. *)
Theorem Process_block_skips_convolution w :
  Convolver.reachable w ->
  0 < Convolver.blocksize w < 2 ^ 30 ->
  Convolver.partitions w <= Convolver.zeroblocks w ->
  let w' := Convolver.Process_block w in
  Convolver.convolver w' = Convolver.convolver w /\
  Convolver.current_filter w' = Convolver.current_filter w /\
  Convolver.donesignal w' = true /\
  length (Convolver.delay w') = length (Convolver.delay w) /\
  (forall i, 0 <= i < Convolver.blocksize w ->
     rd (Convolver.delay w') (Convolver.delaypos w + i) = fzero) /\
  (forall k, 0 <= k ->
     k < Convolver.delaypos w \/ Convolver.delaypos w + Convolver.blocksize w <= k ->
     rd (Convolver.delay w') k = rd (Convolver.delay w) k).
Proof.
  intros Hr HB Hz w'.
  destruct (reachable_delaypos w Hr HB) as (Hp0 & Hp1 & _).
  pose proof (inv_delay w (reachable_invariant w Hr)) as Hlen.
  pose proof (store_block_spec (Convolver.delay w) (Convolver.delaypos w)
                (Convolver.blocksize w)
                (replicate (Z.to_nat (Convolver.blocksize w)) fzero)
                Hp0 ltac:(lia) ltac:(lia)) as (L1 & L2 & L3).
  subst w'. unfold Convolver.Process_block.
  destruct (Z.ltb_spec (Convolver.zeroblocks w) (Convolver.partitions w)); [lia|].
  cbn. split; [reflexivity|]. split; [reflexivity|]. split; [reflexivity|].
  split; [exact L1|]. split; [|exact L3].
  intros i Hi. rewrite L2 by assumption. apply rd_replicate_zero.
Qed.

(** The filter the next block is convolved with, and what installs it. *)
Lemma Convolve_fields w :
  let '(c, cur, blk) := Convolver.Convolve w in
  let picked :=
    match Convolver.filter w with
    | Some f =>
        if decide (Convolver.filter w <> Convolver.current_filter w) then
          match Convolver.current_filter w with
          | None => set_filter (Convolver.convolver w) f
          | Some _ => crossfade_filter (Convolver.convolver w) f
          end
        else Convolver.convolver w
    | None => Convolver.convolver w
    end in
  c = fst (filter_block picked (Convolver.input w)) /\
  blk = snd (filter_block picked (Convolver.input w)) /\
  cur = match Convolver.filter w with
        | Some f => Some f
        | None => Convolver.current_filter w
        end.
Proof.
  unfold Convolver.Convolve.
  destruct (Convolver.filter w) as [f|] eqn:Ef.
  - destruct (decide (Some f <> Convolver.current_filter w)) as [Hne|Heq].
    + destruct (Convolver.current_filter w);
        destruct (filter_block _ _); cbn; auto.
    + destruct (filter_block _ _); cbn. split; [reflexivity|]. split; [reflexivity|].
      destruct (decide (Some f = Convolver.current_filter w)) as [E|E];
        [now symmetry | contradiction].
  - destruct (filter_block _ _); cbn; auto.
Qed.

(** X4. A filter set with [SetFilter] is picked up by the next block that is
    convolved: it is installed with [set_filter] when the worker had none and
    crossfaded to otherwise, the block that goes into the delay memory is the
    one the block convolver returns, and the block after that installs
    nothing: it is convolved with the convolver as the first one left it. *)
Theorem Process_block_picks_up_filter w f :
  Convolver.reachable w ->
  0 < Convolver.blocksize w < 2 ^ 30 ->
  Convolver.zeroblocks w < Convolver.partitions w ->
  Convolver.filter w = Some f ->
  Convolver.current_filter w <> Some f ->
  let installed :=
    match Convolver.current_filter w with
    | None => set_filter (Convolver.convolver w) f
    | Some _ => crossfade_filter (Convolver.convolver w) f
    end in
  let w' := Convolver.Process_block w in
  Convolver.current_filter w' = Some f /\
  Convolver.convolver w' = fst (filter_block installed (Convolver.input w)) /\
  (forall i, 0 <= i < Convolver.blocksize w ->
     rd (Convolver.delay w') (Convolver.delaypos w + i)
       = rd (snd (filter_block installed (Convolver.input w))) i) /\
  (forall k, 0 <= k ->
     k < Convolver.delaypos w \/ Convolver.delaypos w + Convolver.blocksize w <= k ->
     rd (Convolver.delay w') k = rd (Convolver.delay w) k) /\
  Convolver.Convolve w'
    = (fst (filter_block (Convolver.convolver w') (Convolver.input w')),
       Some f,
       snd (filter_block (Convolver.convolver w') (Convolver.input w'))).
Proof.
  intros Hr HB Hz Hf Hnew installed w'.
  destruct (reachable_delaypos w Hr HB) as (Hp0 & Hp1 & _).
  pose proof (inv_delay w (reachable_invariant w Hr)) as Hlen.
  pose proof (Convolve_fields w) as C.
  assert (Ew : Convolver.current_filter w' = Some f /\
               Convolver.filter w' = Some f /\
               Convolver.convolver w'
                 = fst (filter_block installed (Convolver.input w)) /\
               Convolver.delay w'
                 = Convolver.store_block (Convolver.delay w) (Convolver.delaypos w)
                     (Convolver.blocksize w)
                     (snd (filter_block installed (Convolver.input w)))).
  { subst w'. unfold Convolver.Process_block.
    destruct (Z.ltb_spec (Convolver.zeroblocks w) (Convolver.partitions w)); [|lia].
    destruct (Convolver.Convolve w) as [[c cur] blk].
    rewrite Hf in C. cbv zeta in C.
    destruct (decide (Some f <> Convolver.current_filter w)) as [_|Heq];
      [|exfalso; apply Hnew; destruct (decide (Some f = Convolver.current_filter w));
          [now symmetry | contradiction]].
    destruct C as (-> & -> & ->). cbn. rewrite Hf. auto. }
  destruct Ew as (Ecur & Efil & Ec & Ed).
  pose proof (store_block_spec (Convolver.delay w) (Convolver.delaypos w)
                (Convolver.blocksize w)
                (snd (filter_block installed (Convolver.input w)))
                Hp0 ltac:(lia) ltac:(lia)) as (_ & L2 & L3).
  rewrite <- Ed in L2, L3.
  split; [exact Ecur|]. split; [exact Ec|]. split; [exact L2|]. split; [exact L3|].
  unfold Convolver.Convolve. rewrite Efil, Ecur.
  destruct (decide (Some f <> Some f)) as [N|_]; [contradiction|].
  generalize (filter_block (Convolver.convolver w') (Convolver.input w')).
  intros [c' blk]. reflexivity.
Qed.

(** The mixing loop writes only the samples [off + i * outputchannels],
    [i < blocksize]. *)
Lemma mix_loop_frame w off outputchannels lvl (out : list float) B :
  0 <= B -> 0 <= off -> 0 <= outputchannels ->
  let out' := for_loop B (Convolver.mix_sample w off outputchannels lvl) out in
  length out' = length out /\
  forall k, 0 <= k ->
    (forall i, 0 <= i < B -> k <> off + UInt.mul i outputchannels) ->
    rd out' k = rd out k.
Proof.
  intros HB Hoff Hoc out'. subst out'.
  apply (for_loop_invariant
           (fun j (o : list float) =>
              length o = length out /\
              forall k, 0 <= k ->
                (forall i, 0 <= i < j -> k <> off + UInt.mul i outputchannels) ->
                rd o k = rd out k)).
  - assumption.
  - intros j o Hj (Hlen & Hfr). unfold Convolver.mix_sample. rewrite length_wr.
    split; [assumption|]. intros k Hk Hne.
    pose proof (wrap_range (j * outputchannels)) as R. unfold UInt.in_range in R.
    rewrite rd_wr_ne.
    + apply Hfr; [assumption|]. intros i Hi. apply Hne. lia.
    + unfold UInt.mul. lia.
    + assumption.
    + intros E. apply (Hne j); [lia | now symmetry].
  - split; [reflexivity|]. intros; reflexivity.
Qed.

(** X5. [EndConvolution] only ever adds to the samples of its own channel
    within the block: the buffer keeps its length, the samples of the other
    channels and everything after the block are left as they are, and a gated
    worker leaves the whole buffer and itself untouched. *)
Theorem EndConvolution_frame w out off outputchannels level :
  0 <= Convolver.blocksize w ->
  0 <= off < outputchannels ->
  Convolver.blocksize w * outputchannels <= UInt.modulus ->
  let '(w', out') := Convolver.EndConvolution w out off outputchannels level in
  length out' = length out /\
  (forall k, 0 <= k ->
     k mod outputchannels <> off \/ Convolver.blocksize w * outputchannels <= k ->
     rd out' k = rd out k) /\
  (Convolver.IsProcessing w = false -> w' = w /\ out' = out).
Proof.
  intros HB Hoff Hov. unfold Convolver.EndConvolution, Convolver.IsProcessing.
  destruct (Z.ltb_spec (Convolver.zeroblocks w) (Convolver.maxzeroblocks w)) as [Hlt|Hge].
  - destruct (mix_loop_frame w off outputchannels level out (Convolver.blocksize w)
                HB ltac:(lia) ltac:(lia)) as (Hlen & Hfr).
    split; [exact Hlen|]. split; [|discriminate].
    intros k Hk Hfar. apply Hfr; [assumption|]. intros i Hi E.
    assert (Ei : UInt.mul i outputchannels = i * outputchannels).
    { apply wrap_small. unfold UInt.in_range. split; [nia|].
      assert (i * outputchannels < Convolver.blocksize w * outputchannels) by nia. lia. }
    rewrite Ei in E. destruct Hfar as [Hmod|Hbig].
    + apply Hmod. subst k. rewrite Z.mod_add by lia. apply Z.mod_small. lia.
    + assert ((i + 1) * outputchannels <= Convolver.blocksize w * outputchannels) by nia.
      lia.
  - split; [reflexivity|]. split; [reflexivity|]. intros _. split; reflexivity.
Qed.

(** A non-negative integer converts to a double that is not below zero. *)
Lemma double_of_Z_not_negative z : 0 <= z -> dltb (double_of_Z z) dzero = false.
Proof.
  intros Hz. unfold double_of_Z, binary_normalize.
  destruct z as [|p|p]; [reflexivity| |lia].
  unfold binary_round. destruct (shl_align _ _ _) as [mz ez].
  unfold binary_round_aux.
  destruct (shr_fexp _ _ _ _ _) as [mrs' e'].
  destruct (shr_fexp _ _ _ _ _) as [mrs'' e''].
  destruct (shr_m mrs''); [reflexivity | | reflexivity].
  destruct (_ <=? _); reflexivity.
Qed.

(** X6. The delay that [Process] interpolates from never exceeds the limit
    [delaylen - blocksize - 1 - FractionalSampleAdditionalDelayRequired()]:
    in every state a worker reaches, the delay of the last processed block is
    not above that limit, whatever was passed to [SetParameters]. *)
Theorem delay_is_clamped w :
  Convolver.reachable w ->
  dltb (double_of_Z (Convolver.maxdelay w)) (Convolver.delay1 w) = false.
Proof.
  induction 1 as [i B P d | o w Hr IH].
  - cbn [Convolver.new Convolver.delay1].
    pose proof (wrap_range (UInt.sub (UInt.sub (Convolver.delaylen
                  (Convolver.new i B P d)) (Convolver.blocksize (Convolver.new i B P d))) 1
                  - FractionalSampleAdditionalDelayRequired)) as R.
    apply double_of_Z_not_negative. unfold Convolver.maxdelay, UInt.sub at 1.
    unfold UInt.in_range in R. lia.
  - assert (Em : forall w', Convolver.blocksize w' = Convolver.blocksize w ->
                            Convolver.maxdelay w' = Convolver.maxdelay w).
    { intros w' E. unfold Convolver.maxdelay, Convolver.delaylen. now rewrite E. }
    destruct (apply_op_sizes o w) as [EB _]. rewrite (Em _ EB).
    destruct o; cbn [Convolver.apply_op]; try exact IH.
    + unfold Convolver.StartConvolution. destruct (for_loop _ _ _). exact IH.
    + unfold Convolver.EndConvolution. destruct (_ <? _); exact IH.
    + unfold Convolver.SetFilter. destruct (decide _); exact IH.
    + unfold Convolver.Process_step.
      destruct (_ && _); [|exact IH]. destruct (Convolver.quitthread w); [exact IH|].
      unfold Convolver.Process_block.
      destruct (_ <? _); [destruct (Convolver.Convolve w) as [[? ?] ?]|];
        cbn [Convolver.delay1]; apply MIN_clamps.
    + unfold Convolver.StopThread. destruct (Convolver.thread w); exact IH.
Qed.

End DelayMemory.

(** ** More about the manager *)

Section ManagerMore.
Context `{BlockConvolverLib} `{FractionalSampleLib}.
Import FP.
Import ConvolverManager.

Lemma with_convolvers_id m : with_convolvers m (convolvers m) = m.
Proof. now destruct m. Qed.

(** [UpdateConvolverParameters] replaces one worker and nothing else. *)
Lemma UpdateConvolverParameters_worker m i w :
  0 <= i -> convolvers m !! Z.to_nat i = Some w ->
  UpdateConvolverParameters m i
  = with_convolvers m (<[Z.to_nat i := updated_worker m (Z.to_nat i) w]> (convolvers m)).
Proof.
  intros Hi Hw. unfold UpdateConvolverParameters, updated_worker.
  assert (Hid : with_convolvers m (<[Z.to_nat i := w]> (convolvers m)) = m).
  { rewrite list_insert_id by assumption. apply with_convolvers_id. }
  pose proof (lookup_lt_Some _ _ _ Hw) as Hlt.
  destruct (Z.ltb_spec i (size (convolvers m))) as [_|Hge]; [|unfold size in Hge; lia].
  rewrite Hw. destruct (parameters m !! Z.to_nat i) as [params|]; [|now rewrite Hid].
  cbv zeta. destruct (_ <? _); [|now rewrite Hid].
  destruct (filters m !! _); [reflexivity | now rewrite Hid].
Qed.

(** X7. [UpdateConvolverParameters] is idempotent: applying it a second time
    to the same convolver changes nothing, so a pending update that is
    applied twice does no harm. *)
Theorem UpdateConvolverParameters_idempotent m convolver :
  0 <= convolver ->
  UpdateConvolverParameters (UpdateConvolverParameters m convolver) convolver
  = UpdateConvolverParameters m convolver.
Proof.
  intros Hc.
  destruct (convolvers m !! Z.to_nat convolver) as [w|] eqn:Hw.
  - pose proof (lookup_lt_Some _ _ _ Hw) as Hlt.
    rewrite (UpdateConvolverParameters_worker m convolver w Hc Hw).
    set (w' := updated_worker m (Z.to_nat convolver) w).
    rewrite (UpdateConvolverParameters_worker _ convolver w' Hc)
      by (cbn; now apply list_lookup_insert_eq).
    cbn [convolvers with_convolvers]. rewrite list_insert_insert_eq.
    assert (E : updated_worker
                  (with_convolvers m (<[Z.to_nat convolver := w']> (convolvers m)))
                  (Z.to_nat convolver) w' = w').
    { subst w'. unfold updated_worker. cbn [parameters filters hqproc with_convolvers].
      destruct (parameters m !! Z.to_nat convolver) as [params|]; [|reflexivity].
      cbv zeta. destruct (_ <? _); [|reflexivity].
      destruct (filters m !! _) as [f|]; [|reflexivity].
      unfold Convolver.SetFilter at 1. cbn [Convolver.filter Convolver.SetParameters].
      destruct (decide (Some f <> Convolver.filter (Convolver.SetFilter w f))) as [N|_].
      - exfalso. apply N. unfold Convolver.SetFilter.
        destruct (decide (Some f <> Convolver.filter w)) as [_|E]; [reflexivity|].
        destruct (decide (Some f = Convolver.filter w)); [assumption | contradiction].
      - reflexivity. }
    rewrite E. reflexivity.
  - unfold UpdateConvolverParameters at 1 2.
    apply lookup_ge_None in Hw.
    destruct (Z.ltb_spec convolver (size (convolvers m))); [unfold size in *; lia|].
    unfold UpdateConvolverParameters.
    destruct (Z.ltb_spec convolver (size (convolvers m))); [unfold size in *; lia|].
    reflexivity.
Qed.

(** The first loop of [Convolve], worker by worker. *)
Lemma start_loop_workers input inputchannels outputchannels m :
  exists cs,
    for_loop (size (convolvers m)) (start_convolver input inputchannels outputchannels) m
    = with_convolvers m cs /\
    length cs = length (convolvers m) /\
    forall (j : nat) w, convolvers m !! j = Some w ->
      cs !! j = Some (Convolver.StartConvolution
                        (if updateparameters m then updated_worker m j w else w)
                        (drop (Z.to_nat (UInt.div (Z.of_nat j) outputchannels)) input)
                        inputchannels).
Proof.
  pose proof (for_loop_invariant
    (fun k mk =>
       exists cs, mk = with_convolvers m cs /\
         length cs = length (convolvers m) /\
         forall (j : nat) w, convolvers m !! j = Some w ->
           cs !! j = Some (if Z.of_nat j <? k then
                             Convolver.StartConvolution
                               (if updateparameters m then updated_worker m j w else w)
                               (drop (Z.to_nat (UInt.div (Z.of_nat j) outputchannels)) input)
                               inputchannels
                           else w))
    (start_convolver input inputchannels outputchannels)
    (size (convolvers m)) m (Nat2Z.is_nonneg _)) as L.
  destruct L as (cs & E & Hl & Hcs).
  - intros k mk Hk (cs & -> & Hl & Hcs).
    destruct (size_lookup (convolvers m) k Hk) as [w Hw].
    pose proof (Hcs _ _ Hw) as Hk'. rewrite Z2Nat.id, Z.ltb_irrefl in Hk' by lia.
    set (w1 := if updateparameters m then updated_worker m (Z.to_nat k) w else w).
    exists (<[Z.to_nat k :=
                Convolver.StartConvolution w1
                  (drop (Z.to_nat (UInt.div k outputchannels)) input) inputchannels]> cs).
    split; [|split].
    + unfold start_convolver. cbn [updateparameters with_convolvers].
      assert (E1 : (if updateparameters m
                    then UpdateConvolverParameters (with_convolvers m cs) k
                    else with_convolvers m cs)
                   = with_convolvers m (<[Z.to_nat k := w1]> cs)).
      { subst w1. destruct (updateparameters m).
        - rewrite (UpdateConvolverParameters_worker _ k w) by (first [lia | exact Hk']).
          reflexivity.
        - now rewrite list_insert_id. }
      rewrite E1. cbn [convolvers with_convolvers].
      rewrite list_lookup_insert_eq by (apply lookup_lt_Some in Hk'; assumption).
      rewrite list_insert_insert_eq. reflexivity.
    + now rewrite length_insert.
    + intros j wj Hj. destruct (Nat.eq_dec j (Z.to_nat k)) as [->|Hne].
      * rewrite list_lookup_insert_eq by (apply lookup_lt_Some in Hk'; assumption).
        rewrite Hw in Hj. injection Hj as <-.
        destruct (Z.ltb_spec (Z.of_nat (Z.to_nat k)) (k + 1)); [|lia].
        subst w1. now rewrite Z2Nat.id by lia.
      * rewrite list_lookup_insert_ne by congruence. rewrite (Hcs _ _ Hj).
        destruct (Z.ltb_spec (Z.of_nat j) k), (Z.ltb_spec (Z.of_nat j) (k + 1));
          try reflexivity; lia.
  - exists (convolvers m). split; [now rewrite with_convolvers_id|].
    split; [reflexivity|]. intros j w Hj. destruct (Z.ltb_spec (Z.of_nat j) 0); [lia | exact Hj].
  - exists cs. split; [exact E|]. split; [exact Hl|].
    intros j w Hj. rewrite (Hcs _ _ Hj).
    apply lookup_lt_Some in Hj.
    destruct (Z.ltb_spec (Z.of_nat j) (size (convolvers m))); [reflexivity|].
    unfold size in *. lia.
Qed.

(** The second loop of [Convolve], worker by worker. *)
Lemma end_loop_workers outputchannels m3 (output : list float) :
  exists cs,
    fst (for_loop (size (convolvers m3)) (end_convolver outputchannels) (m3, output))
    = with_convolvers m3 cs /\
    length cs = length (convolvers m3) /\
    forall (j : nat) w, convolvers m3 !! j = Some w ->
      cs !! j = Some (if Convolver.IsProcessing w
                      then Convolver.with_donesignal w false else w).
Proof.
  pose proof (for_loop_invariant
    (fun k (acc : t * list float) =>
       exists cs, fst acc = with_convolvers m3 cs /\
         length cs = length (convolvers m3) /\
         forall (j : nat) w, convolvers m3 !! j = Some w ->
           cs !! j = Some (if Z.of_nat j <? k then
                             if Convolver.IsProcessing w
                             then Convolver.with_donesignal w false else w
                           else w))
    (end_convolver outputchannels)
    (size (convolvers m3)) (m3, output) (Nat2Z.is_nonneg _)) as L.
  destruct L as (cs & E & Hl & Hcs).
  - intros k [mk out] Hk (cs & E & Hl & Hcs). cbn [fst] in E. subst mk.
    destruct (size_lookup (convolvers m3) k Hk) as [w Hw].
    pose proof (Hcs _ _ Hw) as Hk'. rewrite Z2Nat.id, Z.ltb_irrefl in Hk' by lia.
    exists (<[Z.to_nat k := if Convolver.IsProcessing w
                            then Convolver.with_donesignal w false else w]> cs).
    split; [|split].
    + unfold end_convolver. cbn [convolvers with_convolvers]. rewrite Hk'.
      unfold Convolver.EndConvolution, Convolver.IsProcessing.
      destruct (_ <? _); reflexivity.
    + now rewrite length_insert.
    + intros j wj Hj. destruct (Nat.eq_dec j (Z.to_nat k)) as [->|Hne].
      * rewrite list_lookup_insert_eq by (apply lookup_lt_Some in Hk'; assumption).
        rewrite Hw in Hj. injection Hj as <-.
        destruct (Z.ltb_spec (Z.of_nat (Z.to_nat k)) (k + 1)); [reflexivity|lia].
      * rewrite list_lookup_insert_ne by congruence. rewrite (Hcs _ _ Hj).
        destruct (Z.ltb_spec (Z.of_nat j) k), (Z.ltb_spec (Z.of_nat j) (k + 1));
          try reflexivity; lia.
  - exists (convolvers m3). cbn [fst]. split; [now rewrite with_convolvers_id|].
    split; [reflexivity|]. intros j w Hj. destruct (Z.ltb_spec (Z.of_nat j) 0); [lia | exact Hj].
  - exists cs. split; [exact E|]. split; [exact Hl|].
    intros j w Hj. rewrite (Hcs _ _ Hj).
    apply lookup_lt_Some in Hj.
    destruct (Z.ltb_spec (Z.of_nat j) (size (convolvers m3))); [reflexivity|].
    unfold size in *. lia.
Qed.

(** One tick, worker by worker. *)
Lemma Convolve_workers m input output inputchannels outputchannels :
  exists cs,
    fst (Convolve m input output inputchannels outputchannels)
    = with_updateparameters (with_convolvers m cs) false /\
    length cs = length (convolvers m) /\
    forall (j : nat) w, convolvers m !! j = Some w ->
      cs !! j = Some (tick_worker m input inputchannels outputchannels j w).
Proof.
  unfold Convolve.
  destruct (start_loop_workers input inputchannels outputchannels m)
    as (cs1 & -> & Hl1 & Hcs1).
  set (m3 := with_convolvers _ _).
  destruct (end_loop_workers outputchannels m3 output) as (cs3 & -> & Hl3 & Hcs3).
  exists cs3. split; [reflexivity|]. split.
  - rewrite Hl3. subst m3. cbn. now rewrite length_fmap.
  - intros j w Hj. unfold tick_worker. apply Hcs3. subst m3. cbn.
    rewrite list_lookup_fmap, (Hcs1 _ _ Hj). reflexivity.
Qed.

(** X8. A tick treats the workers independently of one another: the manager
    after [Convolve] is the manager before it with the update flag cleared
    and every worker replaced by the result of its own update (if one was
    pending), start, block processing and end; no other member changes, and
    no diagnostic is reported. *)
Theorem Convolve_is_worker_wise m input output inputchannels outputchannels :
  fst (Convolve m input output inputchannels outputchannels)
  = with_updateparameters
      (with_convolvers m
         (imap (tick_worker m input inputchannels outputchannels) (convolvers m)))
      false.
Proof.
  destruct (Convolve_workers m input output inputchannels outputchannels)
    as (cs & -> & Hl & Hcs).
  f_equal. f_equal. apply list_eq. intros j. rewrite list_lookup_imap.
  destruct (convolvers m !! j) as [w|] eqn:Hj.
  - now rewrite (Hcs _ _ Hj).
  - cbn. apply lookup_ge_None. apply lookup_ge_None in Hj. lia.
Qed.

Lemma tick_worker_settings m input inputchannels outputchannels j w :
  let w1 := if updateparameters m then updated_worker m j w else w in
  let w' := tick_worker m input inputchannels outputchannels j w in
  Convolver.filter w' = Convolver.filter w1 /\
  Convolver.outputlevel w' = Convolver.outputlevel w1 /\
  Convolver.outputdelay w' = Convolver.outputdelay w1 /\
  Convolver.hqproc w' = Convolver.hqproc w1.
Proof.
  cbv zeta. unfold tick_worker.
  set (w1 := if updateparameters m then updated_worker m j w else w).
  set (w2 := Convolver.StartConvolution w1 _ _).
  assert (E2 : Convolver.filter w2 = Convolver.filter w1 /\
               Convolver.outputlevel w2 = Convolver.outputlevel w1 /\
               Convolver.outputdelay w2 = Convolver.outputdelay w1 /\
               Convolver.hqproc w2 = Convolver.hqproc w1).
  { subst w2. unfold Convolver.StartConvolution. now destruct (for_loop _ _ _). }
  assert (E3 : Convolver.filter (Convolver.Process_step w2) = Convolver.filter w2 /\
               Convolver.outputlevel (Convolver.Process_step w2) = Convolver.outputlevel w2 /\
               Convolver.outputdelay (Convolver.Process_step w2) = Convolver.outputdelay w2 /\
               Convolver.hqproc (Convolver.Process_step w2) = Convolver.hqproc w2).
  { unfold Convolver.Process_step, Convolver.Process_block.
    destruct (_ && _); [|easy]. destruct (Convolver.quitthread w2); [easy|].
    destruct (_ <? _); [destruct (Convolver.Convolve w2) as [[? ?] ?]|]; easy. }
  destruct E2 as (<- & <- & <- & <-), E3 as (<- & <- & <- & <-).
  now destruct (Convolver.IsProcessing _).
Qed.

(** X9. When an update is pending, the tick gives every convolver whose
    selected IR exists the filter of that IR, the level of its parameters,
    the delay of its parameters plus the scaled delay of the IR, and the
    manager's interpolation mode. *)
Theorem Convolve_applies_parameters m input output inputchannels outputchannels
    (j : nat) params f w :
  updateparameters m = true ->
  convolvers m !! j = Some w ->
  parameters m !! j = Some params ->
  0 <= irindex params ->
  filters m !! Z.to_nat (irindex params) = Some f ->
  exists w',
    convolvers (fst (Convolve m input output inputchannels outputchannels)) !! j = Some w' /\
    Convolver.filter w' = Some f /\
    Convolver.outputlevel w' = level params /\
    Convolver.outputdelay w' = dadd (scaled_delay m (irindex params)) (delay params) /\
    Convolver.hqproc w' = hqproc m.
Proof.
  intros Hu Hw Hp Hir Hf.
  destruct (Convolve_workers m input output inputchannels outputchannels)
    as (cs & -> & _ & Hcs).
  exists (tick_worker m input inputchannels outputchannels j w).
  split; [exact (Hcs _ _ Hw)|].
  destruct (tick_worker_settings m input inputchannels outputchannels j w)
    as (-> & -> & -> & ->).
  rewrite Hu. unfold updated_worker. rewrite Hp. cbv zeta.
  pose proof (lookup_lt_Some _ _ _ Hf) as Hlt.
  destruct (Z.ltb_spec (irindex params) (size (filters m))); [|unfold size in *; lia].
  rewrite Hf. cbn. split; [|easy].
  unfold Convolver.SetFilter. destruct (decide (Some f <> Convolver.filter w)) as [_|E];
    [reflexivity|].
  destruct (decide (Some f = Convolver.filter w)); [now symmetry | contradiction].
Qed.

(** X10. When no update is pending, the tick leaves the filter, the level,
    the delay and the interpolation mode of every convolver as they are,
    whatever the parameters and the library say. *)
Theorem Convolve_keeps_settings m input output inputchannels outputchannels (j : nat) w :
  updateparameters m = false ->
  convolvers m !! j = Some w ->
  exists w',
    convolvers (fst (Convolve m input output inputchannels outputchannels)) !! j = Some w' /\
    Convolver.filter w' = Convolver.filter w /\
    Convolver.outputlevel w' = Convolver.outputlevel w /\
    Convolver.outputdelay w' = Convolver.outputdelay w /\
    Convolver.hqproc w' = Convolver.hqproc w.
Proof.
  intros Hu Hw.
  destruct (Convolve_workers m input output inputchannels outputchannels)
    as (cs & -> & _ & Hcs).
  exists (tick_worker m input inputchannels outputchannels j w).
  split; [exact (Hcs _ _ Hw)|].
  destruct (tick_worker_settings m input inputchannels outputchannels j w)
    as (-> & -> & -> & ->).
  now rewrite Hu.
Qed.

End ManagerMore.

Section ManagerGate.
Context `{BlockConvolverLib} `{FractionalSampleLib}.
Import FP.
Import ConvolverManager.

Lemma end_loop_gated outputchannels m3 (output : list float) :
  Forall (fun w => Convolver.IsProcessing w = false) (convolvers m3) ->
  for_loop (size (convolvers m3)) (end_convolver outputchannels) (m3, output)
  = (m3, output).
Proof.
  intros Hg.
  apply (for_loop_invariant (fun _ (acc : t * list float) => acc = (m3, output))).
  - apply Nat2Z.is_nonneg.
  - intros k acc Hk ->. unfold end_convolver.
    destruct (convolvers m3 !! Z.to_nat k) as [w|] eqn:Hw; [|reflexivity].
    rewrite Forall_lookup in Hg. pose proof (Hg _ _ Hw) as Hgw.
    unfold Convolver.IsProcessing in Hgw. unfold Convolver.EndConvolution.
    rewrite Hgw, list_insert_id by assumption. now rewrite with_convolvers_id.
  - reflexivity.
Qed.

Lemma updated_worker_wf m j w B :
  worker_wf B w ->
  worker_wf B (updated_worker m j w) /\
  Convolver.IsProcessing (updated_worker m j w) = Convolver.IsProcessing w.
Proof.
  intros Hw. unfold updated_worker.
  destruct (parameters m !! j) as [params|]; [|easy].
  cbv zeta. destruct (_ <? _); [|easy]. destruct (filters m !! _) as [f|]; [|easy].
  split; [now apply update_wf|].
  unfold Convolver.IsProcessing, Convolver.SetFilter. now destruct (decide _).
Qed.

(** X11. A tick on silence with every convolver gated produces nothing: the
    output buffer comes back exactly as it was passed in, and every convolver
    is still gated afterwards. *)
Theorem Convolve_gated_silence m input output inputchannels outputchannels :
  manager_wf m ->
  Forall (fun w => Convolver.IsProcessing w = false) (convolvers m) ->
  (forall j : nat, (j < length (convolvers m))%nat ->
     silent_block (blocksize m)
       (drop (Z.to_nat (UInt.div (Z.of_nat j) outputchannels)) input) inputchannels) ->
  snd (Convolve m input output inputchannels outputchannels) = output /\
  Forall (fun w => Convolver.IsProcessing w = false)
    (convolvers (fst (Convolve m input output inputchannels outputchannels))).
Proof.
  intros [_ Hwf] Hg Hs. unfold Convolve.
  destruct (start_loop_workers input inputchannels outputchannels m)
    as (cs1 & -> & Hl1 & Hcs1).
  set (m3 := with_convolvers _ _).
  assert (Hg3 : Forall (fun w => Convolver.IsProcessing w = false) (convolvers m3)).
  { subst m3. cbn. rewrite Forall_fmap. apply Forall_lookup. intros j w1 Hj.
    pose proof (lookup_lt_Some _ _ _ Hj) as Hlt. rewrite Hl1 in Hlt.
    destruct (lookup_lt_is_Some_2 _ _ Hlt) as [w Hw].
    rewrite (Hcs1 _ _ Hw) in Hj. injection Hj as <-.
    rewrite Forall_lookup in Hwf, Hg.
    pose proof (Hwf _ _ Hw) as Hwfw. pose proof (Hg _ _ Hw) as Hgw.
    set (w1 := if updateparameters m then updated_worker m j w else w).
    assert (H1 : worker_wf (blocksize m) w1 /\ Convolver.IsProcessing w1 = false).
    { subst w1. destruct (updateparameters m); [|easy].
      destruct (updated_worker_wf m j w _ Hwfw) as [? ->]. easy. }
    destruct H1 as [[Hinv HB] Hg1].
    pose proof (Hs j Hlt) as Hsj. rewrite <- HB in Hsj.
    destruct (StartConvolution_silent w1 _ inputchannels Hinv Hsj) as [Ez _].
    set (w2 := Convolver.StartConvolution w1 _ _) in *.
    assert (Em : Convolver.maxzeroblocks w2 = Convolver.maxzeroblocks w1)
      by apply (apply_op_maxzeroblocks (Convolver.OpStart _ inputchannels)).
    cbn. unfold Convolver.IsProcessing in *.
    change (Convolver.Process_step w2) with (Convolver.apply_op Convolver.OpProcess w2).
    rewrite apply_op_maxzeroblocks, apply_op_zeroblocks by reflexivity.
    rewrite Ez, Em. apply Z.ltb_ge in Hg1. apply Z.ltb_ge. lia. }
  rewrite end_loop_gated by assumption. cbn [fst snd]. split; [reflexivity | exact Hg3].
Qed.

(** *** [SetConvolverCount] *)

Lemma default_worker_same_library m m' i :
  same_library m m' -> default_worker m' i = default_worker m i.
Proof.
  intros (Eb & Ep & Ef & Ei & Es & Eh). unfold default_worker, scaled_delay.
  now rewrite Eb, Ep, Ef, Ei, Es, Eh.
Qed.

(** One round of the creating loop. *)
Lemma create_convolver_step m :
  (length (convolvers m) < length (parameters m))%nat ->
  let conv := Convolver.new (size (convolvers m)) (blocksize m) (partitions m) dzero in
  let m1 := with_convolvers m (convolvers m ++ [conv]) in
  let m' := snd (SelectIR m1 (size (convolvers m1) - 1) 0 done dzero) in
  same_library m m' /\
  convolvers m' = convolvers m ++ [default_worker m (size (convolvers m))] /\
  parameters m' =
    (if 0 <? size (filters m)
     then <[length (convolvers m) := default_parameters]> (parameters m)
     else parameters m) /\
  errors m' =
    (if 0 <? size (filters m) then errors m else errors m ++ [ErrOutOfBoundsIR 0]).
Proof.
  intros Hlt conv m1 m'. subst m'. unfold SelectIR.
  assert (Es : size (convolvers m1) - 1 = size (convolvers m)).
  { subst m1. cbn. unfold size. rewrite length_app. cbn. lia. }
  rewrite Es.
  destruct (Z.ltb_spec (size (convolvers m)) (size (convolvers m1))) as [_|Hge];
    [|rewrite <- Es in Hge; lia].
  change (filters m1) with (filters m).
  destruct (Z.ltb_spec 0 (size (filters m))) as [Hf|Hf].
  - cbn [snd].
    destruct (filters m) as [|f fs] eqn:Ef; [unfold size in Hf; cbn in Hf; lia|].
    set (m2 := with_parameters m1 _).
    assert (Hw : convolvers m2 !! Z.to_nat (size (convolvers m)) = Some conv).
    { subst m2 m1. cbn. unfold size. rewrite Nat2Z.id.
      rewrite lookup_app_r by lia. now rewrite Nat.sub_diag. }
    rewrite (UpdateConvolverParameters_worker m2 (size (convolvers m)) conv
               (Nat2Z.is_nonneg _ : 0 <= size (convolvers m)) Hw).
    unfold size at 2 3. rewrite Nat2Z.id.
    assert (Eu : updated_worker m2 (length (convolvers m)) conv
                 = default_worker m (size (convolvers m))).
    { unfold updated_worker, default_worker. subst m2 m1.
      cbn [parameters filters hqproc with_parameters with_convolvers].
      unfold size at 1. rewrite Nat2Z.id.
      rewrite list_lookup_insert_eq by assumption. cbn [irindex level delay].
      rewrite Ef. cbn [lookup list_lookup Z.to_nat].
      destruct (Z.ltb_spec 0 (size (f :: fs))); [reflexivity|].
      unfold size in *; cbn in *; lia. }
    subst m2 m1.
    cbn [convolvers parameters errors with_convolvers with_parameters] in Eu |- *.
    unfold size in Eu |- *. rewrite !Nat2Z.id in Eu |- *. rewrite Eu.
    split; [now repeat split|]. split; [|split; reflexivity].
    rewrite insert_app_r_alt by lia. now rewrite Nat.sub_diag.
  - cbn [snd]. assert (Ef : filters m = []).
    { destruct (filters m); [reflexivity | unfold size in Hf; cbn in Hf; lia]. }
    subst m1. cbn. split; [now repeat split|]. split; [|split; reflexivity].
    unfold default_worker. now rewrite Ef.
Qed.

(** The creating loop. *)
Lemma create_convolvers_spec fuel m :
  (length (convolvers m) + fuel <= length (parameters m))%nat ->
  let m' := create_convolvers fuel m in
  same_library m m' /\
  length (convolvers m') = (length (convolvers m) + fuel)%nat /\
  length (parameters m') = length (parameters m) /\
  (forall j w, convolvers m !! j = Some w -> convolvers m' !! j = Some w) /\
  (forall j, (length (convolvers m) <= j < length (convolvers m) + fuel)%nat ->
     convolvers m' !! j = Some (default_worker m (Z.of_nat j))) /\
  (forall j, (j < length (convolvers m) \/ length (convolvers m) + fuel <= j)%nat ->
     parameters m' !! j = parameters m !! j) /\
  (forall j, (length (convolvers m) <= j < length (convolvers m) + fuel)%nat ->
     parameters m' !! j =
       if 0 <? size (filters m) then Some default_parameters else parameters m !! j) /\
  errors m' =
    errors m ++ (if 0 <? size (filters m) then []
                 else replicate fuel (ErrOutOfBoundsIR 0)).
Proof.
  revert m. induction fuel as [|k IH]; intros m Hfit; cbn [create_convolvers].
  - cbv zeta. split; [now repeat split|]. split; [lia|]. split; [reflexivity|].
    split; [auto|]. split; [intros; lia|]. split; [auto|]. split; [intros; lia|].
    destruct (_ <? _); cbn; now rewrite app_nil_r.
  - destruct (create_convolver_step m ltac:(lia)) as (Hlib & Ec & Ep & Ee).
    set (m2 := snd (SelectIR _ _ _ _ _)) in *.
    assert (Elp : length (parameters m2) = length (parameters m)).
    { rewrite Ep. destruct (_ <? _); [apply length_insert | reflexivity]. }
    assert (Elc : length (convolvers m2) = S (length (convolvers m))).
    { rewrite Ec, length_app. cbn. lia. }
    destruct (IH m2 ltac:(lia)) as (Hlib' & Hl' & Hp' & Hold & Hnew & Hpo & Hpn & He).
    set (m' := create_convolvers k m2) in *. cbv zeta.
    assert (Efs : filters m2 = filters m) by apply Hlib.
    rewrite Efs in *.
    split.
    { destruct Hlib as (? & ? & ? & ? & ? & ?), Hlib' as (? & ? & ? & ? & ? & ?).
      repeat split; congruence. }
    split; [lia|]. split; [lia|]. split.
    { intros j w Hj. apply Hold. rewrite Ec. now apply lookup_app_l_Some. }
    split.
    { intros j Hj. destruct (Nat.eq_dec j (length (convolvers m))) as [->|Hne].
      - apply Hold. rewrite Ec, lookup_app_r by lia. rewrite Nat.sub_diag. reflexivity.
      - rewrite Hnew by lia. f_equal. now apply default_worker_same_library. }
    split.
    { intros j Hj. rewrite Hpo by lia. rewrite Ep.
      destruct (_ <? _); [|reflexivity]. apply list_lookup_insert_ne. lia. }
    split.
    { intros j Hj. destruct (Nat.eq_dec j (length (convolvers m))) as [->|Hne].
      - rewrite Hpo by lia. rewrite Ep.
        destruct (_ <? _); [|reflexivity]. apply list_lookup_insert_eq. lia.
      - rewrite Hpn by lia. rewrite Ep.
        destruct (_ <? _); [reflexivity|reflexivity]. }
    rewrite He, Ee. destruct (_ <? _); [reflexivity|].
    rewrite <- app_assoc. reflexivity.
Qed.

(** X12. [SetConvolverCount(n)] leaves exactly [n] convolvers and [n] sets of
    parameters, and does not touch a convolver or a set of parameters that
    existed before and is kept. *)
Theorem SetConvolverCount_count m nconvolvers :
  let m' := SetConvolverCount m nconvolvers in
  length (convolvers m') = Z.to_nat nconvolvers /\
  length (parameters m') = Z.to_nat nconvolvers /\
  forall (j : nat) w p, (j < Z.to_nat nconvolvers)%nat ->
    convolvers m !! j = Some w -> parameters m !! j = Some p ->
    convolvers m' !! j = Some w /\ parameters m' !! j = Some p.
Proof.
  intros m'. subst m'. unfold SetConvolverCount.
  set (n := Z.to_nat nconvolvers).
  set (m1 := with_parameters m (resize_parameters (parameters m) nconvolvers)).
  assert (Hp1 : length (parameters m1) = n).
  { subst m1. cbn. unfold resize_parameters.
    rewrite length_app, length_take, length_replicate. lia. }
  assert (Hpre : forall j p, (j < n)%nat -> parameters m !! j = Some p ->
                             parameters m1 !! j = Some p).
  { intros j p Hj Hp. subst m1. cbn. unfold resize_parameters.
    rewrite lookup_app_l by (rewrite length_take; apply lookup_lt_Some in Hp; lia).
    now rewrite lookup_take_lt by assumption. }
  change (convolvers m1) with (convolvers m).
  destruct (le_lt_dec (length (convolvers m)) n) as [Hle|Hgt].
  - destruct (create_convolvers_spec (n - length (convolvers m)) m1
                ltac:(change (convolvers m1) with (convolvers m); lia))
      as (_ & Hl & Hp & Hold & _ & Hpo & _ & _).
    change (convolvers m1) with (convolvers m) in *.
    set (m2 := create_convolvers _ m1) in *. cbn.
    rewrite length_take. split; [lia|]. split; [lia|].
    intros j w p Hj Hw Hpj. rewrite lookup_take_lt by assumption. split.
    + now apply Hold.
    + rewrite Hpo by (apply lookup_lt_Some in Hw; lia). now apply Hpre.
  - replace (n - length (convolvers m))%nat with 0%nat by lia.
    cbn. rewrite length_take. split; [lia|]. split; [exact Hp1|].
    intros j w p Hj Hw Hpj. rewrite lookup_take_lt by assumption.
    split; [assumption | now apply Hpre].
Qed.

(** X13. Every convolver that [SetConvolverCount] creates is constructed
    with its index and the block size and partition count of the manager and
    gets the default IR: when the library has a filter, it holds filter 0 at
    level 1.0 with the scaled delay of IR 0, its parameters are (0, 0.0, 1.0),
    and nothing is reported. *)
Theorem SetConvolverCount_selects_default_ir m nconvolvers f (j : nat) :
  filters m !! 0%nat = Some f ->
  (length (convolvers m) <= j < Z.to_nat nconvolvers)%nat ->
  let m' := SetConvolverCount m nconvolvers in
  convolvers m' !! j
    = Some (Convolver.SetParameters
              (Convolver.SetFilter
                 (Convolver.new (Z.of_nat j) (blocksize m) (partitions m) dzero) f)
              done (dadd (scaled_delay m 0) dzero) (hqproc m)) /\
  parameters m' !! j = Some default_parameters /\
  errors m' = errors m.
Proof.
  intros Hf Hj m'. subst m'. unfold SetConvolverCount.
  set (n := Z.to_nat nconvolvers) in *.
  set (m1 := with_parameters m (resize_parameters (parameters m) nconvolvers)).
  assert (Hp1 : length (parameters m1) = n).
  { subst m1. cbn. unfold resize_parameters.
    rewrite length_app, length_take, length_replicate. lia. }
  destruct (create_convolvers_spec (n - length (convolvers m)) m1
              ltac:(change (convolvers m1) with (convolvers m); lia))
    as (_ & Hl & Hp & _ & Hnew & _ & Hpn & He).
  change (convolvers m1) with (convolvers m) in *.
  change (filters m1) with (filters m) in *.
  change (errors m1) with (errors m) in *.
  set (m2 := create_convolvers _ m1) in *. cbn.
  assert (Hsz : (0 <? size (filters m)) = true).
  { apply Z.ltb_lt. apply lookup_lt_Some in Hf. unfold size. lia. }
  rewrite Hsz in *. rewrite lookup_take_lt by lia.
  rewrite Hnew, Hpn, He by lia. rewrite app_nil_r.
  split; [|easy]. f_equal. unfold default_worker.
  change (filters m1) with (filters m). rewrite Hf. reflexivity.
Qed.

(** X14. Without a library, [SetConvolverCount] still creates the
    convolvers, but the selection of the default IR fails for each of them:
    one out-of-bounds diagnostic per created convolver is reported, and each
    new convolver is left as constructed, without a filter. *)
Theorem SetConvolverCount_without_library m nconvolvers :
  length (parameters m) = length (convolvers m) ->
  filters m = [] ->
  let m' := SetConvolverCount m nconvolvers in
  errors m'
    = errors m ++ replicate (Z.to_nat nconvolvers - length (convolvers m))
                            (ErrOutOfBoundsIR 0) /\
  forall j : nat, (length (convolvers m) <= j < Z.to_nat nconvolvers)%nat ->
    convolvers m' !! j
      = Some (Convolver.new (Z.of_nat j) (blocksize m) (partitions m) dzero) /\
    parameters m' !! j = Some PARAMETERS_zero.
Proof.
  intros Hwf Hf m'. subst m'. unfold SetConvolverCount.
  set (n := Z.to_nat nconvolvers) in *.
  set (m1 := with_parameters m (resize_parameters (parameters m) nconvolvers)).
  assert (Hp1 : length (parameters m1) = n).
  { subst m1. cbn. unfold resize_parameters.
    rewrite length_app, length_take, length_replicate. lia. }
  assert (Hsz : (0 <? size (filters m)) = false) by now rewrite Hf.
  change (convolvers m1) with (convolvers m).
  destruct (le_lt_dec (length (convolvers m)) n) as [Hle|Hgt].
  - destruct (create_convolvers_spec (n - length (convolvers m)) m1
                ltac:(change (convolvers m1) with (convolvers m); lia))
      as (_ & Hl & Hp & _ & Hnew & _ & Hpn & He).
    change (convolvers m1) with (convolvers m) in *.
    change (filters m1) with (filters m) in *.
    change (errors m1) with (errors m) in *.
    set (m2 := create_convolvers _ m1) in *. cbn.
    rewrite Hsz in *. split; [exact He|].
    intros j Hj. rewrite lookup_take_lt by lia. rewrite Hnew, Hpn by lia.
    split.
    + f_equal. unfold default_worker. change (filters m1) with (filters m).
      now rewrite Hf.
    + subst m1. cbn. unfold resize_parameters.
      rewrite lookup_app_r by (rewrite length_take; lia).
      rewrite length_take. apply lookup_replicate_2. lia.
  - replace (n - length (convolvers m))%nat with 0%nat by lia. cbn.
    rewrite app_nil_r. split; [reflexivity|]. intros j Hj. lia.
Qed.

(** *** [SetIRDelays] *)

Lemma set_delay_loop (dd ds : list double) n :
  let r := for_loop (Z.of_nat n) (set_delay dd ds) (replicate n (dzero, dzero), dzero) in
  length (fst r) = n /\
  forall i : nat, (i < n)%nat -> fst r !! i = Some (dd !!! i, ds !!! i).
Proof.
  cbv zeta.
  pose proof (for_loop_invariant
    (fun k (acc : list (double * double) * double) =>
       length (fst acc) = n /\
       forall i : nat, Z.of_nat i < k -> fst acc !! i = Some (dd !!! i, ds !!! i))
    (set_delay dd ds) (Z.of_nat n) (replicate n (dzero, dzero), dzero)
    (Nat2Z.is_nonneg _)) as L.
  destruct L as (Hl & Hi).
  - intros k acc Hk (Hl & Hi). unfold set_delay. cbn [fst].
    rewrite length_insert. split; [assumption|].
    intros i Hik. destruct (Nat.eq_dec i (Z.to_nat k)) as [->|Hne].
    + now rewrite list_lookup_insert_eq by lia.
    + rewrite list_lookup_insert_ne by congruence. apply Hi. lia.
  - cbn [fst]. split; [apply length_replicate | intros; lia].
  - split; [assumption|]. intros i Hi'. apply Hi. lia.
Qed.

(** X15. [SetIRDelays] replaces the table of delays: afterwards the delay of
    IR [ir] is [delays_static[ir] + delays_dynamic[ir] * delayscale] for
    [ir < num_delays] and 0.0 for every other IR, whatever the table held
    before. *)
Theorem SetIRDelays_scaled_delay m delays_dynamic num_delays delays_static ir :
  0 <= num_delays <= size delays_dynamic -> num_delays <= size delays_static ->
  0 <= ir ->
  scaled_delay (SetIRDelays m delays_dynamic num_delays delays_static) ir
  = if ir <? num_delays
    then dadd (delays_static !!! Z.to_nat ir)
              (dmul (delays_dynamic !!! Z.to_nat ir) (delayscale m))
    else dzero.
Proof.
  intros [Hn _] _ Hir. unfold SetIRDelays.
  destruct (Z.eqb_spec num_delays 0) as [->|Hne]; cbn [negb].
  - assert (E : (ir <? 0) = false) by (apply Z.ltb_ge; lia).
    unfold scaled_delay. cbn [irdelays with_irdelays]. unfold size.
    change (Z.of_nat (length (@nil (double * double)))) with 0. now rewrite E.
  - unfold size. rewrite length_replicate.
    destruct (set_delay_loop delays_dynamic delays_static (Z.to_nat num_delays))
      as (Hl & Hi).
    destruct (for_loop _ _ _) as [tbl md]. cbn [fst] in *.
    unfold scaled_delay. cbn [irdelays delayscale with_irdelays]. unfold size.
    rewrite Hl, Z2Nat.id by assumption.
    destruct (Z.ltb_spec ir num_delays) as [Hlt|Hge]; [|reflexivity].
    rewrite Hi by lia. reflexivity.
Qed.

(** X16. Every manager reached from the constructor by the public
    operations holds one set of parameters per convolver, and each of its
    convolvers has the block size of the manager, buffers of that many
    samples, a delay memory of the length computed for that block size, and a
    silence counter between 0 and its threshold. *)
Theorem reachable_manager_shape m (j : nat) w :
  reachable m ->
  convolvers m !! j = Some w ->
  length (parameters m) = length (convolvers m) /\
  Convolver.blocksize w = blocksize m /\
  length (Convolver.input w) = Z.to_nat (blocksize m) /\
  length (Convolver.output w) = Z.to_nat (blocksize m) /\
  length (Convolver.delay w) = Z.to_nat (calc_delaylen (blocksize m)) /\
  0 <= Convolver.zeroblocks w <= Convolver.maxzeroblocks w.
Proof.
  intros Hr Hw. destruct (reachable_manager_wf m Hr) as [Hl Hall].
  rewrite Forall_lookup in Hall. destruct (Hall _ _ Hw) as [[Hm Hz Hi Ho Hd] HB].
  rewrite <- HB. easy.
Qed.

End ManagerGate.

(** ** The library of filters *)

Section LibraryProperties.
Import FP.
Import ConvolverManager.
Import IRLibrary.

Lemma length_resize v n : length (resize v n) = Z.to_nat n.
Proof.
  unfold resize. rewrite length_app, length_take, length_replicate. lia.
Qed.

Lemma uint_of_ceil_range x : 0 <= uint_of_ceil x < UInt.modulus.
Proof.
  unfold uint_of_ceil. destruct (Zceil x).
  - apply wrap_range.
  - rewrite modulus_eq. lia.
Qed.

(** Two buffers of the same length that read the same are the same. *)
Lemma rd_ext (a b : list float) :
  length a = length b ->
  (forall k, 0 <= k < Z.of_nat (length a) -> rd a k = rd b k) -> a = b.
Proof.
  intros Hl Hrd. apply list_eq_same_length with (length a); [now symmetry | reflexivity |].
  intros i x y Hi Hx Hy. specialize (Hrd (Z.of_nat i) ltac:(lia)).
  unfold rd in Hrd. rewrite Nat2Z.id in Hrd.
  rewrite (list_lookup_total_correct _ _ _ Hx), (list_lookup_total_correct _ _ _ Hy) in Hrd.
  exact Hrd.
Qed.

Lemma length_for_loop_wr (body : Z -> list float -> list float) n (buf : list float) :
  (forall i b, length (body i b) = length b) ->
  length (for_loop n body buf) = length buf.
Proof.
  intros Hb. unfold for_loop.
  pose proof (for_upto_invariant (fun _ b => length b = length buf) body
                ltac:(intros i b Hl; cbn beta in *; now rewrite Hb) (Z.to_nat n) 0 buf eq_refl) as L.
  exact L.
Qed.

Lemma length_ApplyFades data len fadein fadeout :
  length (ApplyFades data len fadein fadeout) = length data.
Proof.
  unfold ApplyFades. rewrite !length_for_loop_wr; [reflexivity| |];
    intros i b; apply length_wr.
Qed.

(** X17. [ApplyFades] multiplies sample [k] by [fadein[k]] over the length
    of the fade in, and by [fadeout[len - 1 - k]] over the last samples, the
    fade out being stored backwards; a sample in both ranges gets both
    factors, the fade in first; the samples in between, the samples from [len]
    on and the length of the buffer are unchanged. *)
Theorem ApplyFades_pointwise data len fadein fadeout k :
  len <= size data -> len <= UInt.modulus ->
  size fadein <= len -> size fadeout <= len ->
  0 <= k ->
  length (ApplyFades data len fadein fadeout) = length data /\
  rd (ApplyFades data len fadein fadeout) k =
    let x := if k <? size fadein then fmul (rd data k) (rd fadein k) else rd data k in
    if (len - size fadeout <=? k) && (k <? len)
    then fmul x (rd fadeout (len - 1 - k)) else x.
Proof.
  intros Hlen Hmod Hin Hout Hk. split; [apply length_ApplyFades|].
  unfold ApplyFades, size in *.
  pose proof (for_loop_fill (fun i b => fmul (rd b i) (rd fadein i))
                (Z.of_nat (length fadein)) data ltac:(lia)) as L1.
  destruct L1 as (Hl1 & Hlow1 & Hhigh1).
  { intros i b1 b2 _ Hagree. now rewrite Hagree by lia. }
  change (for_loop (Z.of_nat (length fadein))
            (fun i b => wr b i (fmul (rd b i) (rd fadein i))) data)
    with (for_loop (Z.of_nat (length fadein)) (fade_in_sample fadein) data)
    in Hl1, Hlow1, Hhigh1.
  set (data1 := for_loop (Z.of_nat (length fadein)) (fade_in_sample fadein) data) in *.
  assert (E1 : forall j, 0 <= j ->
            rd data1 j = if j <? Z.of_nat (length fadein)
                         then fmul (rd data j) (rd fadein j) else rd data j).
  { intros j Hj. destruct (Z.ltb_spec j (Z.of_nat (length fadein))).
    - apply Hlow1. lia.
    - apply Hhigh1. lia. }
  pose proof (for_loop_invariant
    (fun j (d : list float) =>
       length d = length data /\
       forall q, 0 <= q ->
         rd d q = if (len - j <=? q) && (q <? len)
                  then fmul (rd data1 q) (rd fadeout (len - 1 - q)) else rd data1 q)
    (fade_out_sample len fadeout) (Z.of_nat (length fadeout)) data1
    (Nat2Z.is_nonneg _)) as L2.
  destruct L2 as (_ & E2).
  - intros j d Hj (Hl & Hd). unfold fade_out_sample.
    assert (Eidx : UInt.sub (UInt.sub len 1) j = len - 1 - j).
    { unfold UInt.sub. rewrite (wrap_small (len - 1)) by (unfold UInt.in_range; lia).
      apply wrap_small. unfold UInt.in_range. lia. }
    rewrite Eidx, length_wr. split; [assumption|]. intros q Hq.
    destruct (Z.eq_dec q (len - 1 - j)) as [->|Hne].
    + rewrite rd_wr_eq by lia. rewrite (Hd (len - 1 - j)) by lia.
      destruct (Z.leb_spec (len - j) (len - 1 - j)); [lia|]. cbn [andb].
      destruct (Z.leb_spec (len - (j + 1)) (len - 1 - j)); [|lia].
      destruct (Z.ltb_spec (len - 1 - j) len); [|lia]. cbn [andb].
      do 2 f_equal. lia.
    + rewrite rd_wr_ne by lia. rewrite (Hd q Hq).
      destruct (Z.leb_spec (len - j) q), (Z.leb_spec (len - (j + 1)) q);
        try reflexivity; lia.
  - split; [exact Hl1|]. intros q Hq.
    destruct (Z.leb_spec (len - 0) q); [|reflexivity].
    destruct (Z.ltb_spec q len); [lia | reflexivity].
  - rewrite (E2 k Hk), (E1 k Hk). reflexivity.
Qed.

Lemma copy_block_spec (src : list float) off n (dst : list float) :
  0 <= off -> 0 <= n -> off + n <= Z.of_nat (length src) ->
  length dst = Z.to_nat n ->
  copy_block src off n dst = take (Z.to_nat n) (drop (Z.to_nat off) src).
Proof.
  intros Hoff Hn Hfit Hl. unfold copy_block.
  pose proof (for_loop_fill (fun k _ => rd src (off + k)) n dst ltac:(lia)
                ltac:(reflexivity)) as (Hl' & Hlow & _).
  apply rd_ext.
  - rewrite Hl', length_take, length_drop. lia.
  - intros k Hk. rewrite Hl' in Hk. rewrite Hlow by lia.
    unfold rd. rewrite !list_lookup_total_alt, lookup_take_lt by lia.
    rewrite lookup_drop. do 2 f_equal. lia.
Qed.

Section Fades.
Context `{LibM}.

Lemma create_fade_spec fade_length samplerate v0 :
  let n := uint_of_ceil (dmul fade_length samplerate) in
  let scale := ddiv done (dmul fade_length samplerate) in
  length (create_fade fade_length samplerate v0) = Z.to_nat n /\
  forall i, 0 <= i < n ->
    rd (create_fade fade_length samplerate v0) i
    = float_of_double
        (dsub half (dmul half (cos (dmul (MIN (dmul (double_of_Z i) scale) done) M_PI)))).
Proof.
  cbv zeta. unfold create_fade.
  pose proof (uint_of_ceil_range (dmul fade_length samplerate)) as R.
  set (n := uint_of_ceil (dmul fade_length samplerate)) in *.
  destruct (Z.eqb_spec n 0) as [E|E]; cbn [negb].
  - rewrite length_resize. split; [reflexivity | intros; lia].
  - pose proof (for_loop_fill
      (fun i _ => float_of_double
                    (dsub half
                       (dmul half
                          (cos (dmul (MIN (dmul (double_of_Z i)
                                             (ddiv done (dmul fade_length samplerate)))
                                          done) M_PI)))))
      n (resize v0 n) ltac:(rewrite length_resize; lia) ltac:(reflexivity))
      as (Hl & Hlow & _).
    split.
    + etransitivity; [exact Hl | apply length_resize].
    + exact Hlow.
Qed.

(** X18. The two fades that [CreateFades] returns do not depend on what the
    vectors held before the call, and they are [ceil(fade_in_length * SR)] and
    [ceil(fade_out_length * SR)] samples long. *)
Theorem CreateFades_fresh fade samplerate fadein0 fadeout0 :
  CreateFades fade samplerate fadein0 fadeout0 = CreateFades fade samplerate [] [] /\
  length (fst (CreateFades fade samplerate fadein0 fadeout0))
    = Z.to_nat (uint_of_ceil (dmul (fade_in_length fade) samplerate)) /\
  length (snd (CreateFades fade samplerate fadein0 fadeout0))
    = Z.to_nat (uint_of_ceil (dmul (fade_out_length fade) samplerate)).
Proof.
  assert (E : forall l v0, create_fade l samplerate v0 = create_fade l samplerate []).
  { intros l v0.
    destruct (create_fade_spec l samplerate v0) as (Hl & Hrd).
    destruct (create_fade_spec l samplerate []) as (Hl' & Hrd').
    apply rd_ext; [congruence|].
    intros k Hk. rewrite Hrd, Hrd' by lia. reflexivity. }
  unfold CreateFades. cbn [fst snd]. split; [|split].
  - now rewrite (E _ fadein0), (E _ fadeout0).
  - apply create_fade_spec.
  - apply create_fade_spec.
Qed.

End Fades.

(** The window that [CalcPartitions] selects lies inside the IR. *)
Lemma CalcPartitions_window fade SR L B :
  0 <= L < UInt.modulus ->
  let cp := CalcPartitions fade SR L B in
  0 <= snd (fst cp) /\
  (snd (fst cp) <= L -> 0 <= snd cp /\ snd (fst cp) + snd cp <= L).
Proof.
  intros HL. unfold CalcPartitions. cbn [fst snd].
  set (start := uint_of_floor _).
  assert (Hs : 0 <= start < UInt.modulus).
  { subst start. unfold uint_of_floor. destruct (Zfloor _).
    - apply wrap_range.
    - rewrite modulus_eq. lia. }
  split; [lia|]. intros Hle.
  assert (Hsub : UInt.sub L start = L - start).
  { unfold UInt.sub. apply wrap_small. unfold UInt.in_range. lia. }
  rewrite Hsub. destruct (deqb _ _); [lia|].
  unfold umin. pose proof (uint_of_ceil_range
    (dmul (MAX (dsub (dadd (fade_out_start fade) (fade_out_length fade))
                  (fade_in_start fade)) dzero) SR)) as R.
  destruct (Z.ltb_spec (uint_of_ceil
    (dmul (MAX (dsub (dadd (fade_out_start fade) (fade_out_length fade))
                  (fade_in_start fade)) dzero) SR)) (L - start)); lia.
Qed.

(** The default fade at 48 kHz, the rate [CreateIRs] assumes. *)
Lemma CalcPartitions_default_fade_eq SR L B :
  is_finite SR = true ->
  0 < B -> 0 <= L -> L + B - 1 < UInt.modulus ->
  CalcPartitions defaultfade SR L B = ((L + B - 1) / B, 0, L).
Proof.
  intros Hfin HB HL Hov. unfold CalcPartitions.
  assert (Es : uint_of_floor (dmul (MAX (fade_in_start defaultfade) dzero) SR) = 0).
  { destruct SR as [s|s| |s m e]; try discriminate; reflexivity. }
  rewrite Es.
  change (deqb (dadd (fade_out_start defaultfade) (fade_out_length defaultfade)) dzero)
    with true. cbv iota.
  assert (El : UInt.sub L 0 = L).
  { unfold UInt.sub. rewrite Z.sub_0_r. apply wrap_small. unfold UInt.in_range. lia. }
  rewrite El. do 2 f_equal.
  unfold UInt.div, UInt.sub, UInt.add, UInt.wrap.
  rewrite Zminus_mod_idemp_l. now rewrite Z.mod_small by lia.
Qed.

(** X19. With the default fade the whole IR is used: the filter starts at
    sample 0, is as long as the IR, and takes [(L + B - 1) / B] partitions,
    whatever the (finite) sample rate. *)
Theorem CalcPartitions_default_fade SR L B :
  is_finite SR = true ->
  0 < B -> 0 <= L -> L + B - 1 < UInt.modulus ->
  let '(partitions, start, len) := CalcPartitions defaultfade SR L B in
  start = 0 /\ len = L /\ partitions = (L + B - 1) / B /\
  partitions = Spec.ceil_ratio L B.
Proof.
  intros Hfin HB HL Hov.
  rewrite CalcPartitions_default_fade_eq by assumption.
  rewrite ceil_ratio_div by assumption. easy.
Qed.

Section Loader.
Context `{BlockConvolverLib} `{!FilterLib} `{LibM}.

(** The loop of [CreateIRs]: the buffer is shared by the rounds of the loop
    and overwritten in each. *)
Lemma create_ir_loop irdata L start len B fadein fadeout n buffer :
  0 <= n -> 0 <= L -> 0 <= start -> 0 <= len -> start + len <= L ->
  n * L <= Z.of_nat (length irdata) -> n * L <= UInt.modulus ->
  length buffer = Z.to_nat len ->
  let r := for_loop n (create_ir irdata L start len B fadein fadeout) (buffer, []) in
  length (snd r) = Z.to_nat n /\
  forall i, 0 <= i < n ->
    snd r !! Z.to_nat i
    = Some (make_filter B len
              (ApplyFades (take (Z.to_nat len) (drop (Z.to_nat (i * L + start)) irdata))
                 len fadein fadeout)).
Proof.
  intros Hn HL Hst Hlen Hwin Hdata Hmod Hbuf r. subst r.
  pose proof (for_loop_invariant
    (fun j (acc : list float * list Filter) =>
       length (fst acc) = Z.to_nat len /\
       length (snd acc) = Z.to_nat j /\
       forall i, 0 <= i < j ->
         snd acc !! Z.to_nat i
         = Some (make_filter B len
                   (ApplyFades (take (Z.to_nat len) (drop (Z.to_nat (i * L + start)) irdata))
                      len fadein fadeout)))
    (create_ir irdata L start len B fadein fadeout) n (buffer, []) Hn) as Inv.
  destruct Inv as (_ & Hl & Hfs).
  - intros j [buf fs] Hj (Hb & Hl & Hfs). cbn [fst snd] in *. unfold create_ir.
    assert (HjL : (j + 1) * L <= n * L) by (apply Z.mul_le_mono_nonneg_r; lia).
    assert (Emul : UInt.mul j L = j * L).
    { unfold UInt.mul. apply wrap_small. unfold UInt.in_range. split; [nia|].
      destruct (Z.eq_dec L 0) as [->|HL0]; [rewrite modulus_eq; lia | nia]. }
    rewrite Emul.
    rewrite (copy_block_spec irdata (j * L + start) len buf) by (try assumption; nia).
    cbn [fst snd]. rewrite length_ApplyFades, length_take, length_drop, length_app.
    cbn [length]. split; [nia|]. split; [lia|].
    intros i Hi. destruct (Z.eq_dec i j) as [->|Hne].
    + rewrite lookup_app_r by lia. replace (Z.to_nat j - length fs)%nat with 0%nat by lia.
      reflexivity.
    + rewrite lookup_app_l by lia. apply Hfs. lia.
  - cbn [fst snd]. split; [assumption|]. split; [reflexivity | intros; lia].
  - split; assumption.
Qed.

(** X20. [CreateIRs] replaces the library by one filter per IR: filter [i] is
    built from the [filterlen] samples of IR [i] from [filterstart] on, faded,
    and from nothing else, although all filters are staged in one buffer; the
    partition count is the one [CalcPartitions] returns at 48 kHz, an update
    of the convolvers is requested, and they and their parameters are not
    touched. *)
Theorem CreateIRs_filters m irdata numirs irlength fade i :
  let cp := CalcPartitions fade (double_of_Z 48000) irlength (blocksize m) in
  let fades := CreateFades fade (double_of_Z 48000) [] [] in
  0 < numirs -> 0 < irlength ->
  numirs * irlength <= Z.of_nat (length irdata) ->
  numirs * irlength < UInt.modulus ->
  snd (fst cp) <= irlength ->
  0 <= i < numirs ->
  let m' := CreateIRs m irdata numirs irlength fade in
  NumIRs m' = numirs /\
  filters m' !! Z.to_nat i
    = Some (make_filter (blocksize m) (snd cp)
              (ApplyFades
                 (take (Z.to_nat (snd cp))
                    (drop (Z.to_nat (i * irlength + snd (fst cp))) irdata))
                 (snd cp) (fst fades) (snd fades))) /\
  partitions m' = fst (fst cp) /\
  updateparameters m' = true /\
  convolvers m' = convolvers m /\ parameters m' = parameters m.
Proof.
  intros cp fades Hn HL Hdata Hmod Hst Hi m'.
  assert (HLr : 0 <= irlength < UInt.modulus) by nia.
  pose proof (CalcPartitions_window fade (double_of_Z 48000) irlength (blocksize m) HLr)
    as W.
  cbv zeta in W. fold cp in W. destruct W as (Hs0 & W). destruct (W Hst) as (Hl0 & Hwin).
  subst m'. unfold CreateIRs.
  destruct (Z.eqb_spec numirs 0) as [|_]; [lia|].
  destruct (Z.eqb_spec irlength 0) as [|_]; [lia|]. cbn [negb andb].
  fold cp. fold fades.
  destruct cp as [[P filterstart] filterlen]. destruct fades as [fadein fadeout].
  cbn [fst snd] in *.
  pose proof (create_ir_loop irdata irlength filterstart filterlen (blocksize m)
                fadein fadeout numirs (resize [] filterlen)
                ltac:(lia) ltac:(lia) Hs0 Hl0 Hwin Hdata ltac:(lia) (length_resize _ _))
    as (Hlen & Hfs).
  destruct (for_loop numirs _ _) as [buf fs]. cbn [snd] in *. cbn.
  unfold NumIRs, size. cbn. rewrite Hlen, (Hfs i Hi). repeat split. lia.
Qed.

(** X21. [CreateIRs] acts on the manager as a load of a library: it changes
    the filters, the partition count and the update flag and nothing else;
    with no IR to load ([numirs] or [irlength] zero) the library is emptied,
    and neither the partition count nor the update flag changes, so the
    convolvers keep the filters they have. *)
Theorem CreateIRs_is_a_library_load m irdata numirs irlength fade :
  0 <= numirs ->
  let m' := CreateIRs m irdata numirs irlength fade in
  let loaded := negb (numirs =? 0) && negb (irlength =? 0) in
  m' = with_library m (filters m') (partitions m') loaded /\
  NumIRs m' = (if loaded then numirs else 0) /\
  (loaded = false ->
   partitions m' = partitions m /\ updateparameters m' = updateparameters m).
Proof.
  intros Hn. cbv zeta. unfold CreateIRs.
  destruct (negb (numirs =? 0) && negb (irlength =? 0)) eqn:E.
  - destruct (CalcPartitions _ _ _ _) as [[P filterstart] filterlen].
    destruct (CreateFades _ _ _ _) as [fadein fadeout].
    assert (Hlen : length (snd (for_loop numirs
                     (create_ir irdata irlength filterstart filterlen (blocksize m)
                        fadein fadeout) (resize [] filterlen, []))) = Z.to_nat numirs).
    { apply (for_loop_invariant
               (fun j (acc : list float * list Filter) =>
                  length (snd acc) = Z.to_nat j)); [assumption| |reflexivity].
      intros j [buf fs] Hj Hl. cbn [snd] in *. unfold create_ir. cbn [snd].
      rewrite length_app. cbn [length]. lia. }
    destruct (for_loop numirs _ _) as [buf fs]. cbn [snd] in Hlen.
    unfold with_library, NumIRs, size. cbn. rewrite orb_true_r, Hlen.
    split; [reflexivity|]. split; [lia | discriminate].
  - unfold with_library, NumIRs, size. cbn. rewrite orb_false_r. easy.
Qed.

End Loader.

Lemma GetSOFAOffset_value nm nr ne e m r :
  nm * nr * ne <= UInt.modulus ->
  0 <= e < ne -> 0 <= r < nr -> 0 <= m < nm ->
  GetSOFAOffset nr ne e m r = (m * nr + r) * ne + e /\
  0 <= (m * nr + r) * ne + e < nm * nr * ne.
Proof.
  intros Hmod He Hr Hm.
  assert (A1 : m * nr + r < nm * nr) by nia.
  assert (A2 : 0 <= m * nr + r) by nia.
  assert (A3 : (m * nr + r + 1) * ne <= nm * nr * ne)
    by (apply Z.mul_le_mono_nonneg_r; lia).
  assert (A4 : 0 <= (m * nr + r) * ne) by nia.
  split; [|nia].
  unfold GetSOFAOffset, UInt.add, UInt.mul.
  assert (W1 : UInt.wrap (m * nr) = m * nr).
  { apply wrap_small. unfold UInt.in_range. nia. }
  assert (W2 : UInt.wrap (m * nr * ne) = m * nr * ne).
  { apply wrap_small. unfold UInt.in_range. nia. }
  assert (W3 : UInt.wrap (r * ne) = r * ne).
  { apply wrap_small. unfold UInt.in_range. nia. }
  rewrite W1, W2, W3.
  rewrite (wrap_small (m * nr * ne + r * ne)) by (unfold UInt.in_range; nia).
  rewrite wrap_small by (unfold UInt.in_range; nia). ring.
Qed.


(** X22. [GetSOFAOffset] numbers the IRs of a file of [nm] measurements,
    [nr] receivers and [ne] emitters without gaps or collisions, as long as
    their count fits a [uint_t]: the offset is
    [(measurement * nr + receiver) * ne + emitter], it is below
    [nm * nr * ne], and two different triples get different offsets. *)
Theorem GetSOFAOffset_layout nm nr ne e m r e' m' r' :
  nm * nr * ne <= UInt.modulus ->
  0 <= e < ne -> 0 <= r < nr -> 0 <= m < nm ->
  0 <= e' < ne -> 0 <= r' < nr -> 0 <= m' < nm ->
  GetSOFAOffset nr ne e m r = (m * nr + r) * ne + e /\
  0 <= GetSOFAOffset nr ne e m r < nm * nr * ne /\
  (GetSOFAOffset nr ne e m r = GetSOFAOffset nr ne e' m' r' ->
   e = e' /\ m = m' /\ r = r').
Proof.
  intros Hmod He Hr Hm He' Hr' Hm'.
  destruct (GetSOFAOffset_value nm nr ne e m r Hmod He Hr Hm) as [E1 R1].
  destruct (GetSOFAOffset_value nm nr ne e' m' r' Hmod He' Hr' Hm') as [E2 R2].
  split; [exact E1|]. split; [now rewrite E1|].
  rewrite E1, E2. intros E.
  destruct (interleaved_index_inj _ _ _ _ _ He He' E) as [E3 ->].
  destruct (interleaved_index_inj _ _ _ _ _ Hr Hr' E3) as [-> ->].
  easy.
Qed.

End LibraryProperties.

(** ** The layout of a library loaded from a SOFA file *)

Section SOFAProperties.
Context `{BlockConvolverLib} `{!FilterLib} `{LibM}.
Import FP.
Import ConvolverManager.
Import IRLibrary.
Import SOFAFile.

Lemma seqZ_snoc k : 0 <= k -> seqZ 0 (k + 1) = seqZ 0 k ++ [k].
Proof.
  intros Hk. rewrite seqZ_app by lia. f_equal.
Qed.

(** The three loops of [LoadIRsSOFA] push the filters of the offsets
    [0, 1, 2, ...] in this order. *)
Lemma load_loops file B start len fadein fadeout (fs0 : list Filter) :
  let nm := get_num_measurements file in
  let nr := get_num_receivers file in
  let ne := get_num_emitters file in
  0 <= nm -> 0 <= nr -> 0 <= ne -> nm * nr * ne <= UInt.modulus ->
  for_loop nm (fun im =>
    for_loop nr (fun ir =>
      for_loop ne (load_ir file B start len fadein fadeout im ir))) fs0
  = fs0 ++ ((fun k => make_filter B len
                        (ApplyFades (CopyIRData file k start len []) len fadein fadeout))
            <$> seqZ 0 (nm * nr * ne)).
Proof.
  intros nm nr ne Hnm Hnr Hne Hmod.
  set (F := fun k => make_filter B len
                       (ApplyFades (CopyIRData file k start len []) len fadein fadeout)).
  assert (Inner : forall im ir fs, 0 <= im < nm -> 0 <= ir < nr ->
            fs = fs0 ++ (F <$> seqZ 0 ((im * nr + ir) * ne)) ->
            for_loop ne (load_ir file B start len fadein fadeout im ir) fs
            = fs0 ++ (F <$> seqZ 0 ((im * nr + ir + 1) * ne))).
  { intros im ir fs Him Hir ->.
    replace ((im * nr + ir + 1) * ne) with ((im * nr + ir) * ne + ne) by ring.
    apply (for_loop_invariant
             (fun ie fs => fs = fs0 ++ (F <$> seqZ 0 ((im * nr + ir) * ne + ie))));
      [assumption| |now rewrite Z.add_0_r].
    intros ie fs Hie ->. unfold load_ir, offset. fold nr ne.
    destruct (GetSOFAOffset_value nm nr ne ie im ir Hmod Hie Hir Him) as [-> R].
    rewrite Z.add_assoc, seqZ_snoc by lia.
    rewrite fmap_app, app_assoc. reflexivity. }
  assert (Middle : forall im fs, 0 <= im < nm ->
            fs = fs0 ++ (F <$> seqZ 0 (im * nr * ne)) ->
            for_loop nr (fun ir =>
              for_loop ne (load_ir file B start len fadein fadeout im ir)) fs
            = fs0 ++ (F <$> seqZ 0 ((im + 1) * nr * ne))).
  { intros im fs Him ->.
    replace ((im + 1) * nr * ne) with ((im * nr + nr) * ne) by ring.
    apply (for_loop_invariant
             (fun ir fs => fs = fs0 ++ (F <$> seqZ 0 ((im * nr + ir) * ne))));
      [assumption| |now rewrite Z.add_0_r].
    intros ir fs Hir ->. rewrite Z.add_assoc. now apply Inner. }
  apply (for_loop_invariant
           (fun im fs => fs = fs0 ++ (F <$> seqZ 0 (im * nr * ne))));
    [assumption| |now rewrite app_nil_r].
  intros im fs Him ->. now apply Middle.
Qed.

(** X23. [LoadIRsSOFA] appends the filters in the order of their SOFA
    offsets, so the filter of (emitter, measurement, receiver) sits
    [GetSOFAOffset] places after the filters the manager held, and it is built
    from the IR at that offset of the file's data, from [filterstart] on; the
    manager then holds [nm * nr * ne] more filters, and an update of the
    convolvers is requested. *)
Theorem LoadIRsSOFA_layout m file fade e mm r :
  let nm := get_num_measurements file in
  let nr := get_num_receivers file in
  let ne := get_num_emitters file in
  let L := get_ir_length file in
  let cp := CalcPartitions fade (get_samplerate file) L (blocksize m) in
  let fades := CreateFades fade (get_samplerate file) [] [] in
  0 <= L ->
  nm * nr * ne * L <= Z.of_nat (length (get_all_irs file)) ->
  nm * nr * ne * L < UInt.modulus ->
  nm * nr * ne <= UInt.modulus ->
  snd (fst cp) <= L ->
  0 <= e < ne -> 0 <= r < nr -> 0 <= mm < nm ->
  let m' := LoadIRsSOFA m file fade in
  let k := offset file e mm r in
  filters m' !! (length (filters m) + Z.to_nat k)%nat
    = Some (make_filter (blocksize m) (snd cp)
              (ApplyFades
                 (take (Z.to_nat (snd cp))
                    (drop (Z.to_nat (k * L + snd (fst cp))) (get_all_irs file)))
                 (snd cp) (fst fades) (snd fades))) /\
  (forall j f, filters m !! j = Some f -> filters m' !! j = Some f) /\
  NumIRs m' = NumIRs m + nm * nr * ne /\
  partitions m' = fst (fst cp) /\
  updateparameters m' = true.
Proof.
  intros nm nr ne L cp fades HL Hdata Hmod Hcnt Hst He Hr Hm m' k.
  destruct (GetSOFAOffset_value nm nr ne e mm r Hcnt He Hr Hm) as [Ek Rk].
  change (k = (mm * nr + r) * ne + e) in Ek. clearbody k.
  assert (HLr : 0 <= L < UInt.modulus).
  { split; [assumption|]. destruct (Z.eq_dec L 0) as [->|]; [rewrite modulus_eq; lia|].
    assert (1 * L <= nm * nr * ne * L) by (apply Z.mul_le_mono_nonneg_r; lia). lia. }
  pose proof (CalcPartitions_window fade (get_samplerate file) L (blocksize m) HLr) as W.
  cbv zeta in W. fold cp in W. destruct W as (Hs0 & W). destruct (W Hst) as (Hl0 & Hwin).
  subst m'. unfold LoadIRsSOFA. fold L. fold cp. fold fades.
  destruct cp as [[P filterstart] filterlen]. destruct fades as [fadein fadeout].
  cbn [fst snd] in *.
  rewrite (load_loops file (blocksize m) filterstart filterlen fadein fadeout (filters m))
    by lia.
  fold nm nr ne. unfold NumIRs, size. cbn [filters partitions updateparameters].
  split; [|split; [|split; [|split; reflexivity]]].
  - rewrite lookup_app_r by lia.
    replace (length (filters m) + Z.to_nat k - length (filters m))%nat
      with (Z.to_nat k) by lia.
    rewrite list_lookup_fmap, (lookup_seqZ_lt 0 (nm * nr * ne) (Z.to_nat k)) by lia.
    cbn [fmap option_fmap option_map]. rewrite Z.add_0_l, Z2Nat.id by lia.
    do 3 f_equal. unfold CopyIRData. fold L.
    assert (HkL : (k + 1) * L <= nm * nr * ne * L)
      by (apply Z.mul_le_mono_nonneg_r; lia).
    assert (Emul : UInt.mul k L = k * L).
    { apply wrap_small. unfold UInt.in_range. nia. }
    assert (Eadd : UInt.add (k * L) filterstart = k * L + filterstart).
    { apply wrap_small. unfold UInt.in_range. nia. }
    rewrite Emul, Eadd. apply copy_block_spec; [nia | lia | nia | apply length_resize].
  - intros j f Hj. now apply lookup_app_l_Some.
  - rewrite length_app, length_fmap, length_seqZ. nia.
Qed.

End SOFAProperties.

Section LoaderDefaults.
Context `{BlockConvolverLib} `{!FilterLib} `{LibM}.
Import FP.
Import ConvolverManager.
Import IRLibrary.

(** X24. With the default fade [CreateIRs] takes every IR as it is: filter
    [i] is built from all [irlength] samples of IR [i], unfaded, and the
    partition count is [(irlength + blocksize - 1) / blocksize]. *)
Theorem CreateIRs_default_fade m irdata numirs irlength i :
  0 < blocksize m -> 0 < numirs -> 0 < irlength ->
  numirs * irlength <= Z.of_nat (length irdata) ->
  numirs * irlength < UInt.modulus ->
  irlength + blocksize m - 1 < UInt.modulus ->
  0 <= i < numirs ->
  let m' := CreateIRs m irdata numirs irlength defaultfade in
  filters m' !! Z.to_nat i
    = Some (make_filter (blocksize m) irlength
              (take (Z.to_nat irlength) (drop (Z.to_nat (i * irlength)) irdata))) /\
  partitions m' = (irlength + blocksize m - 1) / blocksize m.
Proof.
  intros HB Hn HL Hdata Hmod Hov Hi m'. subst m'. unfold CreateIRs.
  destruct (Z.eqb_spec numirs 0) as [|_]; [lia|].
  destruct (Z.eqb_spec irlength 0) as [|_]; [lia|]. cbn [negb andb].
  rewrite (CalcPartitions_default_fade_eq (double_of_Z 48000) irlength (blocksize m))
    by (first [reflexivity | lia]).
  assert (Ef : CreateFades defaultfade (double_of_Z 48000) [] [] = ([], [])).
  { unfold CreateFades, create_fade.
    change (uint_of_ceil (dmul (fade_in_length defaultfade) (double_of_Z 48000))) with 0.
    change (uint_of_ceil (dmul (fade_out_length defaultfade) (double_of_Z 48000))) with 0.
    reflexivity. }
  rewrite Ef.
  pose proof (create_ir_loop irdata irlength 0 irlength (blocksize m) [] [] numirs
                (resize [] irlength)
                ltac:(lia) ltac:(lia) ltac:(lia) ltac:(lia) ltac:(lia) Hdata ltac:(lia)
                (length_resize _ _)) as (_ & Hfs).
  destruct (for_loop numirs _ _) as [buf fs]. cbn [snd] in Hfs. cbn.
  rewrite (Hfs i Hi), Z.add_0_r. split; reflexivity.
Qed.

End LoaderDefaults.

Section MoreInvariants.
Context `{BlockConvolverLib} `{FractionalSampleLib}.
Import FP.
Import ConvolverManager.

(** X25. The thread never writes outside the delay memory: in every state
    a worker reaches, the write position is a multiple of the block size, and
    the block that starts there lies inside the memory. *)
Theorem write_position_in_memory w :
  Convolver.reachable w ->
  0 < Convolver.blocksize w < 2 ^ 30 ->
  (Convolver.blocksize w | Convolver.delaypos w) /\
  0 <= Convolver.delaypos w /\
  Convolver.delaypos w + Convolver.blocksize w <= Z.of_nat (length (Convolver.delay w)).
Proof.
  intros Hr HB. destruct (reachable_delaypos w Hr HB) as (Hp0 & Hp1 & Hd).
  rewrite (inv_delay w (reachable_invariant w Hr)).
  split; [exact Hd|]. split; [exact Hp0|]. lia.
Qed.

(** X26. [LoadIRDelays] replaces the table of delays by the pairs read from
    the file: afterwards the delay of IR [ir] is
    [static + dynamic * delayscale] of pair [ir], and 0.0 for an IR without a
    pair; when the file cannot be read every delay is 0.0. *)
Theorem LoadIRDelays_scaled_delay m file ir :
  0 <= ir ->
  scaled_delay (LoadIRDelays m file) ir
  = match file with
    | Some pairs =>
        match pairs !! Z.to_nat ir with
        | Some (dynamic, static) => dadd static (dmul dynamic (delayscale m))
        | None => dzero
        end
    | None => dzero
    end.
Proof.
  intros Hir. unfold LoadIRDelays, scaled_delay. destruct file as [pairs|].
  - cbn [irdelays delayscale with_irdelays with_updateparameters app].
    destruct (Z.ltb_spec ir (size pairs)) as [Hlt|Hge].
    + destruct (pairs !! Z.to_nat ir) as [[d s]|]; reflexivity.
    + rewrite (proj2 (lookup_ge_None pairs (Z.to_nat ir))) by (unfold size in Hge; lia).
      reflexivity.
  - cbn [irdelays with_irdelays]. unfold size.
    change (Z.of_nat (length (@nil (double * double)))) with 0.
    destruct (Z.ltb_spec ir 0); [lia | reflexivity].
Qed.

End MoreInvariants.

(** ** Static convolvers *)

Section StaticProperties.
Context `{BlockConvolverLib} `{FractionalSampleLib} `{!FilterLib} `{LibM}.
Import FP.
Import ConvolverManager.
Import IRLibrary.
Import SOFAFile.
Import StaticConvolvers.

Lemma create_fade_fresh l SR v0 : create_fade l SR v0 = create_fade l SR [].
Proof.
  destruct (create_fade_spec l SR v0) as (Hl & Hrd).
  destruct (create_fade_spec l SR []) as (Hl' & Hrd').
  apply rd_ext; [congruence|].
  intros k Hk. rewrite Hrd, Hrd' by lia. reflexivity.
Qed.

(** X27. [PrepareStaticConvolvers] removes every convolver and every set of
    parameters and sets the partition count, but keeps the filters, the
    update flag and the rest of the manager; the data it fills in are the
    start and length that [CalcPartitions] selects and the fades of
    [CreateFades], whatever the structure held before. *)
Theorem PrepareStaticConvolvers_resets m convolverdata irlength SR fade :
  let cp := CalcPartitions fade SR irlength (blocksize m) in
  let r := PrepareStaticConvolvers m convolverdata irlength SR fade in
  convolvers (fst r) = [] /\ parameters (fst r) = [] /\
  manager_wf (fst r) /\
  partitions (fst r) = fst (fst cp) /\
  filters (fst r) = filters m /\
  updateparameters (fst r) = updateparameters m /\
  blocksize (fst r) = blocksize m /\
  snd r = {| samplerate := SR;
             filterstart := snd (fst cp);
             filterlen := snd cp;
             fadein := fst (CreateFades fade SR [] []);
             fadeout := snd (CreateFades fade SR [] []) |}.
Proof.
  cbv zeta. unfold PrepareStaticConvolvers, CreateFades.
  rewrite (create_fade_fresh _ _ (fadein convolverdata)),
          (create_fade_fresh _ _ (fadeout convolverdata)).
  destruct (CalcPartitions fade SR irlength (blocksize m)) as [[P start] len].
  cbn [fst snd convolvers parameters partitions filters updateparameters blocksize].
  repeat (split; [reflexivity|]). split; [|repeat split].
  split; [reflexivity | constructor].
Qed.

(** X28. [CreateStaticConvolver] appends one filter, one set of parameters
    and one convolver, bound to one another: the filter is built from the
    [filterlen] samples of IR [index] of the file from [filterstart] on,
    faded; the parameters select that filter, with level 1.0 and the delay
    converted to samples; the convolver is constructed with that delay and the
    manager's interpolation mode, but without a filter, and the update flag is
    not set.  The manager stays well formed and what it held is kept. *)
Theorem CreateStaticConvolver_appends m file index _delay cd :
  manager_wf m ->
  size (filters m) < UInt.modulus - 1 ->
  size (convolvers m) < UInt.modulus ->
  0 <= index -> 0 <= get_ir_length file ->
  0 <= filterstart cd -> 0 <= filterlen cd < UInt.modulus ->
  filterstart cd + filterlen cd <= get_ir_length file ->
  (index + 1) * get_ir_length file <= Z.of_nat (length (get_all_irs file)) ->
  (index + 1) * get_ir_length file < UInt.modulus ->
  let m' := CreateStaticConvolver m file index _delay cd in
  let n := length (convolvers m) in
  let d := dmul _delay (samplerate cd) in
  manager_wf m' /\
  filters m'
    = filters m ++
      [make_filter (blocksize m) (filterlen cd)
         (ApplyFades
            (take (Z.to_nat (filterlen cd))
               (drop (Z.to_nat (index * get_ir_length file + filterstart cd))
                  (get_all_irs file)))
            (filterlen cd) (fadein cd) (fadeout cd))] /\
  parameters m'
    = parameters m ++ [{| irindex := size (filters m); delay := d; level := done |}] /\
  convolvers m'
    = convolvers m ++
      [Convolver.SetParameters
         (Convolver.new (Z.of_nat n) (blocksize m) (partitions m) d) done d (hqproc m)] /\
  (forall w, convolvers m' !! n = Some w -> Convolver.filter w = None) /\
  updateparameters m' = updateparameters m.
Proof.
  intros [Hl Hall] Hfs Hcs Hidx HL Hst [Hlen0 Hlen1] Hwin Hdata Hmod m' n d.
  pose proof modulus_eq as M.
  assert (HiL : 0 <= index * get_ir_length file) by nia.
  assert (HiL1 : index * get_ir_length file + get_ir_length file
                 = (index + 1) * get_ir_length file) by ring.
  assert (Emul : UInt.mul index (get_ir_length file) = index * get_ir_length file).
  { apply wrap_small. unfold UInt.in_range. lia. }
  assert (Eadd : UInt.add (index * get_ir_length file) (filterstart cd)
                 = index * get_ir_length file + filterstart cd).
  { apply wrap_small. unfold UInt.in_range. lia. }
  assert (Ebuf : CopyIRData file index (filterstart cd) (filterlen cd) []
                 = take (Z.to_nat (filterlen cd))
                     (drop (Z.to_nat (index * get_ir_length file + filterstart cd))
                        (get_all_irs file))).
  { unfold CopyIRData. rewrite Emul, Eadd.
    apply copy_block_spec; [lia | lia | lia | apply length_resize]. }
  assert (Esz : UInt.wrap (size (CopyIRData file index (filterstart cd) (filterlen cd) []))
                = filterlen cd).
  { rewrite Ebuf. unfold size. rewrite length_take, length_drop.
    rewrite Nat.min_l by lia. rewrite Z2Nat.id by lia.
    apply wrap_small. unfold UInt.in_range. lia. }
  assert (Eir : UInt.wrap
                  (size (filters m ++
                         [make_filter (blocksize m) (filterlen cd)
                            (ApplyFades
                               (CopyIRData file index (filterstart cd) (filterlen cd) [])
                               (filterlen cd) (fadein cd) (fadeout cd))]) - 1)
                = size (filters m)).
  { unfold size in *. rewrite length_app. cbn [length].
    replace (Z.of_nat (length (filters m) + 1) - 1) with (Z.of_nat (length (filters m)))
      by lia.
    apply wrap_small. unfold UInt.in_range. lia. }
  assert (Eci : UInt.wrap (size (convolvers m)) = Z.of_nat n).
  { apply wrap_small. unfold UInt.in_range, size in *. lia. }
  subst m'. unfold CreateStaticConvolver. rewrite Esz, Eir, Eci, Ebuf.
  cbn [filters parameters convolvers updateparameters irindex delay level].
  fold d. split; [|split; [reflexivity|split; [reflexivity|split; [reflexivity|split]]]].
  - split; cbn [parameters convolvers blocksize].
    + rewrite !length_app. cbn [length]. lia.
    + rewrite Forall_app. split; [assumption|].
      constructor; [|constructor]. split; [|reflexivity].
      apply (apply_op_invariant (Convolver.OpSetParameters done d (hqproc m))).
      apply new_invariant.
  - intros w Hw. rewrite lookup_app_r in Hw by (subst n; lia).
    subst n. rewrite Nat.sub_diag in Hw. injection Hw as <-. reflexivity.
  - reflexivity.
Qed.

(** X29. A static convolver gets its filter only through a pending update:
    at the tick after [CreateStaticConvolver], the new convolver runs with the
    filter created with it, and with its delay plus the scaled delay of that
    IR, when the update flag is set; when the flag is clear it still has no
    filter after the tick. *)
Theorem static_convolver_needs_update m file index _delay cd input output
    inputchannels outputchannels :
  manager_wf m ->
  size (filters m) < UInt.modulus - 1 ->
  let m' := CreateStaticConvolver m file index _delay cd in
  let n := length (convolvers m) in
  let d := dmul _delay (samplerate cd) in
  exists w f,
    convolvers (fst (Convolve m' input output inputchannels outputchannels)) !! n = Some w /\
    filters m' !! length (filters m) = Some f /\
    Convolver.filter w = (if updateparameters m then Some f else None) /\
    Convolver.outputdelay w
      = (if updateparameters m then dadd (scaled_delay m (size (filters m))) d else d).
Proof.
  intros [Hl Hall] Hfs m' n d.
  set (buffer := CopyIRData file index (filterstart cd) (filterlen cd) []).
  set (f := make_filter (blocksize m) (UInt.wrap (size buffer))
              (ApplyFades buffer (UInt.wrap (size buffer)) (fadein cd) (fadeout cd))).
  set (conv1 := Convolver.SetParameters
                  (Convolver.new (UInt.wrap (size (convolvers m))) (blocksize m)
                     (partitions m) d) done d (hqproc m)).
  assert (Eir : UInt.wrap (size (filters m ++ [f]) - 1) = size (filters m)).
  { unfold size in *. rewrite length_app. cbn [length].
    replace (Z.of_nat (length (filters m) + 1) - 1) with (Z.of_nat (length (filters m)))
      by lia.
    apply wrap_small. unfold UInt.in_range. lia. }
  assert (Hw : convolvers m' !! n = Some conv1).
  { subst m' n. unfold CreateStaticConvolver. cbn [convolvers].
    rewrite lookup_app_r by lia. now rewrite Nat.sub_diag. }
  assert (Hp : parameters m' !! n
               = Some {| irindex := size (filters m); delay := d; level := done |}).
  { subst m' n. unfold CreateStaticConvolver. cbn [parameters].
    fold buffer. fold f. rewrite Eir.
    rewrite lookup_app_r by lia. rewrite Hl, Nat.sub_diag. reflexivity. }
  assert (Hf : filters m' !! length (filters m) = Some f).
  { subst m'. unfold CreateStaticConvolver. cbn [filters]. fold buffer. fold f.
    rewrite lookup_app_r by lia. now rewrite Nat.sub_diag. }
  destruct (Convolve_workers m' input output inputchannels outputchannels)
    as (cs & -> & _ & Hcs).
  exists (tick_worker m' input inputchannels outputchannels n conv1), f.
  split; [exact (Hcs _ _ Hw)|]. split; [exact Hf|].
  destruct (tick_worker_settings m' input inputchannels outputchannels n conv1)
    as (-> & _ & -> & _).
  change (updateparameters m') with (updateparameters m).
  destruct (updateparameters m); [|split; reflexivity].
  unfold updated_worker. rewrite Hp. cbv zeta. cbn [irindex delay level].
  assert (Hsz : (size (filters m) <? size (filters m')) = true).
  { apply Z.ltb_lt. apply lookup_lt_Some in Hf. unfold size. lia. }
  rewrite Hsz. unfold size at 1 3. rewrite Nat2Z.id, Hf.
  cbn [Convolver.filter Convolver.outputdelay Convolver.SetParameters].
  split.
  - unfold Convolver.SetFilter. destruct (decide _) as [_|E]; [reflexivity|].
    exfalso. apply E. discriminate.
  - reflexivity.
Qed.

End StaticProperties.

(** * The theorems at concrete workers and managers *)

#[local] Existing Instances Examples.passthrough Examples.nearest.

(** Closes a goal that evaluation decides. *)
Ltac by_evaluation :=
  vm_compute; repeat split; try reflexivity; try discriminate; intros; discriminate.

Lemma worker0_reachable : Convolver.reachable Examples.worker0.
Proof. apply Convolver.reach_new. Defined.

Lemma worker1_reachable : Convolver.reachable Examples.worker1.
Proof.
  apply (Convolver.reach_op (Convolver.OpStart Examples.block0 1)), worker0_reachable.
Defined.

Lemma worker128_reachable : Convolver.reachable Examples.worker128.
Proof. apply Convolver.reach_new. Defined.

(** The block started on [worker1] is interpolated as C1 says. *)
Lemma Process_block_interpolation_witness :
  Convolver.reachable Examples.worker1 /\
  0 < Convolver.blocksize Examples.worker1 < 2 ^ 30 /\
  Spec.block_interpolation Examples.worker1 2.
Proof.
  split; [exact worker1_reachable|]. split; [by_evaluation|].
  exact (Process_block_interpolation Examples.worker1 2 worker1_reachable
           ltac:(by_evaluation) ltac:(by_evaluation) ltac:(by_evaluation)).
Defined.

(** The silence gate on the first block of [worker0]. *)
Lemma StartConvolution_silence_gate_witness :
  Convolver.reachable Examples.worker0 /\
  Spec.silence_gate Examples.worker0 Examples.block0 1.
Proof.
  split; [exact worker0_reachable|].
  exact (StartConvolution_silence_gate Examples.worker0 Examples.block0 1 worker0_reachable).
Defined.

(** C3 as stated fails: with 2 partitions and blocks of 128 samples the
    constructor sets the threshold to 2 + 18 + 1 = 21, and
    [P + ceil(2400 / B) + 1] is 22. *)
Lemma maxzeroblocks_not_rounded_up :
  Convolver.maxzeroblocks (Convolver.new 0 128 2 FP.dzero) = 21 /\
  Spec.max_zero_blocks 2 128 = 22 /\
  Convolver.maxzeroblocks (Convolver.new 0 128 2 FP.dzero) <> Spec.max_zero_blocks 2 128.
Proof. by_evaluation. Qed.

Lemma maxzeroblocks_rounds_down_witness :
  Convolver.reachable Examples.worker128 /\
  0 < Convolver.blocksize Examples.worker128 /\
  Convolver.maxzeroblocks Examples.worker128 =
  Convolver.partitions Examples.worker128
  + Spec.floor_ratio maxadditionaldelay (Convolver.blocksize Examples.worker128) + 1.
Proof.
  split; [exact worker128_reachable|]. split; [by_evaluation|].
  exact (proj2 (maxzeroblocks_rounds_down Examples.worker128 worker128_reachable
                  ltac:(by_evaluation) ltac:(by_evaluation) ltac:(by_evaluation))).
Defined.

(** C7 as stated fails: for blocks of 128 samples the delay memory has
    2560 samples, and [(1 + ceil((2400 + B - 1) / B)) * B] is 2688. *)
Lemma delay_line_not_rounded_up :
  Z.of_nat (length (Convolver.delay (Convolver.new 0 128 2 FP.dzero))) = 2560 /\
  Spec.delay_line_size 128 = 2688 /\
  Z.of_nat (length (Convolver.delay (Convolver.new 0 128 2 FP.dzero)))
    <> Spec.delay_line_size 128.
Proof. by_evaluation. Qed.

Lemma delay_line_length_witness :
  Convolver.reachable Examples.worker128 /\
  0 < Convolver.blocksize Examples.worker128 < 2 ^ 31 /\
  Z.of_nat (length (Convolver.delay Examples.worker128))
  = Spec.delay_line_size_sec3 (Convolver.blocksize Examples.worker128).
Proof.
  split; [exact worker128_reachable|]. split; [by_evaluation|].
  exact (proj1 (proj2 (delay_line_length Examples.worker128 worker128_reachable
                         ltac:(by_evaluation)))).
Defined.

(** Convolver 1 of [manager3] has IR 1 selected, which has a filter and a
    delay. *)
Lemma UpdateConvolverParameters_effective_delay_witness :
  ConvolverManager.parameters Examples.manager3 !! Z.to_nat 1 = Some Examples.params1 /\
  ConvolverManager.irdelays Examples.manager3
    !! Z.to_nat (ConvolverManager.irindex Examples.params1)
  = Some (Examples.ratio 1 2, FP.dzero) /\
  exists conv',
    ConvolverManager.convolvers
      (ConvolverManager.UpdateConvolverParameters Examples.manager3 1) !! Z.to_nat 1
    = Some conv' /\
    Convolver.outputdelay conv' =
      FP.dadd (FP.dadd FP.dzero
                 (FP.dmul (Examples.ratio 1 2)
                    (ConvolverManager.delayscale Examples.manager3)))
              (ConvolverManager.delay Examples.params1) /\
    Convolver.outputlevel conv' = ConvolverManager.level Examples.params1 /\
    Convolver.hqproc conv' = ConvolverManager.hqproc Examples.manager3 /\
    Convolver.filter conv' = Some 5.
Proof.
  split; [by_evaluation|]. split; [by_evaluation|].
  exact (UpdateConvolverParameters_effective_delay Examples.manager3 1
           Examples.params1 (Examples.nth_convolver Examples.manager3 1)
           5 (Examples.ratio 1 2) FP.dzero
           ltac:(by_evaluation) ltac:(by_evaluation) ltac:(by_evaluation)
           ltac:(by_evaluation) ltac:(by_evaluation) ltac:(by_evaluation)).
Defined.

(** After the library is replaced, the IR index of convolver 1 is stale. *)
Lemma UpdateConvolverParameters_stale_ir_witness :
  ConvolverManager.parameters Examples.reloaded !! Z.to_nat 1 = Some Examples.params1 /\
  ConvolverManager.size (ConvolverManager.filters Examples.reloaded)
    <= ConvolverManager.irindex Examples.params1 /\
  ConvolverManager.UpdateConvolverParameters Examples.reloaded 1 = Examples.reloaded.
Proof.
  split; [by_evaluation|]. split; [by_evaluation|].
  exact (proj1 (UpdateConvolverParameters_stale_ir Examples.reloaded 1 Examples.params1
                  ltac:(by_evaluation) ltac:(by_evaluation))).
Defined.

(** [SelectIR] on [manager2] (2 convolvers, 2 filters): in range; IR out of
    range; convolver out of range. *)
Lemma SelectIR_spec_witness :
  length (ConvolverManager.parameters Examples.manager2)
    = length (ConvolverManager.convolvers Examples.manager2) /\
  Spec.select_ir Examples.manager2 1 1 (Examples.ratio 1 2) (FP.double_of_Z 4) /\
  Spec.select_ir Examples.manager2 1 2 (Examples.ratio 1 2) (FP.double_of_Z 4) /\
  Spec.select_ir Examples.manager2 2 0 (Examples.ratio 1 2) (FP.double_of_Z 4).
Proof.
  split; [by_evaluation|].
  split; [|split].
  - exact (SelectIR_spec Examples.manager2 1 1 (Examples.ratio 1 2) (FP.double_of_Z 4)
             ltac:(by_evaluation) ltac:(by_evaluation) ltac:(by_evaluation)).
  - exact (SelectIR_spec Examples.manager2 1 2 (Examples.ratio 1 2) (FP.double_of_Z 4)
             ltac:(by_evaluation) ltac:(by_evaluation) ltac:(by_evaluation)).
  - exact (SelectIR_spec Examples.manager2 2 0 (Examples.ratio 1 2) (FP.double_of_Z 4)
             ltac:(by_evaluation) ltac:(by_evaluation) ltac:(by_evaluation)).
Defined.



(** [manager3] is reached from the constructor, so its workers are well
    formed. *)
Lemma manager3_reachable : ConvolverManager.reachable Examples.manager3.
Proof.
  unfold Examples.manager3, Examples.manager2, Examples.library.
  repeat apply ConvolverManager.reach_op. apply ConvolverManager.reach_new.
Qed.

Lemma manager3_wf :
  Forall (worker_wf 4) (ConvolverManager.convolvers Examples.manager3).
Proof.
  pose proof (proj2 (reachable_manager_wf Examples.manager3 manager3_reachable)) as W.
  assert (E : ConvolverManager.blocksize Examples.manager3 = 4) by (vm_compute; reflexivity).
  rewrite E in W. exact W.
Defined.

(** A tick of [manager3]: two convolvers on one input channel, mixed onto
    two output channels. *)
Lemma Convolve_routing_witness :
  Forall (worker_wf 4) (ConvolverManager.convolvers Examples.manager3) /\
  0 < 2 /\ 4 * 2 <= Z.of_nat (length Examples.stereo_silence) /\
  let r := ConvolverManager.Convolve Examples.manager3
             Examples.block0 Examples.stereo_silence 1 2 in
  Spec.tick_routing true 4 (ConvolverManager.convolvers (fst r))
    (ConvolverManager.audioscale Examples.manager3)
    Examples.block0 Examples.stereo_silence (snd r) 1 2.
Proof.
  split; [exact manager3_wf|]. split; [by_evaluation|]. split; [by_evaluation|].
  exact (Convolve_routing Examples.manager3 Examples.block0 Examples.stereo_silence 1 2 4
           ltac:(by_evaluation) ltac:(by_evaluation) ltac:(by_evaluation)
           ltac:(by_evaluation) ltac:(by_evaluation) ltac:(by_evaluation)
           manager3_wf).
Defined.

(** C5 as stated fails.  [mono_flushed] is the state after a block of ones
    and 343 blocks of silence: the convolver has processed 343 silent blocks
    and its output block holds the delayed ones.  On the next block of silence
    the gate closes ([zeroblocks = maxzeroblocks = 344]): [Convolve] adds
    nothing to the output, though the output block of the convolver is not
    zero. *)
Lemma gated_worker_is_not_mixed :
  let r := ConvolverManager.Convolve Examples.mono_flushed
             Examples.zeros7 Examples.zeros7 1 1 in
  snd r = Examples.zeros7 /\
  Convolver.output <$> ConvolverManager.convolvers (fst r)
    = [[FP.fone; FP.fone; FP.fone; FP.fone; FP.fone; FP.fone; FP.fzero]] /\
  Convolver.IsProcessing <$> ConvolverManager.convolvers (fst r) = [false] /\
  ~ Spec.tick_routing false 7 (ConvolverManager.convolvers (fst r))
      (ConvolverManager.audioscale Examples.mono_flushed)
      Examples.zeros7 Examples.zeros7 (snd r) 1 1.
Proof.
  cbv zeta.
  set (r := ConvolverManager.Convolve Examples.mono_flushed
              Examples.zeros7 Examples.zeros7 1 1).
  assert (E : r = ltac:(let v := eval vm_compute in
                          (ConvolverManager.Convolve Examples.mono_flushed
                             Examples.zeros7 Examples.zeros7 1 1) in exact v))
    by (vm_compute; reflexivity).
  rewrite E. clear E r.
  split; [reflexivity|]. split; [reflexivity|]. split; [reflexivity|].
  intros [_ Hmix]. specialize (Hmix 0 0 ltac:(lia) ltac:(lia)).
  vm_compute in Hmix. discriminate.
Qed.

(** C9, the defect at work: after the tick the flag is clear;
    [SetIRDelays] installs delays of 7 + 5 and 8 + 6 samples and the flag stays
    clear; the next tick runs both convolvers with the delay of 3.5 and 4.5
    samples they had. *)
Lemma SetIRDelays_is_not_applied :
  ConvolverManager.updateparameters Examples.after_tick = false /\
  ConvolverManager.irdelays Examples.new_delays
    = [(FP.double_of_Z 5, FP.double_of_Z 7); (FP.double_of_Z 6, FP.double_of_Z 8)] /\
  ConvolverManager.updateparameters Examples.new_delays = false /\
  Convolver.outputdelay <$>
    ConvolverManager.convolvers
      (fst (ConvolverManager.Convolve Examples.new_delays Examples.block0
              Examples.stereo_silence 1 2))
  = [Examples.ratio 7 2; Examples.ratio 9 2].
Proof. by_evaluation. Qed.

(** ** More theorems at concrete states *)

#[local] Existing Instances MoreExamples.first_sample MoreExamples.short_cos.

Lemma worker1200_reachable : Convolver.reachable MoreExamples.worker1200.
Proof. apply Convolver.reach_new. Qed.

Lemma silent_starts_silent :
  starts_silent (Convolver.blocksize MoreExamples.worker1200) MoreExamples.silent_starts.
Proof.
  unfold MoreExamples.silent_starts, starts_silent.
  repeat (apply Forall_cons_2 || apply Forall_nil_2); try exact I;
    apply (silent_zeros _ 1200 0 1).
Qed.

(** Four silent blocks gate [worker1200]. *)
Lemma silent_run_counts_blocks_witness :
  Convolver.reachable MoreExamples.worker1200 /\
  starts_silent (Convolver.blocksize MoreExamples.worker1200) MoreExamples.silent_starts /\
  Convolver.zeroblocks (run_worker MoreExamples.silent_starts MoreExamples.worker1200)
    = Z.min (Convolver.zeroblocks MoreExamples.worker1200
             + count_starts MoreExamples.silent_starts)
            (Convolver.maxzeroblocks MoreExamples.worker1200) /\
  Convolver.IsProcessing (run_worker MoreExamples.silent_starts MoreExamples.worker1200)
    = false.
Proof.
  split; [exact worker1200_reachable|]. split; [exact silent_starts_silent|].
  destruct (silent_run_counts_blocks MoreExamples.worker1200 MoreExamples.silent_starts
              worker1200_reachable silent_starts_silent) as [E G].
  split; [exact E|]. apply G. by_evaluation.
Defined.

Lemma gated_worker_reachable : Convolver.reachable MoreExamples.gated_worker.
Proof. apply run_worker_reachable, worker1200_reachable. Qed.

(** A fifth block of silence on the gated worker. *)
Lemma gated_worker_ignores_silence_witness :
  Convolver.reachable MoreExamples.gated_worker /\
  Convolver.zeroblocks MoreExamples.gated_worker
    = Convolver.maxzeroblocks MoreExamples.gated_worker /\
  Convolver.startsignal MoreExamples.gated_worker = false /\
  silent_block (Convolver.blocksize MoreExamples.gated_worker)
    (drop 0 (replicate 1200 FP.fzero)) 1 /\
  let w' := Convolver.StartConvolution MoreExamples.gated_worker
              (drop 0 (replicate 1200 FP.fzero)) 1 in
  Convolver.startsignal w' = false /\
  Convolver.zeroblocks w' = Convolver.maxzeroblocks w' /\
  Convolver.Process_step w' = w' /\
  Convolver.EndConvolution w' Examples.stereo_silence 0 2 FP.fone
    = (w', Examples.stereo_silence) /\
  Convolver.output w' = Convolver.output MoreExamples.gated_worker /\
  Convolver.delay w' = Convolver.delay MoreExamples.gated_worker /\
  Convolver.delaypos w' = Convolver.delaypos MoreExamples.gated_worker /\
  Convolver.convolver w' = Convolver.convolver MoreExamples.gated_worker.
Proof.
  split; [exact gated_worker_reachable|]. split; [by_evaluation|].
  split; [by_evaluation|]. split; [apply silent_zeros|].
  exact (gated_worker_ignores_silence MoreExamples.gated_worker
           (drop 0 (replicate 1200 FP.fzero)) 1 Examples.stereo_silence 0 2 FP.fone
           gated_worker_reachable ltac:(by_evaluation) ltac:(by_evaluation)
           (silent_zeros _ 1200 0 1)).
Defined.

Lemma flushed_worker_reachable : Convolver.reachable MoreExamples.flushed_worker.
Proof. apply run_worker_reachable, worker0_reachable. Qed.

(** The third block of [flushed_worker] is not convolved. *)
Lemma Process_block_skips_convolution_witness :
  Convolver.reachable MoreExamples.flushed_worker /\
  0 < Convolver.blocksize MoreExamples.flushed_worker < 2 ^ 30 /\
  Convolver.partitions MoreExamples.flushed_worker
    <= Convolver.zeroblocks MoreExamples.flushed_worker /\
  let w' := Convolver.Process_block MoreExamples.flushed_worker in
  Convolver.convolver w' = Convolver.convolver MoreExamples.flushed_worker /\
  Convolver.current_filter w' = Convolver.current_filter MoreExamples.flushed_worker /\
  Convolver.donesignal w' = true /\
  length (Convolver.delay w') = length (Convolver.delay MoreExamples.flushed_worker) /\
  (forall i, 0 <= i < Convolver.blocksize MoreExamples.flushed_worker ->
     rd (Convolver.delay w') (Convolver.delaypos MoreExamples.flushed_worker + i)
     = FP.fzero) /\
  (forall k, 0 <= k ->
     k < Convolver.delaypos MoreExamples.flushed_worker \/
     Convolver.delaypos MoreExamples.flushed_worker
       + Convolver.blocksize MoreExamples.flushed_worker <= k ->
     rd (Convolver.delay w') k = rd (Convolver.delay MoreExamples.flushed_worker) k).
Proof.
  split; [exact flushed_worker_reachable|]. split; [by_evaluation|].
  split; [by_evaluation|].
  exact (Process_block_skips_convolution MoreExamples.flushed_worker
           flushed_worker_reachable ltac:(by_evaluation) ltac:(by_evaluation)).
Defined.

Lemma fresh_filter_reachable : Convolver.reachable MoreExamples.fresh_filter.
Proof. apply run_worker_reachable, worker0_reachable. Qed.

(** The first block of [fresh_filter] installs filter 8. *)
Lemma Process_block_picks_up_filter_witness :
  Convolver.reachable MoreExamples.fresh_filter /\
  0 < Convolver.blocksize MoreExamples.fresh_filter < 2 ^ 30 /\
  Convolver.zeroblocks MoreExamples.fresh_filter
    < Convolver.partitions MoreExamples.fresh_filter /\
  Convolver.filter MoreExamples.fresh_filter = Some 8 /\
  Convolver.current_filter MoreExamples.fresh_filter <> Some 8 /\
  Convolver.current_filter (Convolver.Process_block MoreExamples.fresh_filter) = Some 8.
Proof.
  split; [exact fresh_filter_reachable|]. split; [by_evaluation|].
  split; [by_evaluation|]. split; [by_evaluation|]. split; [by_evaluation|].
  exact (proj1 (Process_block_picks_up_filter MoreExamples.fresh_filter 8
                  fresh_filter_reachable ltac:(by_evaluation) ltac:(by_evaluation)
                  ltac:(by_evaluation) ltac:(by_evaluation))).
Defined.

(** The end of a block of [worker1] on the second of two channels. *)
Lemma EndConvolution_frame_witness :
  0 <= Convolver.blocksize Examples.worker1 /\
  0 <= 1 < 2 /\
  Convolver.blocksize Examples.worker1 * 2 <= UInt.modulus /\
  let '(w', out') :=
    Convolver.EndConvolution Examples.worker1 Examples.stereo_silence 1 2 FP.fone in
  length out' = length Examples.stereo_silence /\
  (forall k, 0 <= k ->
     k mod 2 <> 1 \/ Convolver.blocksize Examples.worker1 * 2 <= k ->
     rd out' k = rd Examples.stereo_silence k) /\
  (Convolver.IsProcessing Examples.worker1 = false ->
   w' = Examples.worker1 /\ out' = Examples.stereo_silence).
Proof.
  split; [by_evaluation|]. split; [by_evaluation|]. split; [by_evaluation|].
  exact (EndConvolution_frame Examples.worker1 Examples.stereo_silence 1 2 FP.fone
           ltac:(by_evaluation) ltac:(by_evaluation) ltac:(by_evaluation)).
Defined.

(** The delay of [gated_worker] is within its limit. *)
Lemma delay_is_clamped_witness :
  Convolver.reachable MoreExamples.gated_worker /\
  FP.dltb (FP.double_of_Z (Convolver.maxdelay MoreExamples.gated_worker))
          (Convolver.delay1 MoreExamples.gated_worker) = false.
Proof.
  split; [exact gated_worker_reachable|].
  exact (delay_is_clamped MoreExamples.gated_worker gated_worker_reachable).
Defined.

(** The write position of [gated_worker]. *)
Lemma write_position_in_memory_witness :
  Convolver.reachable MoreExamples.gated_worker /\
  0 < Convolver.blocksize MoreExamples.gated_worker < 2 ^ 30 /\
  (Convolver.blocksize MoreExamples.gated_worker
   | Convolver.delaypos MoreExamples.gated_worker) /\
  0 <= Convolver.delaypos MoreExamples.gated_worker /\
  Convolver.delaypos MoreExamples.gated_worker
    + Convolver.blocksize MoreExamples.gated_worker
  <= Z.of_nat (length (Convolver.delay MoreExamples.gated_worker)).
Proof.
  split; [exact gated_worker_reachable|]. split; [by_evaluation|].
  exact (write_position_in_memory MoreExamples.gated_worker gated_worker_reachable
           ltac:(by_evaluation)).
Defined.

(** Updating convolver 1 of [manager3] twice. *)
Lemma UpdateConvolverParameters_idempotent_witness :
  0 <= 1 /\
  ConvolverManager.UpdateConvolverParameters
    (ConvolverManager.UpdateConvolverParameters Examples.manager3 1) 1
  = ConvolverManager.UpdateConvolverParameters Examples.manager3 1.
Proof.
  split; [by_evaluation|].
  exact (UpdateConvolverParameters_idempotent Examples.manager3 1 ltac:(by_evaluation)).
Defined.

(** The tick of [manager3], whose update is pending, gives convolver 1 the
    filter, level and delay of [params1]. *)
Lemma Convolve_applies_parameters_witness :
  ConvolverManager.updateparameters Examples.manager3 = true /\
  ConvolverManager.convolvers Examples.manager3 !! 1%nat
    = Some (Examples.nth_convolver Examples.manager3 1) /\
  ConvolverManager.parameters Examples.manager3 !! 1%nat = Some Examples.params1 /\
  0 <= ConvolverManager.irindex Examples.params1 /\
  ConvolverManager.filters Examples.manager3
    !! Z.to_nat (ConvolverManager.irindex Examples.params1) = Some 5 /\
  exists w',
    ConvolverManager.convolvers
      (fst (ConvolverManager.Convolve Examples.manager3 Examples.block0
              Examples.stereo_silence 1 2)) !! 1%nat = Some w' /\
    Convolver.filter w' = Some 5 /\
    Convolver.outputlevel w' = ConvolverManager.level Examples.params1 /\
    Convolver.outputdelay w'
      = FP.dadd (ConvolverManager.scaled_delay Examples.manager3
                   (ConvolverManager.irindex Examples.params1))
                (ConvolverManager.delay Examples.params1) /\
    Convolver.hqproc w' = ConvolverManager.hqproc Examples.manager3.
Proof.
  split; [by_evaluation|]. split; [by_evaluation|]. split; [by_evaluation|].
  split; [by_evaluation|]. split; [by_evaluation|].
  exact (Convolve_applies_parameters Examples.manager3 Examples.block0
           Examples.stereo_silence 1 2 1%nat Examples.params1 5
           (Examples.nth_convolver Examples.manager3 1)
           ltac:(by_evaluation) ltac:(by_evaluation) ltac:(by_evaluation)
           ltac:(by_evaluation) ltac:(by_evaluation)).
Defined.

(** The tick of [new_delays], whose flag is clear, keeps the settings of
    convolver 0. *)
Lemma Convolve_keeps_settings_witness :
  ConvolverManager.updateparameters Examples.new_delays = false /\
  ConvolverManager.convolvers Examples.new_delays !! 0%nat
    = Some (Examples.nth_convolver Examples.new_delays 0) /\
  exists w',
    ConvolverManager.convolvers
      (fst (ConvolverManager.Convolve Examples.new_delays Examples.block0
              Examples.stereo_silence 1 2)) !! 0%nat = Some w' /\
    Convolver.filter w' = Convolver.filter (Examples.nth_convolver Examples.new_delays 0) /\
    Convolver.outputlevel w'
      = Convolver.outputlevel (Examples.nth_convolver Examples.new_delays 0) /\
    Convolver.outputdelay w'
      = Convolver.outputdelay (Examples.nth_convolver Examples.new_delays 0) /\
    Convolver.hqproc w' = Convolver.hqproc (Examples.nth_convolver Examples.new_delays 0).
Proof.
  split; [by_evaluation|]. split; [by_evaluation|].
  exact (Convolve_keeps_settings Examples.new_delays Examples.block0
           Examples.stereo_silence 1 2 0%nat
           (Examples.nth_convolver Examples.new_delays 0)
           ltac:(by_evaluation) ltac:(by_evaluation)).
Defined.

Lemma mono_tick_wf inp m :
  ConvolverManager.manager_wf m -> ConvolverManager.manager_wf (Examples.mono_tick inp m).
Proof. intros Hm. unfold Examples.mono_tick. now apply Convolve_wf. Qed.

Lemma mono_gated_wf : ConvolverManager.manager_wf MoreExamples.mono_gated.
Proof.
  unfold MoreExamples.mono_gated, Examples.mono_flushed. apply mono_tick_wf.
  assert (Hs : ConvolverManager.manager_wf Examples.mono_started).
  { unfold Examples.mono_started. apply mono_tick_wf, SelectIR_wf, SetConvolverCount_wf.
    split; [reflexivity | constructor]. }
  generalize 343%nat. intros n. induction n as [|n IH]; [exact Hs|].
  cbn [Nat.iter nat_rect]. now apply mono_tick_wf.
Qed.

Lemma mono_gated_gated :
  Forall (fun w => Convolver.IsProcessing w = false)
    (ConvolverManager.convolvers MoreExamples.mono_gated).
Proof.
  assert (E : Convolver.IsProcessing <$> ConvolverManager.convolvers MoreExamples.mono_gated
              = [false]) by (vm_compute; reflexivity).
  destruct (ConvolverManager.convolvers MoreExamples.mono_gated) as [|w [|w' ws]];
    try discriminate.
  injection E as E. now repeat constructor.
Qed.

(** One more block of silence into the gated [mono_gated]. *)
Lemma Convolve_gated_silence_witness :
  ConvolverManager.manager_wf MoreExamples.mono_gated /\
  Forall (fun w => Convolver.IsProcessing w = false)
    (ConvolverManager.convolvers MoreExamples.mono_gated) /\
  (forall j : nat, (j < length (ConvolverManager.convolvers MoreExamples.mono_gated))%nat ->
     silent_block (ConvolverManager.blocksize MoreExamples.mono_gated)
       (drop (Z.to_nat (UInt.div (Z.of_nat j) 1)) (replicate 7 FP.fzero)) 1) /\
  snd (ConvolverManager.Convolve MoreExamples.mono_gated (replicate 7 FP.fzero)
         Examples.ones7 1 1) = Examples.ones7 /\
  Forall (fun w => Convolver.IsProcessing w = false)
    (ConvolverManager.convolvers
       (fst (ConvolverManager.Convolve MoreExamples.mono_gated (replicate 7 FP.fzero)
               Examples.ones7 1 1))).
Proof.
  split; [exact mono_gated_wf|]. split; [exact mono_gated_gated|].
  split; [intros j _; apply silent_zeros|].
  exact (Convolve_gated_silence MoreExamples.mono_gated (replicate 7 FP.fzero)
           Examples.ones7 1 1 mono_gated_wf mono_gated_gated
           (fun j _ => silent_zeros _ 7 _ 1)).
Defined.

(** A third convolver for [manager2]: the two it has are kept. *)
Lemma SetConvolverCount_count_witness :
  (0 < Z.to_nat 3)%nat /\
  ConvolverManager.convolvers Examples.manager2 !! 0%nat
    = Some (Examples.nth_convolver Examples.manager2 0) /\
  ConvolverManager.parameters Examples.manager2 !! 0%nat = Some default_parameters /\
  length (ConvolverManager.convolvers (ConvolverManager.SetConvolverCount Examples.manager2 3))
    = Z.to_nat 3 /\
  length (ConvolverManager.parameters (ConvolverManager.SetConvolverCount Examples.manager2 3))
    = Z.to_nat 3 /\
  ConvolverManager.convolvers (ConvolverManager.SetConvolverCount Examples.manager2 3)
    !! 0%nat = Some (Examples.nth_convolver Examples.manager2 0) /\
  ConvolverManager.parameters (ConvolverManager.SetConvolverCount Examples.manager2 3)
    !! 0%nat = Some default_parameters.
Proof.
  assert (H1 : (0 < Z.to_nat 3)%nat) by (vm_compute; lia).
  assert (H2 : ConvolverManager.convolvers Examples.manager2 !! 0%nat
               = Some (Examples.nth_convolver Examples.manager2 0)) by by_evaluation.
  assert (H3 : ConvolverManager.parameters Examples.manager2 !! 0%nat
               = Some default_parameters) by by_evaluation.
  split; [exact H1|]. split; [exact H2|]. split; [exact H3|].
  destruct (SetConvolverCount_count Examples.manager2 3) as (E1 & E2 & E3).
  split; [exact E1|]. split; [exact E2|].
  exact (E3 0%nat _ _ H1 H2 H3).
Defined.

(** The second of two convolvers created on [library]. *)
Lemma SetConvolverCount_selects_default_ir_witness :
  ConvolverManager.filters Examples.library !! 0%nat = Some 8 /\
  (length (ConvolverManager.convolvers Examples.library) <= 1 < Z.to_nat 2)%nat /\
  let m' := ConvolverManager.SetConvolverCount Examples.library 2 in
  ConvolverManager.convolvers m' !! 1%nat
    = Some (Convolver.SetParameters
              (Convolver.SetFilter
                 (Convolver.new (Z.of_nat 1)
                    (ConvolverManager.blocksize Examples.library)
                    (ConvolverManager.partitions Examples.library) FP.dzero) 8)
              FP.done
              (FP.dadd (ConvolverManager.scaled_delay Examples.library 0) FP.dzero)
              (ConvolverManager.hqproc Examples.library)) /\
  ConvolverManager.parameters m' !! 1%nat = Some default_parameters /\
  ConvolverManager.errors m' = ConvolverManager.errors Examples.library.
Proof.
  split; [by_evaluation|]. split; [vm_compute; lia|].
  exact (SetConvolverCount_selects_default_ir Examples.library 2 8 1%nat
           ltac:(by_evaluation) ltac:(vm_compute; lia)).
Defined.

(** Two convolvers created on a manager without a library. *)
Lemma SetConvolverCount_without_library_witness :
  length (ConvolverManager.parameters MoreExamples.empty4)
    = length (ConvolverManager.convolvers MoreExamples.empty4) /\
  ConvolverManager.filters MoreExamples.empty4 = [] /\
  ConvolverManager.errors (ConvolverManager.SetConvolverCount MoreExamples.empty4 2)
    = [ConvolverManager.ErrOutOfBoundsIR 0; ConvolverManager.ErrOutOfBoundsIR 0] /\
  ConvolverManager.convolvers (ConvolverManager.SetConvolverCount MoreExamples.empty4 2)
    !! 1%nat = Some (Convolver.new 1 4 0 FP.dzero).
Proof.
  split; [by_evaluation|]. split; [by_evaluation|].
  destruct (SetConvolverCount_without_library MoreExamples.empty4 2
              ltac:(by_evaluation) ltac:(by_evaluation)) as [E1 E2].
  split; [exact E1|]. exact (proj1 (E2 1%nat ltac:(vm_compute; lia))).
Defined.

(** The delays that [new_delays] installed. *)
Lemma SetIRDelays_scaled_delay_witness :
  0 <= 2 <= ConvolverManager.size [FP.double_of_Z 5; FP.double_of_Z 6] /\
  2 <= ConvolverManager.size [FP.double_of_Z 7; FP.double_of_Z 8] /\
  0 <= 1 /\
  ConvolverManager.scaled_delay
    (ConvolverManager.SetIRDelays Examples.after_tick
       [FP.double_of_Z 5; FP.double_of_Z 6] 2 [FP.double_of_Z 7; FP.double_of_Z 8]) 1
  = if 1 <? 2
    then FP.dadd ([FP.double_of_Z 7; FP.double_of_Z 8] !!! Z.to_nat 1)
                 (FP.dmul ([FP.double_of_Z 5; FP.double_of_Z 6] !!! Z.to_nat 1)
                          (ConvolverManager.delayscale Examples.after_tick))
    else FP.dzero.
Proof.
  split; [by_evaluation|]. split; [by_evaluation|]. split; [by_evaluation|].
  exact (SetIRDelays_scaled_delay Examples.after_tick
           [FP.double_of_Z 5; FP.double_of_Z 6] 2 [FP.double_of_Z 7; FP.double_of_Z 8] 1
           ltac:(by_evaluation) ltac:(by_evaluation) ltac:(by_evaluation)).
Defined.

(** The shape of [manager3]. *)
Lemma reachable_manager_shape_witness :
  ConvolverManager.reachable Examples.manager3 /\
  ConvolverManager.convolvers Examples.manager3 !! 0%nat
    = Some (Examples.nth_convolver Examples.manager3 0) /\
  length (ConvolverManager.parameters Examples.manager3)
    = length (ConvolverManager.convolvers Examples.manager3) /\
  Convolver.blocksize (Examples.nth_convolver Examples.manager3 0)
    = ConvolverManager.blocksize Examples.manager3.
Proof.
  split; [exact manager3_reachable|]. split; [by_evaluation|].
  destruct (reachable_manager_shape Examples.manager3 0%nat
              (Examples.nth_convolver Examples.manager3 0)
              manager3_reachable ltac:(by_evaluation)) as (E1 & E2 & _).
  split; [exact E1 | exact E2].
Defined.

(** The delay of the second pair of a file of two. *)
Lemma LoadIRDelays_scaled_delay_witness :
  0 <= 1 /\
  ConvolverManager.scaled_delay
    (ConvolverManager.LoadIRDelays Examples.manager3
       (Some [(FP.double_of_Z 5, FP.double_of_Z 7); (FP.double_of_Z 6, FP.double_of_Z 8)])) 1
  = FP.dadd (FP.double_of_Z 8)
            (FP.dmul (FP.double_of_Z 6) (ConvolverManager.delayscale Examples.manager3)).
Proof.
  split; [by_evaluation|].
  exact (LoadIRDelays_scaled_delay Examples.manager3
           (Some [(FP.double_of_Z 5, FP.double_of_Z 7);
                  (FP.double_of_Z 6, FP.double_of_Z 8)]) 1 ltac:(by_evaluation)).
Defined.

(** The last of four samples, faded in and out over one sample. *)
Lemma ApplyFades_pointwise_witness :
  4 <= ConvolverManager.size MoreExamples.data4 /\
  4 <= UInt.modulus /\
  ConvolverManager.size MoreExamples.fade_of_one <= 4 /\
  ConvolverManager.size MoreExamples.fade_of_one <= 4 /\
  0 <= 3 /\
  length (IRLibrary.ApplyFades MoreExamples.data4 4
            MoreExamples.fade_of_one MoreExamples.fade_of_one)
    = length MoreExamples.data4 /\
  rd (IRLibrary.ApplyFades MoreExamples.data4 4
        MoreExamples.fade_of_one MoreExamples.fade_of_one) 3 =
    let x := if 3 <? ConvolverManager.size MoreExamples.fade_of_one
             then FP.fmul (rd MoreExamples.data4 3) (rd MoreExamples.fade_of_one 3)
             else rd MoreExamples.data4 3 in
    if (4 - ConvolverManager.size MoreExamples.fade_of_one <=? 3) && (3 <? 4)
    then FP.fmul x (rd MoreExamples.fade_of_one (4 - 1 - 3)) else x.
Proof.
  split; [by_evaluation|]. split; [by_evaluation|]. split; [by_evaluation|].
  split; [by_evaluation|]. split; [by_evaluation|].
  exact (ApplyFades_pointwise MoreExamples.data4 4
           MoreExamples.fade_of_one MoreExamples.fade_of_one 3
           ltac:(by_evaluation) ltac:(by_evaluation) ltac:(by_evaluation)
           ltac:(by_evaluation) ltac:(by_evaluation)).
Defined.

(** An IR of 1000 samples in blocks of 128, with the default fade. *)
Lemma CalcPartitions_default_fade_witness :
  is_finite (FP.double_of_Z 48000) = true /\
  0 < 128 /\ 0 <= 1000 /\ 1000 + 128 - 1 < UInt.modulus /\
  let '(partitions, start, len) :=
    ConvolverManager.CalcPartitions ConvolverManager.defaultfade
      (FP.double_of_Z 48000) 1000 128 in
  start = 0 /\ len = 1000 /\ partitions = (1000 + 128 - 1) / 128 /\
  partitions = Spec.ceil_ratio 1000 128.
Proof.
  split; [by_evaluation|]. split; [by_evaluation|]. split; [by_evaluation|].
  split; [by_evaluation|].
  exact (CalcPartitions_default_fade (FP.double_of_Z 48000) 1000 128
           ltac:(by_evaluation) ltac:(by_evaluation) ltac:(by_evaluation)
           ltac:(by_evaluation)).
Defined.

(** Two IRs of four samples, taken from their second sample on. *)
Lemma CreateIRs_filters_witness :
  let cp := ConvolverManager.CalcPartitions MoreExamples.late_fade (FP.double_of_Z 48000) 4
              (ConvolverManager.blocksize MoreExamples.empty4) in
  let fades := IRLibrary.CreateFades MoreExamples.late_fade (FP.double_of_Z 48000) [] [] in
  0 < 2 /\ 0 < 4 /\
  2 * 4 <= Z.of_nat (length MoreExamples.irdata8) /\
  2 * 4 < UInt.modulus /\
  snd (fst cp) <= 4 /\
  0 <= 1 < 2 /\
  let m' := IRLibrary.CreateIRs MoreExamples.empty4 MoreExamples.irdata8 2 4
              MoreExamples.late_fade in
  IRLibrary.NumIRs m' = 2 /\
  ConvolverManager.filters m' !! Z.to_nat 1
    = Some (make_filter (ConvolverManager.blocksize MoreExamples.empty4) (snd cp)
              (IRLibrary.ApplyFades
                 (take (Z.to_nat (snd cp))
                    (drop (Z.to_nat (1 * 4 + snd (fst cp))) MoreExamples.irdata8))
                 (snd cp) (fst fades) (snd fades))).
Proof.
  intros cp fades.
  split; [by_evaluation|]. split; [by_evaluation|]. split; [by_evaluation|].
  split; [by_evaluation|]. split; [by_evaluation|]. split; [by_evaluation|].
  intros m'.
  destruct (CreateIRs_filters MoreExamples.empty4 MoreExamples.irdata8 2 4
              MoreExamples.late_fade 1
              ltac:(by_evaluation) ltac:(by_evaluation) ltac:(by_evaluation)
              ltac:(by_evaluation) ltac:(by_evaluation) ltac:(by_evaluation))
    as (E1 & E2 & _).
  split; [exact E1 | exact E2].
Defined.

(** No IR to load: the library of [manager3] is emptied, and its flag and
    partition count stay. *)
Lemma CreateIRs_is_a_library_load_witness :
  0 <= 0 /\
  let m' := IRLibrary.CreateIRs Examples.manager3 MoreExamples.irdata8 0 4
              ConvolverManager.defaultfade in
  IRLibrary.NumIRs m' = 0 /\
  ConvolverManager.partitions m' = ConvolverManager.partitions Examples.manager3 /\
  ConvolverManager.updateparameters m'
    = ConvolverManager.updateparameters Examples.manager3.
Proof.
  split; [by_evaluation|].
  destruct (CreateIRs_is_a_library_load Examples.manager3 MoreExamples.irdata8 0 4
              ConvolverManager.defaultfade ltac:(by_evaluation)) as (_ & E & F).
  split; [exact E|]. exact (F eq_refl).
Defined.

(** Emitter 1 of receiver 0 of measurement 1, of 2 x 2 x 3 IRs. *)
Lemma GetSOFAOffset_layout_witness :
  2 * 2 * 3 <= UInt.modulus /\
  0 <= 1 < 3 /\ 0 <= 0 < 2 /\ 0 <= 1 < 2 /\
  IRLibrary.GetSOFAOffset 2 3 1 1 0 = (1 * 2 + 0) * 3 + 1 /\
  0 <= IRLibrary.GetSOFAOffset 2 3 1 1 0 < 2 * 2 * 3 /\
  (IRLibrary.GetSOFAOffset 2 3 1 1 0 = IRLibrary.GetSOFAOffset 2 3 1 1 0 ->
   1 = 1 /\ 1 = 1 /\ 0 = 0).
Proof.
  split; [by_evaluation|]. split; [by_evaluation|]. split; [by_evaluation|].
  split; [by_evaluation|].
  exact (GetSOFAOffset_layout 2 2 3 1 1 0 1 1 0
           ltac:(by_evaluation) ltac:(by_evaluation) ltac:(by_evaluation)
           ltac:(by_evaluation) ltac:(by_evaluation) ltac:(by_evaluation)
           ltac:(by_evaluation)).
Defined.

(** The twelve IRs of [sofa12], loaded into a manager without filters:
    the IR of emitter 1, measurement 1, receiver 0 is filter 7. *)
Lemma LoadIRsSOFA_layout_witness :
  let cp := ConvolverManager.CalcPartitions ConvolverManager.defaultfade
              (SOFAFile.get_samplerate MoreExamples.sofa12)
              (SOFAFile.get_ir_length MoreExamples.sofa12)
              (ConvolverManager.blocksize MoreExamples.empty4) in
  let fades := IRLibrary.CreateFades ConvolverManager.defaultfade
                 (SOFAFile.get_samplerate MoreExamples.sofa12) [] [] in
  0 <= SOFAFile.get_ir_length MoreExamples.sofa12 /\
  2 * 2 * 3 * 2 <= Z.of_nat (length (SOFAFile.get_all_irs MoreExamples.sofa12)) /\
  2 * 2 * 3 * 2 < UInt.modulus /\
  2 * 2 * 3 <= UInt.modulus /\
  snd (fst cp) <= 2 /\
  0 <= 1 < 3 /\ 0 <= 0 < 2 /\ 0 <= 1 < 2 /\
  let m' := SOFAFile.LoadIRsSOFA MoreExamples.empty4 MoreExamples.sofa12
              ConvolverManager.defaultfade in
  let k := SOFAFile.offset MoreExamples.sofa12 1 1 0 in
  k = 7 /\
  ConvolverManager.filters m'
    !! (length (ConvolverManager.filters MoreExamples.empty4) + Z.to_nat k)%nat
    = Some (make_filter (ConvolverManager.blocksize MoreExamples.empty4) (snd cp)
              (IRLibrary.ApplyFades
                 (take (Z.to_nat (snd cp))
                    (drop (Z.to_nat (k * SOFAFile.get_ir_length MoreExamples.sofa12
                                     + snd (fst cp)))
                       (SOFAFile.get_all_irs MoreExamples.sofa12)))
                 (snd cp) (fst fades) (snd fades))) /\
  IRLibrary.NumIRs m' = IRLibrary.NumIRs MoreExamples.empty4 + 2 * 2 * 3.
Proof.
  intros cp fades.
  split; [by_evaluation|]. split; [by_evaluation|]. split; [by_evaluation|].
  split; [by_evaluation|]. split; [by_evaluation|]. split; [by_evaluation|].
  split; [by_evaluation|]. split; [by_evaluation|].
  intros m' k. split; [by_evaluation|].
  destruct (LoadIRsSOFA_layout MoreExamples.empty4 MoreExamples.sofa12
              ConvolverManager.defaultfade 1 1 0
              ltac:(by_evaluation) ltac:(by_evaluation) ltac:(by_evaluation)
              ltac:(by_evaluation) ltac:(by_evaluation) ltac:(by_evaluation)
              ltac:(by_evaluation) ltac:(by_evaluation))
    as (E1 & _ & E3 & _).
  split; [exact E1 | exact E3].
Defined.

(** The second of two IRs of four samples, unfaded. *)
Lemma CreateIRs_default_fade_witness :
  0 < ConvolverManager.blocksize MoreExamples.empty4 /\
  0 < 2 /\ 0 < 4 /\
  2 * 4 <= Z.of_nat (length MoreExamples.irdata8) /\
  2 * 4 < UInt.modulus /\
  4 + ConvolverManager.blocksize MoreExamples.empty4 - 1 < UInt.modulus /\
  0 <= 1 < 2 /\
  let m' := IRLibrary.CreateIRs MoreExamples.empty4 MoreExamples.irdata8 2 4
              ConvolverManager.defaultfade in
  ConvolverManager.filters m' !! Z.to_nat 1
    = Some (make_filter (ConvolverManager.blocksize MoreExamples.empty4) 4
              (take (Z.to_nat 4) (drop (Z.to_nat (1 * 4)) MoreExamples.irdata8))) /\
  ConvolverManager.partitions m'
    = (4 + ConvolverManager.blocksize MoreExamples.empty4 - 1)
      / ConvolverManager.blocksize MoreExamples.empty4.
Proof.
  split; [by_evaluation|]. split; [by_evaluation|]. split; [by_evaluation|].
  split; [by_evaluation|]. split; [by_evaluation|]. split; [by_evaluation|].
  split; [by_evaluation|].
  exact (CreateIRs_default_fade MoreExamples.empty4 MoreExamples.irdata8 2 4 1
           ltac:(by_evaluation) ltac:(by_evaluation) ltac:(by_evaluation)
           ltac:(by_evaluation) ltac:(by_evaluation) ltac:(by_evaluation)
           ltac:(by_evaluation)).
Defined.

Lemma prepared_wf : ConvolverManager.manager_wf (fst MoreExamples.prepared).
Proof. split; [vm_compute; reflexivity | vm_compute; constructor]. Qed.

(** A static convolver for IR 3 of [sofa12]. *)
Lemma CreateStaticConvolver_appends_witness :
  ConvolverManager.manager_wf (fst MoreExamples.prepared) /\
  ConvolverManager.size (ConvolverManager.filters (fst MoreExamples.prepared))
    < UInt.modulus - 1 /\
  ConvolverManager.size (ConvolverManager.convolvers (fst MoreExamples.prepared))
    < UInt.modulus /\
  0 <= 3 /\ 0 <= SOFAFile.get_ir_length MoreExamples.sofa12 /\
  0 <= StaticConvolvers.filterstart (snd MoreExamples.prepared) /\
  0 <= StaticConvolvers.filterlen (snd MoreExamples.prepared) < UInt.modulus /\
  StaticConvolvers.filterstart (snd MoreExamples.prepared)
    + StaticConvolvers.filterlen (snd MoreExamples.prepared)
    <= SOFAFile.get_ir_length MoreExamples.sofa12 /\
  (3 + 1) * SOFAFile.get_ir_length MoreExamples.sofa12
    <= Z.of_nat (length (SOFAFile.get_all_irs MoreExamples.sofa12)) /\
  (3 + 1) * SOFAFile.get_ir_length MoreExamples.sofa12 < UInt.modulus /\
  let m' := StaticConvolvers.CreateStaticConvolver (fst MoreExamples.prepared)
              MoreExamples.sofa12 3 MoreExamples.millisecond (snd MoreExamples.prepared) in
  ConvolverManager.manager_wf m' /\
  ConvolverManager.parameters m'
    = ConvolverManager.parameters (fst MoreExamples.prepared) ++
      [{| ConvolverManager.irindex :=
            ConvolverManager.size (ConvolverManager.filters (fst MoreExamples.prepared));
          ConvolverManager.delay :=
            FP.dmul MoreExamples.millisecond
                    (StaticConvolvers.samplerate (snd MoreExamples.prepared));
          ConvolverManager.level := FP.done |}] /\
  ConvolverManager.updateparameters m'
    = ConvolverManager.updateparameters (fst MoreExamples.prepared).
Proof.
  split; [exact prepared_wf|]. split; [by_evaluation|]. split; [by_evaluation|].
  split; [by_evaluation|]. split; [by_evaluation|]. split; [by_evaluation|].
  split; [by_evaluation|]. split; [by_evaluation|]. split; [by_evaluation|].
  split; [by_evaluation|]. intros m'.
  destruct (CreateStaticConvolver_appends (fst MoreExamples.prepared) MoreExamples.sofa12 3
              MoreExamples.millisecond (snd MoreExamples.prepared) prepared_wf
              ltac:(by_evaluation) ltac:(by_evaluation) ltac:(by_evaluation)
              ltac:(by_evaluation) ltac:(by_evaluation) ltac:(by_evaluation)
              ltac:(by_evaluation) ltac:(by_evaluation) ltac:(by_evaluation))
    as (E1 & _ & E3 & _ & _ & E6).
  split; [exact E1|]. split; [exact E3 | exact E6].
Defined.

(** The first tick after the static convolver was created. *)
Lemma static_convolver_needs_update_witness :
  ConvolverManager.manager_wf (fst MoreExamples.prepared) /\
  ConvolverManager.size (ConvolverManager.filters (fst MoreExamples.prepared))
    < UInt.modulus - 1 /\
  let m' := StaticConvolvers.CreateStaticConvolver (fst MoreExamples.prepared)
              MoreExamples.sofa12 3 MoreExamples.millisecond (snd MoreExamples.prepared) in
  let n := length (ConvolverManager.convolvers (fst MoreExamples.prepared)) in
  let d := FP.dmul MoreExamples.millisecond
             (StaticConvolvers.samplerate (snd MoreExamples.prepared)) in
  exists w f,
    ConvolverManager.convolvers
      (fst (ConvolverManager.Convolve m' Examples.block0 Examples.stereo_silence 1 2))
      !! n = Some w /\
    ConvolverManager.filters m'
      !! length (ConvolverManager.filters (fst MoreExamples.prepared)) = Some f /\
    Convolver.filter w
      = (if ConvolverManager.updateparameters (fst MoreExamples.prepared)
         then Some f else None) /\
    Convolver.outputdelay w
      = (if ConvolverManager.updateparameters (fst MoreExamples.prepared)
         then FP.dadd
                (ConvolverManager.scaled_delay (fst MoreExamples.prepared)
                   (ConvolverManager.size
                      (ConvolverManager.filters (fst MoreExamples.prepared))))
                d
         else d).
Proof.
  split; [exact prepared_wf|]. split; [by_evaluation|].
  exact (static_convolver_needs_update (fst MoreExamples.prepared) MoreExamples.sofa12 3
           MoreExamples.millisecond (snd MoreExamples.prepared)
           Examples.block0 Examples.stereo_silence 1 2 prepared_wf ltac:(by_evaluation)).
Defined.
